(** * Smart Parking System: occupancy detection, vehicle counting, allocation

    A shallow embedding of the core of the repository
    (models/allocation_engine.py, models/parking_manager.py,
    models/parking_visualizer.py, models/vehicle_tracker.py and the rescaling
    routine of ui/app.py) together with the properties the specification
    states about it.

    Conventions of the embedding:
    - Python [int] is [Z]; Python [float] is an exact rational [Q] (scores,
      scale factors, timestamps in seconds); [int(..)] of a float is
      truncation towards zero ([py_int]).
    - A dict whose iteration order is observable (the [spaces_data] argument
      of the allocation engine: [np.argmax] breaks ties by position) is an
      association list in insertion order; the other dicts are [gmap]s.
    - [datetime.now()] is an explicit argument [now].
    - An attribute that is mutated is a field of an explicit state record;
      exceptions and a thread blocked on a lock are outcomes of a call. *)

From Stdlib Require Import ZArith QArith Lia Lqa Bool Ascii String.
From stdpp Require Import gmap strings list pretty.

Open Scope Z_scope.

(** ** Python values shared by the modules *)

Module Py.

(** The exceptions the modelled code can raise. *)
Inductive exn : Type :=
| KeyError (key : string)
| IndexError
| TypeError (msg : string)
| ValueError (msg : string)
| ZeroDivisionError
| ModelError (msg : string).

(** [int(q)] for a float [q]: truncation towards zero. *)
Definition py_int (q : Q) : Z := Z.quot (Qnum q) (Zpos (Qden q)).

(** [a < b] on floats, as a boolean. *)
Definition Qlt_bool (a b : Q) : bool := negb (Qle_bool b a).

(** [s.split(sep)] for a one-character separator. *)
Fixpoint split_on (sep : ascii) (s : string) : list string :=
  match s with
  | EmptyString => [EmptyString]
  | String c rest =>
      if Ascii.eqb c sep then EmptyString :: split_on sep rest
      else match split_on sep rest with
           | [] => [String c EmptyString]
           | h :: t => String c h :: t
           end
  end.

(** Code that may raise: the exception or the result. *)
Definition ebind {A B} (m : exn + A) (k : A -> exn + B) : exn + B :=
  match m with
  | inl e => inl e
  | inr a => k a
  end.

(** [a < n / 2] with Python's true division, for integers [a] and [n]. *)
Definition lt_half (a n : Z) : bool := Qlt_bool (inject_Z a) (inject_Z n / 2).

(** [str(n)] for a natural number. *)
Definition str_of_nat (n : nat) : string := pretty n.

(** [np.argmax] of a non-empty sequence: the index of the first maximum.
    [argmax_from bi b i l] scans [l], whose head has index [i], with the
    best index [bi] and best value [b] seen so far; a later element replaces
    the best only when strictly greater. *)
Fixpoint argmax_from (bi : nat) (b : Q) (i : nat) (l : list Q) : nat :=
  match l with
  | [] => bi
  | x :: r =>
      if Qlt_bool b x then argmax_from i x (S i) r
      else argmax_from bi b (S i) r
  end.

Definition argmax (l : list Q) : nat :=
  match l with
  | [] => 0%nat
  | x :: r => argmax_from 0 x 1 r
  end.

End Py.

(** ** models/allocation_engine.py: [ParkingAllocationEngine] *)

Module AllocationEngine.
Import Py.

(** The entry of one space in the [spaces_data] dict, with the keys the engine
    reads.  [distance_to_entrance] is absent from the group entries that
    [ParkingManager.sync_group_data] creates, so the key is optional. *)
Record SpaceData : Type := mkSpaceData {
  occupied : bool;
  last_state_change : Q;
  distance_to_entrance : option Q
}.

(** An entry of [parking_stats]. *)
Record SectionStats : Type := mkSectionStats {
  total : Z;
  occupied_count : Z;
  occupancy_rate : Q
}.

(** An entry of [allocation_history]. *)
Record Allocation : Type := mkAllocation {
  a_timestamp : Q;
  a_space_id : string;
  a_vehicle_size : Z;
  a_score : Q;
  a_features : list Q
}.

(** An entry of [feedback_data]. *)
Record Feedback : Type := mkFeedback {
  f_timestamp : Q;
  f_space_id : string;
  f_section : string;
  f_vehicle_size : Z;
  f_features : list Q;
  f_successful : Z
}.

(** The pluggable scoring model (an [xgb.XGBClassifier] in the source).
    [predict_proba m X] is the column of class-1 probabilities
    [m.predict_proba(X)[:, 1]], [fit m X y] the refitted model; either call
    may raise. *)
Class Classifier (M : Type) : Type := {
  predict_proba : M -> list (list Q) -> exn + list Q;
  fit : M -> list (list Q) -> list Z -> exn + M
}.

(** The attributes of the engine.  [model_file] is the content of the pickle
    file at [model_path]; [lock_held] is the state of [self.lock], a
    [threading.Lock], which is not re-entrant. *)
Record Engine (M : Type) : Type := mkEngine {
  model : M;
  model_file : option M;
  allocation_history : list Allocation;
  feedback_data : list Feedback;
  parking_stats : gmap string SectionStats;
  load_balancing_weight : Q;
  lock_held : bool
}.
Arguments mkEngine {M}.
Arguments model {M}.
Arguments model_file {M}.
Arguments allocation_history {M}.
Arguments feedback_data {M}.
Arguments parking_stats {M}.
Arguments load_balancing_weight {M}.
Arguments lock_held {M}.

(** How a call ends: it returns, it raises, or the calling thread blocks for
    ever acquiring a lock that is never released. *)
Inductive Outcome (M A : Type) : Type :=
| Returned (a : A) (s : Engine M)
| Raised (e : exn) (s : Engine M)
| Blocked (s : Engine M).
Arguments Returned {M A}.
Arguments Raised {M A}.
Arguments Blocked {M A}.

Definition Act (M A : Type) : Type := Engine M -> Outcome M A.

Definition ret {M A} (a : A) : Act M A := fun s => Returned a s.

Definition raise {M A} (e : exn) : Act M A := fun s => Raised e s.

Definition bind {M A B} (m : Act M A) (k : A -> Act M B) : Act M B :=
  fun s =>
    match m s with
    | Returned a s' => k a s'
    | Raised e s' => Raised e s'
    | Blocked s' => Blocked s'
    end.

Notation "x <- m ;; k" := (bind m (fun x => k))
  (at level 100, m at next level, right associativity).
Notation "m ;;; k" := (bind m (fun _ => k))
  (at level 100, k at level 200, right associativity).

Definition gets {M A} (f : Engine M -> A) : Act M A := fun s => Returned (f s) s.

Definition modify {M} (f : Engine M -> Engine M) : Act M unit :=
  fun s => Returned tt (f s).

Definition set_lock {M} (b : bool) (s : Engine M) : Engine M :=
  mkEngine (model s) (model_file s) (allocation_history s) (feedback_data s)
           (parking_stats s) (load_balancing_weight s) b.

(** [with self.lock: body].  Acquiring blocks while the lock is held; the lock
    is released when the body is left, normally or by an exception. *)
Definition with_lock {M A} (body : Act M A) : Act M A :=
  fun s =>
    if lock_held s then Blocked s
    else match body (set_lock true s) with
         | Returned a s' => Returned a (set_lock false s')
         | Raised e s' => Raised e (set_lock false s')
         | Blocked s' => Blocked s'
         end.

(** [try: body except Exception as e: print(..)]. *)
Definition try_except {M} (body : Act M unit) : Act M unit :=
  fun s =>
    match body s with
    | Raised _ s' => Returned tt s'
    | r => r
    end.

(** [get_section_from_space_id]: [parts[1] if len(parts) > 1 else 'A']. *)
Definition get_section_from_space_id (space_id : string) : string :=
  match split_on "-"%char space_id with
  | _ :: p :: _ => p
  | _ => "A"%string
  end.

(** The local dict [sections] of [update_parking_stats] after the first loop:
    per section, the pair (total, occupied). *)
Definition count_space (sections : gmap string (Z * Z))
  (entry : string * SpaceData) : gmap string (Z * Z) :=
  let section := get_section_from_space_id entry.1 in
  let '(t, o) := default (0, 0) (sections !! section) in
  <[section := (t + 1, if occupied entry.2 then o + 1 else o)]> sections.

Definition count_sections (spaces_data : list (string * SpaceData))
  : gmap string (Z * Z) :=
  foldl count_space ∅ spaces_data.

Definition stats_of (c : Z * Z) : SectionStats :=
  mkSectionStats c.1 c.2
    (if 0 <? c.1 then (inject_Z c.2 / inject_Z c.1)%Q else 0%Q).

Definition set_parking_stats {M} (ps : gmap string SectionStats)
  (s : Engine M) : Engine M :=
  mkEngine (model s) (model_file s) (allocation_history s) (feedback_data s)
           ps (load_balancing_weight s) (lock_held s).

(** [update_parking_stats].  The second loop overwrites the entry of every
    section met in [spaces_data] and keeps the entries of the other sections:
    a left-biased union. *)
Definition update_parking_stats {M} (spaces_data : list (string * SpaceData))
  : Act M unit :=
  with_lock
    (modify (fun s =>
       set_parking_stats
         ((stats_of <$> count_sections spaces_data) ∪ parking_stats s) s)).

(** The feature rows built by the first loop of [allocate_parking]:
    [[distance_to_entrance, minutes since last_state_change, vehicle_size]].
    Reading a missing [distance_to_entrance] raises [KeyError]. *)
Fixpoint build_features (now : Q) (vehicle_size : Z)
  (available : list (string * SpaceData)) : exn + list (list Q) :=
  match available with
  | [] => inr []
  | (_, data) :: rest =>
      let time_since_last_occupied := ((now - last_state_change data) / 60)%Q in
      match distance_to_entrance data with
      | None => inl (KeyError "distance_to_entrance")
      | Some dist =>
          match build_features now vehicle_size rest with
          | inl e => inl e
          | inr rows =>
              inr ([dist; time_since_last_occupied; inject_Z vehicle_size] :: rows)
          end
      end
  end.

(** Python truth value of the optional argument [preferred_section]:
    [None] and the empty string are false. *)
Definition truthy (preferred_section : option string) : bool :=
  match preferred_section with
  | Some p => negb (String.eqb p "")
  | None => false
  end.

Definition section_matches (preferred_section : option string)
  (section : string) : bool :=
  match preferred_section with
  | Some p => String.eqb section p
  | None => false
  end.

(** One iteration of the load-balancing loop. *)
Definition balanced_score (stats : gmap string SectionStats) (w : Q)
  (preferred_section : option string) (space_id : string) (score : Q) : Q :=
  let section := get_section_from_space_id space_id in
  let section_occupancy :=
    match stats !! section with
    | Some st => occupancy_rate st
    | None => (1 # 2)%Q
    end in
  let load_balance_score := (1 - section_occupancy)%Q in
  let section_preference :=
    if truthy preferred_section && section_matches preferred_section section
    then (12 # 10)%Q else 1%Q in
  (((1 - w) * score + w * load_balance_score) * section_preference)%Q.

(** The loop [for i, space_id in enumerate(space_ids)]; [i] is the index of
    the head of [space_ids].  [prediction_scores[i]] raises [IndexError] when
    the model returned too few scores. *)
Fixpoint balance (stats : gmap string SectionStats) (w : Q)
  (preferred_section : option string) (prediction_scores : list Q)
  (i : nat) (space_ids : list string) : exn + list Q :=
  match space_ids with
  | [] => inr []
  | space_id :: rest =>
      match prediction_scores !! i with
      | None => inl IndexError
      | Some score =>
          match balance stats w preferred_section prediction_scores (S i) rest with
          | inl e => inl e
          | inr bs =>
              inr (balanced_score stats w preferred_section space_id score :: bs)
          end
      end
  end.

Definition lift {M A} (r : exn + A) : Act M A :=
  match r with
  | inl e => raise e
  | inr a => ret a
  end.

Definition append_history {M} (a : Allocation) (s : Engine M) : Engine M :=
  mkEngine (model s) (model_file s) (allocation_history s ++ [a])
           (feedback_data s) (parking_stats s) (load_balancing_weight s)
           (lock_held s).

(** [allocate_parking(spaces_data, vehicle_size, preferred_section)], called
    at time [now]. *)
Definition allocate_parking {M} `{Classifier M}
  (spaces_data : list (string * SpaceData)) (vehicle_size : Z)
  (preferred_section : option string) (now : Q) : Act M (option string * Q) :=
  update_parking_stats spaces_data ;;;
  let available_spaces :=
    List.filter (fun e : string * SpaceData => negb (occupied e.2)) spaces_data in
  match available_spaces with
  | [] => ret (None, 0%Q)
  | _ =>
      let current_time := now in
      features_list <- lift (build_features current_time vehicle_size available_spaces) ;;
      let space_ids := map fst available_spaces in
      prediction_scores <-
        with_lock (m <- gets model ;; lift (predict_proba m features_list)) ;;
      stats <- gets parking_stats ;;
      w <- gets load_balancing_weight ;;
      balanced_scores <-
        lift (balance stats w preferred_section prediction_scores 0 space_ids) ;;
      match balanced_scores with
      | [] => ret (None, 0%Q)
      | _ =>
          let best_idx := argmax balanced_scores in
          match space_ids !! best_idx, balanced_scores !! best_idx,
                features_list !! best_idx with
          | Some best_space_id, Some best_score, Some features =>
              modify (append_history
                        (mkAllocation current_time best_space_id vehicle_size
                                      best_score features)) ;;;
              ret (Some best_space_id, best_score)
          | _, _, _ => raise IndexError
          end
      end
  end.

Definition set_feedback {M} (fb : list Feedback) (s : Engine M) : Engine M :=
  mkEngine (model s) (model_file s) (allocation_history s) fb
           (parking_stats s) (load_balancing_weight s) (lock_held s).

Definition set_model {M} (m : M) (s : Engine M) : Engine M :=
  mkEngine m (model_file s) (allocation_history s) (feedback_data s)
           (parking_stats s) (load_balancing_weight s) (lock_held s).

Definition set_model_file {M} (m : M) (s : Engine M) : Engine M :=
  mkEngine (model s) (Some m) (allocation_history s) (feedback_data s)
           (parking_stats s) (load_balancing_weight s) (lock_held s).

(** [_retrain_model].  It takes [self.lock] itself.  Inside the [try] block:
    the rows are the first three features of every feedback entry (the
    three-column [DataFrame] raises on a row of another length), the model is
    refitted, pickled to [model_path], and the buffer is cleared; any exception
    is printed and swallowed. *)
Definition _retrain_model {M} `{Classifier M} : Act M unit :=
  fb <- gets feedback_data ;;
  match fb with
  | [] => ret tt
  | _ =>
      with_lock
        (try_except
           (fb <- gets feedback_data ;;
            let features_list := map (fun f => firstn 3 (f_features f)) fb in
            let labels := map f_successful fb in
            (if forallb (fun row => Nat.eqb (length row) 3) features_list
             then ret tt
             else raise (ValueError "3 columns passed")) ;;;
            m <- gets model ;;
            m' <- lift (fit m features_list labels) ;;
            modify (set_model m') ;;;
            modify (set_model_file m') ;;;
            modify (set_feedback [])))
  end.

(** The newest history entry for [space_id]:
    [for entry in reversed(self.allocation_history)], first match. *)
Definition find_allocation (space_id : string) (history : list Allocation)
  : option Allocation :=
  List.find (fun entry => String.eqb (a_space_id entry) space_id) (rev history).

(** [add_feedback(space_id, vehicle_size, successful)], called at time [now].
    The whole body runs under [self.lock]. *)
Definition add_feedback {M} `{Classifier M} (space_id : string)
  (vehicle_size : Z) (successful : bool) (now : Q) : Act M unit :=
  with_lock
    (let section := get_section_from_space_id space_id in
     history <- gets allocation_history ;;
     match find_allocation space_id history with
     | Some allocation =>
         let feedback :=
           mkFeedback now space_id section vehicle_size (a_features allocation)
                      (if successful then 1 else 0) in
         modify (fun s => set_feedback (feedback_data s ++ [feedback]) s) ;;;
         fb <- gets feedback_data ;;
         if (10 <=? length fb)%nat then _retrain_model else ret tt
     | None => ret tt
     end).

(** The engine as [__init__] leaves it: [m] is the model that
    [_load_or_create_model] unpickled, or created and pickled. *)
Definition init {M} (m : M) : Engine M :=
  mkEngine m (Some m) [] [] ∅ (3 # 10)%Q false.

(** [initialize_parking_spaces(spaces_data)].  The whole body runs under
    [self.lock]; [self.parking_data], which it assigns first, is read by no
    method of the engine and is not kept in the state. *)
Definition initialize_parking_spaces {M}
  (spaces_data : list (string * SpaceData)) : Act M unit :=
  with_lock (update_parking_stats spaces_data).

End AllocationEngine.

(** ** models/parking_manager.py: [ParkingManager] *)

Module ParkingManager.
Import Py.

(** An element of [posList].  The detection routines index the frame with the
    coordinates, so these are integers; an element that is not a tuple is
    [PosOther]. *)
Inductive PosEntry : Type :=
| PosTuple (coords : list Z)
| PosOther.

(** [x, y, w, h = pos]. *)
Definition unpack4 (pos : PosEntry) : exn + (Z * Z * Z * Z) :=
  match pos with
  | PosTuple [x; y; w; h] => inr (x, y, w, h)
  | PosTuple _ => inl (ValueError "unpack")
  | PosOther => inl (TypeError "unpack")
  end.

(** The binarised frame [img_pro]: its shape, and [count_crop x y w h], the
    value of [cv2.countNonZero(img_pro[y:y + h, x:x + w])]. *)
Record Image : Type := mkImage {
  height : Z;
  width : Z;
  count_crop : Z -> Z -> Z -> Z -> Z
}.

(** A value of the [parking_data] dict: a space or a group.  A key the code
    reads with [.get(key, False)] or tests with [in] is a field that is
    [false] or [None] when the key is absent. *)
Record Slot : Type := mkSlot {
  position : Z * Z * Z * Z;
  occupied : bool;
  vehicle_id : option string;
  last_state_change : Q;
  distance_to_entrance : option Z;
  section : string;
  in_group : bool;
  group_id : option string;
  is_group : bool;
  member_spaces : option (list nat);
  manually_set : bool
}.

Definition set_occupied (b : bool) (d : Slot) : Slot :=
  mkSlot (position d) b (vehicle_id d) (last_state_change d)
         (distance_to_entrance d) (section d) (in_group d) (group_id d)
         (is_group d) (member_spaces d) (manually_set d).

Definition set_group (g : string) (d : Slot) : Slot :=
  mkSlot (position d) (occupied d) (vehicle_id d) (last_state_change d)
         (distance_to_entrance d) (section d) true (Some g)
         (is_group d) (member_spaces d) (manually_set d).

(** The attributes of the manager that the modelled methods use. *)
Record Manager : Type := mkManager {
  posList : list PosEntry;
  total_spaces : Z;
  free_spaces : Z;
  occupied_spaces : Z;
  vehicle_counter : Z;
  matches : list (Z * Z);
  parking_threshold : Z;
  line_height : Z;
  min_contour_width : Z;
  min_contour_height : Z;
  offset : Z;
  parking_data : gmap string Slot
}.


Definition set_free_occupied (f o : Z) (m : Manager) : Manager :=
  mkManager (posList m) (total_spaces m) f o
            (vehicle_counter m) (matches m) (parking_threshold m)
            (line_height m) (min_contour_width m) (min_contour_height m)
            (offset m) (parking_data m).

Definition set_counting (c : Z) (ms : list (Z * Z)) (m : Manager) : Manager :=
  mkManager (posList m) (total_spaces m) (free_spaces m) (occupied_spaces m)
            c ms (parking_threshold m)
            (line_height m) (min_contour_width m) (min_contour_height m)
            (offset m) (parking_data m).

Definition set_parking_data (pd : gmap string Slot) (m : Manager) : Manager :=
  mkManager (posList m) (total_spaces m) (free_spaces m) (occupied_spaces m)
            (vehicle_counter m) (matches m) (parking_threshold m)
            (line_height m) (min_contour_width m) (min_contour_height m)
            (offset m) pd.

(** [__init__] with the class defaults. *)
Definition init : Manager :=
  mkManager [] 0 0 0 0 [] 500 400 40 40 10 ∅.

(** The guard [y >= 0 and y + h < shape[0] and x >= 0 and x + w < shape[1]]. *)
Definition in_bounds (img : Image) (x y w h : Z) : bool :=
  (0 <=? y) && (y + h <? height img) && (0 <=? x) && (x + w <? width img).

(** What [check_parking_space] draws for one processed space: the rectangle,
    its colour (green for free, red for occupied) and the pixel count
    written into it. *)
Record Drawn : Type := mkDrawn {
  d_rect : Z * Z * Z * Z;
  d_free : bool;
  d_count : Z
}.

(** The loop of [check_parking_space]: the drawings, in order, and the final
    [space_counter]. *)
Fixpoint check_spaces (img_pro : Image) (threshold : Z) (l : list PosEntry)
  : list Drawn * Z :=
  match l with
  | [] => ([], 0)
  | pos :: rest =>
      let '(drawn, space_counter) := check_spaces img_pro threshold rest in
      match pos with
      | PosTuple [x; y; w; h] =>
          if in_bounds img_pro x y w h then
            let count := count_crop img_pro x y w h in
            if count <? threshold
            then (mkDrawn (x, y, w, h) true count :: drawn, space_counter + 1)
            else (mkDrawn (x, y, w, h) false count :: drawn, space_counter)
          else (drawn, space_counter)
      | _ => (drawn, space_counter)
      end
  end.

(** [check_parking_space(img_pro, img)]: what is drawn on [img], and the
    manager with its counters updated. *)
Definition check_parking_space (img_pro : Image) (m : Manager)
  : list Drawn * Manager :=
  let '(drawn, space_counter) :=
    check_spaces img_pro (parking_threshold m) (posList m) in
  (drawn, set_free_occupied space_counter (total_spaces m - space_counter) m).

(** The section label and the id of the space at index [i]. *)
Definition section_of (img_pro : Image) (x y : Z) : string :=
  ((if lt_half x (width img_pro) then "A" else "B") +:+
   (if lt_half y (height img_pro) then "1" else "2"))%string.

Definition space_id_of (i : nat) (section : string) : string :=
  ("S" +:+ str_of_nat (i + 1) +:+ "-" +:+ section)%string.

(** First pass of [update_individual_slots_in_groups]: the loop over
    [enumerate(self.posList)]; [i] is the index of the head of [l].  An entry
    is created with [last_state_change] set to the current time; an existing
    entry only has its [occupied] value overwritten, unless it is flagged
    [manually_set]. *)
Fixpoint update_slots (img_pro : Image) (threshold : Z) (now : Q) (i : nat)
  (l : list PosEntry) (pd : gmap string Slot) : gmap string Slot :=
  match l with
  | [] => pd
  | pos :: rest =>
      let pd' :=
        match pos with
        | PosTuple [x; y; w; h] =>
            let section := section_of img_pro x y in
            let space_id := space_id_of i section in
            if in_bounds img_pro x y w h then
              let count := count_crop img_pro x y w h in
              let is_occupied := threshold <=? count in
              match pd !! space_id with
              | None =>
                  <[space_id :=
                      mkSlot (x, y, w, h) is_occupied None now (Some (x + y))
                             section false None false None false]> pd
              | Some d =>
                  if manually_set d then pd
                  else <[space_id := set_occupied is_occupied d]> pd
              end
            else pd
        | _ => pd
        end in
      update_slots img_pro threshold now (S i) rest pd'
  end.

(** Second pass, inner loop: the members of one group are flagged. *)
Fixpoint mark_members (img_pro : Image) (positions : list PosEntry)
  (g : string) (members : list nat) (pd : gmap string Slot)
  : exn + gmap string Slot :=
  match members with
  | [] => inr pd
  | i :: rest =>
      match positions !! i with
      | None => mark_members img_pro positions g rest pd
      | Some pos =>
          ebind (unpack4 pos) (fun '(x, y, w, h) =>
            let space_id := space_id_of i (section_of img_pro x y) in
            let pd' :=
              match pd !! space_id with
              | Some d => <[space_id := set_group g d]> pd
              | None => pd
              end in
            mark_members img_pro positions g rest pd')
      end
  end.

(** Second pass, outer loop over the snapshot [list(self.parking_data.items())]. *)
Fixpoint mark_groups (img_pro : Image) (positions : list PosEntry)
  (items : list (string * Slot)) (pd : gmap string Slot)
  : exn + gmap string Slot :=
  match items with
  | [] => inr pd
  | (g, data) :: rest =>
      match is_group data, member_spaces data with
      | true, Some members =>
          ebind (mark_members img_pro positions g members pd)
                (mark_groups img_pro positions rest)
      | _, _ => mark_groups img_pro positions rest pd
      end
  end.

(** [update_individual_slots_in_groups(img_pro)], called at time [now]. *)
Definition update_individual_slots_in_groups (img_pro : Image) (now : Q)
  (m : Manager) : exn + Manager :=
  let pd1 :=
    update_slots img_pro (parking_threshold m) now 0 (posList m) (parking_data m) in
  ebind (mark_groups img_pro (posList m) (map_to_list pd1) pd1)
        (fun pd2 => inr (set_parking_data pd2 m)).

(** The inner loop of [process_group_status]: the number of members whose crop
    holds at least [threshold] non-zero pixels.  A member index past the end of
    [posList], or a member outside the frame, counts as not occupied. *)
Fixpoint count_occupied_members (img_pro : Image) (threshold : Z)
  (positions : list PosEntry) (members : list nat) : exn + Z :=
  match members with
  | [] => inr 0
  | i :: rest =>
      match positions !! i with
      | None => count_occupied_members img_pro threshold positions rest
      | Some pos =>
          ebind (unpack4 pos) (fun '(x, y, w, h) =>
            ebind (count_occupied_members img_pro threshold positions rest)
                  (fun k =>
                     inr (if in_bounds img_pro x y w h
                             && (threshold <=? count_crop img_pro x y w h)
                          then k + 1 else k)))
      end
  end.

(** [occupied_count > (total_members / 2)], with true division. *)
Definition majority (occupied_count : Z) (total_members : nat) : bool :=
  Qlt_bool (inject_Z (Z.of_nat total_members) / 2) (inject_Z occupied_count).

(** The body of the loop of [process_group_status] for one dict entry. *)
Definition group_status (img_pro : Image) (m : Manager) (data : Slot)
  : exn + Slot :=
  match is_group data, member_spaces data with
  | true, Some members =>
      let total_members := length members in
      if Nat.eqb total_members 0 then inr data
      else
        ebind (count_occupied_members img_pro (parking_threshold m)
                                      (posList m) members)
              (fun occupied_count =>
                 inr (set_occupied (majority occupied_count total_members) data))
  | _, _ => inr data
  end.

Definition first_error (results : gmap string (exn + Slot)) : option exn :=
  head (omap (fun kv : string * (exn + Slot) =>
                match kv.2 with inl e => Some e | inr _ => None end)
             (map_to_list results)).

(** [process_group_status(img_pro, img)]: every entry is updated on its own.
    When the body raises for some entry the call raises (the entries already
    updated by then are not tracked). *)
Definition process_group_status (img_pro : Image) (m : Manager) : exn + Manager :=
  let results := group_status img_pro m <$> parking_data m in
  match first_error results with
  | Some e => inl e
  | None =>
      inr (set_parking_data
             (omap (fun r : exn + Slot =>
                      match r with inr d => Some d | inl _ => None end) results)
             m)
  end.

(** [update_allocation_status(img_pro, img)]: one detection pass. *)
Definition update_allocation_status (img_pro : Image) (now : Q) (m : Manager)
  : exn + (list Drawn * Manager) :=
  let '(drawn, m1) := check_parking_space img_pro m in
  ebind (update_individual_slots_in_groups img_pro now m1) (fun m2 =>
  ebind (process_group_status img_pro m2) (fun m3 => inr (drawn, m3))).

(** [get_centroid]. *)
Definition get_centroid (x y w h : Z) : Z * Z := (x + w / 2, y + h / 2).

(** The centroids [detect_vehicles] appends to [self.matches]: those of the
    contours whose bounding rectangle is large enough. *)
Fixpoint contour_centroids (min_w min_h : Z) (rects : list (Z * Z * Z * Z))
  : list (Z * Z) :=
  match rects with
  | [] => []
  | (x, y, w, h) :: rest =>
      if (min_w <=? w) && (min_h <=? h)
      then get_centroid x y w h :: contour_centroids min_w min_h rest
      else contour_centroids min_w min_h rest
  end.

(** [(line_y - self.offset) < y < (line_y + self.offset)]. *)
Definition crosses (line_y off y : Z) : bool :=
  (line_y - off <? y) && (y <? line_y + off).

(** The loop over [self.matches]: the number of increments of the counter and
    [new_matches]. *)
Fixpoint count_crossings (line_y off : Z) (ms : list (Z * Z)) : Z * list (Z * Z) :=
  match ms with
  | [] => (0, [])
  | (x, y) :: rest =>
      let '(n, new_matches) := count_crossings line_y off rest in
      if crosses line_y off y then (n + 1, new_matches)
      else (n, (x, y) :: new_matches)
  end.

(** The height at which the line is drawn and tested. *)
Definition effective_line (m : Manager) (frame_height : Z) : Z :=
  if line_height m >=? frame_height then frame_height - 50 else line_height m.

(** [detect_vehicles(frame1, frame2)]: [frame_height] is [frame1.shape[0]] and
    [rects] the bounding rectangles of the contours of the frame difference. *)
Definition detect_vehicles (frame_height : Z) (rects : list (Z * Z * Z * Z))
  (m : Manager) : Manager :=
  let line_y := effective_line m frame_height in
  let all_matches :=
    matches m ++ contour_centroids (min_contour_width m) (min_contour_height m) rects in
  let '(n, new_matches) := count_crossings line_y (offset m) all_matches in
  set_counting (vehicle_counter m + n) new_matches m.

(** [int(c * scale)] for an integer coordinate and a float factor. *)
Definition scale_coord (c : Z) (scale : Q) : Z := py_int (inject_Z c * scale).






(** The rectangles [_process_vehicle_detection] keeps for drawing. *)
Fixpoint valid_contours (min_w min_h : Z) (rects : list (Z * Z * Z * Z))
  : list (Z * Z * Z * Z) :=
  match rects with
  | [] => []
  | (x, y, w, h) :: rest =>
      if (min_w <=? w) && (min_h <=? h)
      then (x, y, w, h) :: valid_contours min_w min_h rest
      else valid_contours min_w min_h rest
  end.

(** [_process_vehicle_detection(current_frame, prev_frame)], the vehicle
    worker of the simultaneous mode; [rects] are the bounding rectangles of the
    contours of the frame difference.  The line is tested at [line_height]
    itself.  The result is [self.vehicle_detection_result] and the manager. *)
Definition _process_vehicle_detection (rects : list (Z * Z * Z * Z)) (m : Manager)
  : list (Z * Z * Z * Z) * Manager :=
  let line_y := line_height m in
  let matches_copy :=
    matches m ++ contour_centroids (min_contour_width m) (min_contour_height m) rects in
  let '(n, new_matches) := count_crossings line_y (offset m) matches_copy in
  (valid_contours (min_contour_width m) (min_contour_height m) rects,
   set_counting (vehicle_counter m + n) new_matches m).

(** [pos[k]] for an element of [posList]. *)
Definition coord (pos : PosEntry) (k : nat) : exn + Z :=
  match pos with
  | PosTuple cs =>
      match cs !! k with
      | Some c => inr c
      | None => inl IndexError
      end
  | PosOther => inl (TypeError "subscript")
  end.

(** [[f(self.posList[i]) for i in valid_indices]], evaluated left to right. *)
Fixpoint map_valid (positions : list PosEntry) (f : PosEntry -> exn + Z)
  (valid_indices : list nat) : exn + list Z :=
  match valid_indices with
  | [] => inr []
  | i :: rest =>
      match positions !! i with
      | None => inl IndexError
      | Some pos =>
          ebind (f pos) (fun v =>
            ebind (map_valid positions f rest) (fun vs => inr (v :: vs)))
      end
  end.

(** [min] and [max] of a non-empty sequence. *)
Definition list_min (v : Z) (vs : list Z) : Z := foldl Z.min v vs.
Definition list_max (v : Z) (vs : list Z) : Z := foldl Z.max v vs.

(** The bounding rectangle [sync_group_data] computes for the valid members
    of a group: [(min_x, min_y, max_x - min_x, max_y - min_y)]; [None] when
    there is no valid member. *)
Definition group_bounds (positions : list PosEntry) (valid_indices : list nat)
  : exn + option (Z * Z * Z * Z) :=
  ebind (map_valid positions (fun pos => coord pos 0) valid_indices) (fun xs =>
  ebind (map_valid positions (fun pos => coord pos 1) valid_indices) (fun ys =>
  ebind (map_valid positions
           (fun pos => ebind (coord pos 0) (fun x =>
                       ebind (coord pos 2) (fun w => inr (x + w))))
           valid_indices) (fun rights =>
  ebind (map_valid positions
           (fun pos => ebind (coord pos 1) (fun y =>
                       ebind (coord pos 3) (fun h => inr (y + h))))
           valid_indices) (fun bottoms =>
  match xs, ys, rights, bottoms with
  | x :: xs', y :: ys', r :: rs', b :: bs' =>
      let min_x := list_min x xs' in
      let min_y := list_min y ys' in
      let max_x := list_max r rs' in
      let max_y := list_max b bs' in
      inr (Some (min_x, min_y, max_x - min_x, max_y - min_y))
  | _, _, _, _ => inr None
  end)))).

(** The section label [sync_group_data] gives a member: the thresholds are
    taken from the first element of [posList] and the length of the list. *)
Definition sync_section (positions : list PosEntry) (x y : Z) : exn + string :=
  match positions with
  | [] => inl IndexError
  | first :: _ =>
      let n := inject_Z (Z.of_nat (length positions)) in
      ebind (coord first 0) (fun x0 =>
      ebind (coord first 2) (fun w0 =>
      ebind (coord first 1) (fun y0 =>
      ebind (coord first 3) (fun h0 =>
        inr ((if Qlt_bool (inject_Z x) (inject_Z x0 + inject_Z w0 * n / 2)
              then "A" else "B") +:+
             (if Qlt_bool (inject_Z y) (inject_Z y0 + inject_Z h0 * n / 2)
              then "1" else "2"))%string))))
  end.

(** The last loop of [sync_group_data] for one group: its members are
    flagged. *)
Fixpoint sync_members (positions : list PosEntry) (g : string)
  (space_indices : list nat) (pd : gmap string Slot) : exn + gmap string Slot :=
  match space_indices with
  | [] => inr pd
  | i :: rest =>
      match positions !! i with
      | None => sync_members positions g rest pd
      | Some pos =>
          ebind (unpack4 pos) (fun '(x, y, w, h) =>
          ebind (sync_section positions x y) (fun section =>
            let space_id := space_id_of i section in
            let pd' :=
              match pd !! space_id with
              | Some d => <[space_id := set_group g d]> pd
              | None => pd
              end in
            sync_members positions g rest pd'))
      end
  end.

Definition clear_group (d : Slot) : Slot :=
  if is_group d then d
  else mkSlot (position d) (occupied d) (vehicle_id d) (last_state_change d)
              (distance_to_entrance d) (section d) false None
              (is_group d) (member_spaces d) (manually_set d).

(** The loop of [sync_group_data] over [space_groups.items()]. *)
Fixpoint sync_groups (positions : list PosEntry) (now : Q)
  (space_groups : list (string * list nat)) (pd : gmap string Slot)
  : exn + gmap string Slot :=
  match space_groups with
  | [] => inr pd
  | (g, space_indices) :: rest =>
      let valid_indices :=
        List.filter (fun i => (i <? length positions)%nat) space_indices in
      match valid_indices with
      | [] => sync_groups positions now rest pd
      | _ =>
          ebind (group_bounds positions valid_indices) (fun bounds =>
            match bounds with
            | None => sync_groups positions now rest pd
            | Some box =>
                let entry :=
                  mkSlot box false None now None "G" false None true
                         (Some space_indices) false in
                ebind (sync_members positions g space_indices (<[g := entry]> pd))
                      (sync_groups positions now rest)
            end)
      end
  end.

(** [sync_group_data(space_groups)], called at time [now]: the group flags of
    the spaces are cleared, the group entries are removed, and the groups of
    [space_groups] (a dict, in its order) are entered.  When the body raises
    the call raises (the entries already written by then are not tracked). *)
Definition sync_group_data (space_groups : list (string * list nat)) (now : Q)
  (m : Manager) : exn + Manager :=
  let cleared := clear_group <$> parking_data m in
  let spaces := filter (fun kv : string * Slot => is_group kv.2 = false) cleared in
  ebind (sync_groups (posList m) now space_groups spaces)
        (fun pd => inr (set_parking_data pd m)).

End ParkingManager.

(** ** models/parking_manager.py: [ParkingManager.load_parking_positions] *)

Module PositionsFile.
Import Py.

(** The values that [pickle.load] can hand to the loader.  A number is an
    [int] (a [bool] behaves as the int 0 or 1) or a finite [float]. *)
Inductive num : Type :=
| NInt (z : Z)
| NFloat (q : Q).

#[local] Set Warnings "-register-all".
Inductive pyval : Type :=
| VNum (n : num)
| VTuple (items : list pyval)
| VList (items : list pyval)
| VOther.

Definition num_value (n : num) : Q :=
  match n with
  | NInt z => inject_Z z
  | NFloat q => q
  end.

(** [int(coord)]. *)
Definition num_int (n : num) : Z :=
  match n with
  | NInt z => z
  | NFloat q => py_int q
  end.

(** The numbers of a tuple of four numbers:
    [isinstance(pos, tuple) and len(pos) == 4 and
     all(isinstance(coord, (int, float)) for coord in pos)]. *)
Definition four_numbers (pos : pyval) : option (num * num * num * num) :=
  match pos with
  | VTuple [VNum x; VNum y; VNum w; VNum h] => Some (x, y, w, h)
  | _ => None
  end.

(** The test of the validation loop: [x >= 0 and y >= 0 and w > 0 and h > 0]
    on a tuple of four numbers. *)
Definition valid_position (pos : pyval) : bool :=
  match four_numbers pos with
  | Some (x, y, w, h) =>
      Qle_bool 0 (num_value x) && Qle_bool 0 (num_value y)
      && Qlt_bool 0 (num_value w) && Qlt_bool 0 (num_value h)
  | None => false
  end.

(** [tuple(map(int, pos))] for a position that passed validation. *)
Definition int_key (pos : pyval) : list Z :=
  match four_numbers pos with
  | Some (x, y, w, h) => [num_int x; num_int y; num_int w; num_int h]
  | None => []
  end.

Definition key_seen (seen : list (list Z)) (k : list Z) : bool :=
  existsb (fun k' => bool_decide (k' = k)) seen.

(** The duplicate-removal loop: [seen] is the set of integer keys met so far. *)
Fixpoint unique_from (seen : list (list Z)) (l : list pyval) : list pyval :=
  match l with
  | [] => []
  | pos :: rest =>
      let pos_tuple := int_key pos in
      if key_seen seen pos_tuple then unique_from seen rest
      else pos :: unique_from (pos_tuple :: seen) rest
  end.

(** The attributes the loader writes. *)
Record Store : Type := mkStore {
  posList : list pyval;
  total_spaces : Z;
  free_spaces : Z;
  occupied_spaces : Z
}.

(** [load_parking_positions(reference_image)].  [file] is the positions file
    of the reference image: absent, unreadable (opening or unpickling
    raises), or holding a value. *)
Definition load_parking_positions (file : option (exn + pyval)) (s : Store)
  : bool * Store :=
  match file with
  | None => (false, mkStore [] 0 0 0)
  | Some (inl _) => (false, mkStore [] 0 0 0)
  | Some (inr loaded_data) =>
      match loaded_data with
      | VList items =>
          let valid := List.filter valid_position items in
          let unique_positions := unique_from [] valid in
          let n := Z.of_nat (length unique_positions) in
          (true, mkStore unique_positions n 0 n)
      | _ => (false, mkStore [] 0 0 0)
      end
  end.


(** How writing the positions file ends: the pickle is written; or [open]
    raises and no file is left; or [pickle.dump] raises and leaves a
    truncated file, whose unpickling raises [e]. *)
Inductive Write : Type :=
| Written
| OpenFails
| DumpFails (e : exn).

(** [save_parking_positions(reference_image)].  [file] is the positions file
    before the call; [remove_ok] tells whether removing an existing file
    succeeds and [write] how writing the new one ends.  The result is the
    returned flag and the file afterwards: [pickle.load] gives back the value
    that [pickle.dump] wrote. *)
Definition save_parking_positions (remove_ok : bool) (write : Write)
  (file : option (exn + pyval)) (s : Store) : bool * option (exn + pyval) :=
  match file, remove_ok with
  | Some _, false => (false, file)
  | _, _ =>
      match write with
      | Written => (true, Some (inr (VList (posList s))))
      | OpenFails => (false, None)
      | DumpFails e => (false, Some (inl e))
      end
  end.

End PositionsFile.

(** ** models/parking_visualizer.py: [ParkingVisualizer.update_parking_status] *)

Module ParkingVisualizer.

Record HistoryEntry : Type := mkHistoryEntry {
  h_timestamp : Q;
  h_occupied : bool;
  h_duration : Q
}.

Record Slot : Type := mkSlot {
  occupied : bool;
  vehicle_id : option string;
  last_state_change : Q;
  occupation_history : list HistoryEntry
}.

(** The body of the loop for one pair of [zip(space_ids, statuses)]. *)
Definition update_one (current_time : Q) (pd : gmap string Slot)
  (entry : string * bool) : gmap string Slot :=
  let '(space_id, is_occupied) := entry in
  match pd !! space_id with
  | None => pd
  | Some d =>
      let d1 :=
        if negb (Bool.eqb (occupied d) is_occupied) then
          mkSlot (occupied d) (vehicle_id d) current_time
                 (occupation_history d ++
                    [mkHistoryEntry current_time is_occupied
                                    (current_time - current_time)%Q])
        else d in
      let d2 :=
        mkSlot is_occupied (vehicle_id d1) (last_state_change d1)
               (occupation_history d1) in
      let d3 :=
        if negb is_occupied then
          mkSlot (occupied d2) None (last_state_change d2) (occupation_history d2)
        else d2 in
      <[space_id := d3]> pd
  end.

(** [update_parking_status(space_ids, statuses)], called at time [now]. *)
Definition update_parking_status (space_ids : list string) (statuses : list bool)
  (now : Q) (pd : gmap string Slot) : gmap string Slot :=
  foldl (update_one now) pd (zip space_ids statuses).

End ParkingVisualizer.

(** ** models/parking_visualizer.py: [initialize_parking_spaces] and
    [allocate_parking] *)

Module VisualizerLot.
Import Py.

(** A value of [parking_data] with all the keys [initialize_parking_spaces]
    creates. *)
Record Space : Type := mkSpace {
  position : Z * Z * Z * Z;
  occupied : bool;
  vehicle_id : option string;
  last_state_change : Q;
  distance_to_entrance : Z;
  allocation_score : Q
}.

(** An entry of the visualizer's [allocation_history]. *)
Record Allocated : Type := mkAllocated {
  al_timestamp : Q;
  al_vehicle_id : string;
  al_space_id : string;
  al_score : Q;
  al_vehicle_size : Z
}.

(** The attributes used: [parking_data] is a dict in insertion order (the
    order decides ties of [np.argmax]). *)
Record Lot (M : Type) : Type := mkLot {
  model : M;
  parking_data : list (string * Space);
  allocation_history : list Allocated
}.
Arguments mkLot {M}.
Arguments model {M}.
Arguments parking_data {M}.
Arguments allocation_history {M}.

(** [d[key]]. *)
Fixpoint dict_get (key : string) (d : list (string * Space)) : option Space :=
  match d with
  | [] => None
  | (k, v) :: rest => if String.eqb k key then Some v else dict_get key rest
  end.

(** [d[key] = f(d[key])] for a key of the dict: the entry keeps its place. *)
Fixpoint dict_update (key : string) (f : Space -> Space)
  (d : list (string * Space)) : list (string * Space) :=
  match d with
  | [] => []
  | (k, v) :: rest =>
      if String.eqb k key then (k, f v) :: rest
      else (k, v) :: dict_update key f rest
  end.

(** [d[key] = v]: an existing key keeps its place, a new key goes last. *)
Fixpoint dict_set (key : string) (v : Space) (d : list (string * Space))
  : list (string * Space) :=
  match d with
  | [] => [(key, v)]
  | (k, v0) :: rest =>
      if String.eqb k key then (k, v) :: rest
      else (k, v0) :: dict_set key v rest
  end.

(** The loop of [initialize_parking_spaces]; [i] is the index of the head of
    [positions].  The [for] statement unpacks each position. *)
Fixpoint initialize_from (now : Q) (i : nat)
  (positions : list ParkingManager.PosEntry) (d : list (string * Space))
  : exn + list (string * Space) :=
  match positions with
  | [] => inr d
  | pos :: rest =>
      ebind (ParkingManager.unpack4 pos) (fun '(x, y, w, h) =>
        let space_id := ("S" +:+ str_of_nat (i + 1))%string in
        let distance := x + y in
        initialize_from now (S i) rest
          (dict_set space_id (mkSpace (x, y, w, h) true None now distance 0%Q) d))
  end.

(** [initialize_parking_spaces(positions)], called at time [now]: the dict is
    emptied first.  When unpacking a position raises the call raises (the
    entries written by then are not tracked). *)
Definition initialize_parking_spaces {M} (positions : list ParkingManager.PosEntry)
  (now : Q) (lot : Lot M) : exn + Lot M :=
  ebind (initialize_from now 0 positions [])
        (fun d => inr (mkLot (model lot) d (allocation_history lot))).

(** The feature rows of the free spaces, in the order of the dict. *)
Definition features_of (current_time : Q) (vehicle_size : Z)
  (free : list (string * Space)) : list (list Q) :=
  map (fun e : string * Space =>
         [inject_Z (distance_to_entrance e.2);
          ((current_time - last_state_change e.2) / 60)%Q;
          inject_Z vehicle_size]) free.

(** [allocate_parking(vehicle_id, vehicle_size)], called at time [now]: the
    returned space id, if any, and the visualizer afterwards.  An exception of
    the model is not caught; [np.argmax] of no score raises. *)
Definition allocate_parking {M} `{AllocationEngine.Classifier M}
  (vehicle : string) (vehicle_size : Z) (now : Q) (lot : Lot M)
  : exn + (option string * Lot M) :=
  let free :=
    List.filter (fun e : string * Space => negb (occupied e.2)) (parking_data lot) in
  match free with
  | [] => inr (None, lot)
  | _ =>
      let current_time := now in
      let space_ids := map fst free in
      ebind (AllocationEngine.predict_proba (model lot)
               (features_of current_time vehicle_size free)) (fun scores =>
        match scores with
        | [] => inl (ValueError "argmax of an empty sequence")
        | _ =>
            let best_idx := argmax scores in
            match space_ids !! best_idx, scores !! best_idx with
            | Some best_space_id, Some best_score =>
                let mark (d : Space) :=
                  mkSpace (position d) true (Some vehicle) current_time
                          (distance_to_entrance d) best_score in
                inr (Some best_space_id,
                     mkLot (model lot)
                           (dict_update best_space_id mark (parking_data lot))
                           (allocation_history lot ++
                              [mkAllocated current_time vehicle best_space_id
                                           best_score vehicle_size]))
            | _, _ => inl IndexError
            end
        end)
  end.

(** A session of allocation requests [(vehicle_id, vehicle_size, time)] served
    one after the other: the answers, in order, and the visualizer
    afterwards. *)
Fixpoint allocate_all {M} `{AllocationEngine.Classifier M}
  (requests : list (string * Z * Q)) (lot : Lot M)
  : exn + (list (option string) * Lot M) :=
  match requests with
  | [] => inr ([], lot)
  | (vehicle, vehicle_size, now) :: rest =>
      ebind (allocate_parking vehicle vehicle_size now lot) (fun '(answer, lot1) =>
        ebind (allocate_all rest lot1) (fun '(answers, lot2) =>
          inr (answer :: answers, lot2)))
  end.

(** The id [initialize_parking_spaces] gives the position at index [i]. *)
Definition slot_id (i : nat) : string := ("S" +:+ str_of_nat (i + 1))%string.

End VisualizerLot.

(** ** ui/app.py: [scale_positions_to_current_dimensions] *)

Module App.
Import Py.

(** An element of the position lists: a tuple, a dict (the value, if any,
    under each of the keys x, y, w, h), or anything else. *)
Inductive Pos : Type :=
| PosTuple (coords : list Z)
| PosDict (x y w h : option Z)
| PosOther.

(** The attributes the routine uses.  [image_size] is absent when the
    attributes [image_width] and [image_height] are not set, and
    [original_posList] when that attribute is not set. *)
Record State : Type := mkState {
  image_size : option (Z * Z);
  current_reference_image : string;
  reference_dimensions : gmap string (Z * Z);
  original_posList : option (list Pos);
  posList : list Pos;
  log : list string
}.

Definition scale_coord (c : Z) (scale : Q) : Z := py_int (inject_Z c * scale).

(** The loop over [self.original_posList]: the scaled tuples, and the number
    of elements skipped with a warning. *)
Fixpoint scale_from (width_scale height_scale : Q) (l : list Pos)
  : list Pos * nat :=
  match l with
  | [] => ([], 0%nat)
  | pos :: rest =>
      let '(scaled, skipped) := scale_from width_scale height_scale rest in
      match pos with
      | PosTuple [x; y; w; h]
      | PosDict (Some x) (Some y) (Some w) (Some h) =>
          (PosTuple [scale_coord x width_scale; scale_coord y height_scale;
                     scale_coord w width_scale; scale_coord h height_scale]
             :: scaled, skipped)
      | _ => (scaled, S skipped)
      end
  end.

Definition add_log (msg : string) (s : State) : State :=
  mkState (image_size s) (current_reference_image s) (reference_dimensions s)
          (original_posList s) (posList s) (log s ++ [msg]).

(** [scale_positions_to_current_dimensions()].  The division by a zero
    reference dimension raises inside the [try] block, after
    [original_posList] has been created: the handler logs the error. *)
Definition scale_positions_to_current_dimensions (s : State) : State :=
  match image_size s with
  | None => add_log "Cannot scale positions: image dimensions not set" s
  | Some (image_width, image_height) =>
      match reference_dimensions s !! current_reference_image s with
      | None => add_log "No reference dimensions" s
      | Some (ref_width, ref_height) =>
          let original :=
            match original_posList s with
            | None | Some [] => posList s
            | Some l => l
            end in
          if (ref_width =? 0) || (ref_height =? 0) then
            add_log "Error scaling positions"
              (mkState (image_size s) (current_reference_image s)
                       (reference_dimensions s) (Some original) (posList s)
                       (log s))
          else
            let width_scale := (inject_Z image_width / inject_Z ref_width)%Q in
            let height_scale := (inject_Z image_height / inject_Z ref_height)%Q in
            let scaled_positions := (scale_from width_scale height_scale original).1 in
            add_log "Scaled positions"
              (mkState (image_size s) (current_reference_image s)
                       (reference_dimensions s) (Some original) scaled_positions
                       (log s))
      end
  end.

(** The live video takes the resolution [w] x [h] and the positions are
    brought to it: the specification's [rescale(w, h)]. *)
Definition rescale (w h : Z) (s : State) : State :=
  scale_positions_to_current_dimensions
    (mkState (Some (w, h)) (current_reference_image s) (reference_dimensions s)
             (original_posList s) (posList s) (log s)).


End App.

(** ** models/vehicle_tracker.py: [VehicleTracker] *)

Module VehicleTracker.
Import Py.

(** A value of the [tracked_vehicles] dict. *)
Record Vehicle : Type := mkVehicle {
  positions : list (Z * Z);
  counted : bool;
  class_id : Z
}.

(** A track handed over by the associator: [(track_id, bbox, class_id)] with
    [bbox = (x1, y1, x2, y2)]. *)
Definition Track : Type := Z * (Z * Z * Z * Z) * Z.

Record Tracker : Type := mkTracker {
  tracked_vehicles : gmap Z Vehicle;
  vehicle_count : Z
}.

(** [positions[-n:]]. *)
Definition last_n {A} (n : nat) (l : list A) : list A :=
  drop (length l - n) l.

(** [positions[-2][1]] and [positions[-1][1]] when [len(positions) >= 2]. *)
Definition last_two_y (ps : list (Z * Z)) : option (Z * Z) :=
  match rev ps with
  | (_, curr_y) :: (_, prev_y) :: _ => Some (prev_y, curr_y)
  | _ => None
  end.

(** The running state of the loop of [_process_tracks]: the dict, the local
    [vehicle_count], and the ids highlighted as COUNTED on the frame, oldest
    first. *)
Definition Loop : Type := gmap Z Vehicle * Z * list Z.

(** The body of the loop for one track. *)
Definition process_track (line_height off : Z) (st : Loop) (tr : Track) : Loop :=
  let '(tv, vehicle_count, highlighted) := st in
  let '(track_id, (x1, y1, x2, y2), cls) := tr in
  let centroid_x := (x1 + x2) / 2 in
  let centroid_y := (y1 + y2) / 2 in
  let v :=
    match tv !! track_id with
    | None => mkVehicle [(centroid_x, centroid_y)] false cls
    | Some v0 =>
        let ps := positions v0 ++ [(centroid_x, centroid_y)] in
        mkVehicle (if (30 <? length ps)%nat then last_n 30 ps else ps)
                  (counted v0) (class_id v0)
    end in
  if counted v then (<[track_id := v]> tv, vehicle_count, highlighted)
  else
    match last_two_y (positions v) with
    | Some (prev_y, curr_y) =>
        if (prev_y <? line_height - off) && (line_height + off <? curr_y)
        then (<[track_id := mkVehicle (positions v) true (class_id v)]> tv,
              vehicle_count + 1, highlighted ++ [track_id])
        else (<[track_id := v]> tv, vehicle_count, highlighted)
    | None => (<[track_id := v]> tv, vehicle_count, highlighted)
    end.

(** [_process_tracks(frame, tracks, line_height, offset)]: the ids highlighted
    on the frame and the returned count; the dict is updated in place. *)
Definition _process_tracks (tracks : list Track) (line_height off : Z)
  (t : Tracker) : Loop :=
  foldl (process_track line_height off)
        (tracked_vehicles t, vehicle_count t, []) tracks.

(** [process_frame(frame, line_height, offset)].  [tracks] is what the
    detector and the associator produce for the frame, or the exception one of
    them raises, in which case the handler returns the count unchanged (as
    does the early return on an empty frame).  Without a line height the
    tracks are only drawn. *)
Definition process_frame (tracks : exn + list Track) (line_height : option Z)
  (off : Z) (t : Tracker) : list Z * Tracker :=
  match tracks, line_height with
  | inr trs, Some lh =>
      let '(tv, n, highlighted) := _process_tracks trs lh off t in
      (highlighted, mkTracker tv n)
  | _, _ => ([], t)
  end.

(** [reset_count()]. *)
Definition reset_count (t : Tracker) : Tracker := mkTracker ∅ 0.

(** [__init__]. *)
Definition init : Tracker := mkTracker ∅ 0.

(** A session: frames processed one after the other; the ids highlighted as
    COUNTED over the whole session, oldest first. *)
Fixpoint run (frames : list ((exn + list Track) * option Z * Z)) (t : Tracker)
  : list Z * Tracker :=
  match frames with
  | [] => ([], t)
  | (tracks, line_height, off) :: rest =>
      let '(h1, t1) := process_frame tracks line_height off t in
      let '(h2, t2) := run rest t1 in
      (h1 ++ h2, t2)
  end.

End VehicleTracker.

(** ** models/deep_sort_tracker.py: [DeepSORTTracker] *)

Module DeepSORTTracker.
Import Py.

(** A bounding box [(x1, y1, x2, y2)]; the coordinates are numbers. *)
Definition Box : Type := (Q * Q * Q * Q)%type.

Definition Qmax (a b : Q) : Q := if Qlt_bool a b then b else a.
Definition Qmin (a b : Q) : Q := if Qlt_bool b a then b else a.

(** [_calculate_iou(box1, box2)]. *)
Definition _calculate_iou (box1 box2 : Box) : Q :=
  let '(x1_1, y1_1, x2_1, y2_1) := box1 in
  let '(x1_2, y1_2, x2_2, y2_2) := box2 in
  let area1 := ((x2_1 - x1_1) * (y2_1 - y1_1))%Q in
  let area2 := ((x2_2 - x1_2) * (y2_2 - y1_2))%Q in
  let x1_i := Qmax x1_1 x1_2 in
  let y1_i := Qmax y1_1 y1_2 in
  let x2_i := Qmin x2_1 x2_2 in
  let y2_i := Qmin y2_1 y2_2 in
  if Qle_bool x2_i x1_i || Qle_bool y2_i y1_i then 0%Q
  else
    let intersection_area := ((x2_i - x1_i) * (y2_i - y1_i))%Q in
    let union_area := (area1 + area2 - intersection_area)%Q in
    if Qlt_bool 0 union_area then (intersection_area / union_area)%Q else 0%Q.

(** The loop of [_get_best_class_id]: [i] is the index of the head of
    [boxes], and [(best_iou, best_idx)] the best found so far. *)
Fixpoint best_match (bbox : Box) (best_iou : Q) (best_idx : nat) (i : nat)
  (boxes : list Box) : Q * nat :=
  match boxes with
  | [] => (best_iou, best_idx)
  | det_bbox :: rest =>
      let iou := _calculate_iou bbox det_bbox in
      if Qlt_bool best_iou iou then best_match bbox iou i (S i) rest
      else best_match bbox best_iou best_idx (S i) rest
  end.

(** [_get_best_class_id(bbox, all_bboxes, all_class_ids)]. *)
Definition _get_best_class_id (bbox : Box) (all_bboxes : list Box)
  (all_class_ids : list Z) : Z :=
  match all_bboxes with
  | [] => 0
  | _ =>
      let '(best_iou, best_idx) := best_match bbox 0%Q 0%nat 0%nat all_bboxes in
      if Qlt_bool (1 # 2) best_iou then
        match all_class_ids !! best_idx with
        | Some c => c
        | None => 0
        end
      else 0
  end.

End DeepSORTTracker.

(** ** The scoring rule of the specification (section 4.4, steps 4 and 5) *)

Module AllocationSpec.
Import Py.

(** The section of a space, read off its id. *)
Definition section_of_id : string -> string :=
  AllocationEngine.get_section_from_space_id.

(** The number of entries of the occupancy map lying in [section] that
    satisfy [p]. *)
Definition section_count (p : AllocationEngine.SpaceData -> bool)
  (spaces_data : list (string * AllocationEngine.SpaceData)) (section : string) : Z :=
  Z.of_nat
    (length (List.filter
               (fun e : string * AllocationEngine.SpaceData =>
                  String.eqb (section_of_id e.1) section && p e.2)
               spaces_data)).

(** Section occupancy rate: occupied spaces of the section over all of its
    spaces, recomputed from the full occupancy map. *)
Definition section_occupancy_rate
  (spaces_data : list (string * AllocationEngine.SpaceData)) (section : string) : Q :=
  (inject_Z (section_count AllocationEngine.occupied spaces_data section)
   / inject_Z (section_count (fun _ => true) spaces_data section))%Q.

(** 1.2 if a preferred section is supplied and matches, else 1.0.  An
    argument is supplied when it is true in Python's sense: neither [None]
    nor the empty string. *)
Definition section_preference_multiplier (preferred_section : option string)
  (section : string) : Q :=
  match preferred_section with
  | Some p =>
      if negb (String.eqb p "") && String.eqb section p then (12 # 10)%Q else 1%Q
  | None => 1%Q
  end.

(** finalScore = ((1 - w) * modelScore + w * loadBalanceScore) * multiplier,
    with loadBalanceScore = 1 - sectionOccupancyRate. *)
Definition final_score (w model_score rate multiplier : Q) : Q :=
  (((1 - w) * model_score + w * (1 - rate)) * multiplier)%Q.

(** The final score of the candidate [space_id] whose model score is
    [model_score]. *)
Definition candidate_score
  (spaces_data : list (string * AllocationEngine.SpaceData)) (w : Q)
  (preferred_section : option string) (space_id : string) (model_score : Q) : Q :=
  final_score w model_score
    (section_occupancy_rate spaces_data (section_of_id space_id))
    (section_preference_multiplier preferred_section (section_of_id space_id)).

(** The candidates of an allocation: the free spaces, in the order of the map. *)
Definition candidates (spaces_data : list (string * AllocationEngine.SpaceData))
  : list (string * AllocationEngine.SpaceData) :=
  List.filter (fun e : string * AllocationEngine.SpaceData =>
                 negb (AllocationEngine.occupied e.2)) spaces_data.

End AllocationSpec.

(** ** The occupancy rules of the specification (sections 3 and 4.2) *)

Module OccupancySpec.
Import Py.


(** What the classifier reports for one element of the position list: nothing
    for an element that is not a 4-tuple or fails the bounds guard, else the
    rectangle with [free] iff its pixel count is below the threshold. *)
Definition classify (img : ParkingManager.Image) (threshold : Z)
  (pos : ParkingManager.PosEntry) : option ParkingManager.Drawn :=
  match pos with
  | ParkingManager.PosTuple [x; y; w; h] =>
      if ParkingManager.in_bounds img x y w h then
        Some (ParkingManager.mkDrawn (x, y, w, h)
                (ParkingManager.count_crop img x y w h <? threshold)
                (ParkingManager.count_crop img x y w h))
      else None
  | _ => None
  end.

(** A group member is classified occupied: it is an existing space inside the
    bounds guard whose crop holds at least [threshold] non-zero pixels. *)
Definition member_occupied (img : ParkingManager.Image) (threshold : Z)
  (positions : list ParkingManager.PosEntry) (i : nat) : bool :=
  match positions !! i with
  | Some (ParkingManager.PosTuple [x; y; w; h]) =>
      ParkingManager.in_bounds img x y w h
      && (threshold <=? ParkingManager.count_crop img x y w h)
  | _ => false
  end.

(** The number [k] of members classified occupied. *)
Definition occupied_member_count (img : ParkingManager.Image) (threshold : Z)
  (positions : list ParkingManager.PosEntry) (members : list nat) : Z :=
  Z.of_nat (length (List.filter (member_occupied img threshold positions) members)).

(** Every element of the position list is a 4-tuple. *)
Definition well_formed (positions : list ParkingManager.PosEntry) : Prop :=
  Forall (fun pos => exists x y w h, pos = ParkingManager.PosTuple [x; y; w; h])
         positions.

(** Every record of [pd] is still in [pd'] with the [last_state_change] it
    had. *)
Definition keeps_timestamps (pd pd' : gmap string ParkingManager.Slot) : Prop :=
  forall id d, pd !! id = Some d ->
    exists d', pd' !! id = Some d' /\
               ParkingManager.last_state_change d' = ParkingManager.last_state_change d.

(** [d'] is [d] up to the group flags [in_group] and [group_id]. *)
Definition same_space (d d' : ParkingManager.Slot) : Prop :=
  ParkingManager.set_group "" d' = ParkingManager.set_group "" d.

(** [pd'] has the keys of [pd], and its records are those of [pd] up to
    their group flags. *)
Definition same_spaces (pd pd' : gmap string ParkingManager.Slot) : Prop :=
  forall id,
    match pd !! id with
    | Some d => exists d', pd' !! id = Some d' /\ same_space d d'
    | None => pd' !! id = None
    end.

End OccupancySpec.

(** ** The counting rule of the specification (section 3, TrackedObject) *)

Module TrackerSpec.

(** The track [id] is known and its [counted] flag is set. *)
Definition counted_in (tv : gmap Z VehicleTracker.Vehicle) (id : Z) : Prop :=
  exists v, tv !! id = Some v /\ VehicleTracker.counted v = true.

End TrackerSpec.

(** ** Concrete data used by the examples *)

Module Examples.
Import Py.

(** A stand-in for the classifier: the model is the number of times it was
    fitted, and it gives every row the score 1/2. *)
#[global] Instance toy_classifier : AllocationEngine.Classifier nat := {|
  AllocationEngine.predict_proba := fun _ X => inr (map (fun _ => (1 # 2)%Q) X);
  AllocationEngine.fit := fun m _ _ => inr (S m)
|}.

(** A classifier whose inference always raises. *)
Inductive Broken : Type := broken.

#[global] Instance broken_classifier : AllocationEngine.Classifier Broken := {|
  AllocationEngine.predict_proba := fun _ _ => inl (ModelError "predict_proba");
  AllocationEngine.fit := fun _ _ _ => inl (ModelError "fit")
|}.

Definition space (occ : bool) : AllocationEngine.SpaceData :=
  AllocationEngine.mkSpaceData occ 0%Q (Some 10%Q).

(** Section A1 with four of five spaces occupied, section B1 with one of five. *)
Definition lot : list (string * AllocationEngine.SpaceData) :=
  [("S1-A1", space true); ("S2-A1", space true); ("S3-A1", space true);
   ("S4-A1", space true); ("S5-A1", space false);
   ("S6-B1", space true); ("S7-B1", space false); ("S8-B1", space false);
   ("S9-B1", space false); ("S10-B1", space false)]%string.

(** The engine after one allocation on [lot], at time 600 s. *)
Definition engine_after_allocation : AllocationEngine.Outcome nat (option string * Q) :=
  AllocationEngine.allocate_parking lot 1 None 600%Q (AllocationEngine.init 0%nat).

Definition engine_with_history : AllocationEngine.Engine nat :=
  match engine_after_allocation with
  | AllocationEngine.Returned _ s => s
  | AllocationEngine.Raised _ s => s
  | AllocationEngine.Blocked s => s
  end.

Definition allocated_score : Q :=
  match engine_after_allocation with
  | AllocationEngine.Returned (_, sc) _ => sc
  | _ => 0%Q
  end.

(** An engine whose model raises at inference. *)
Definition broken_engine : AllocationEngine.Engine Broken :=
  AllocationEngine.init broken.

(** [n] calls of [add_feedback("S7-B1", 1, True)] in a row. *)
Fixpoint feedback_calls (n : nat) (s : AllocationEngine.Engine nat)
  : AllocationEngine.Outcome nat unit :=
  match n with
  | O => AllocationEngine.Returned tt s
  | S k =>
      match feedback_calls k s with
      | AllocationEngine.Returned _ s' =>
          AllocationEngine.add_feedback "S7-B1" 1 true 700%Q s'
      | r => r
      end
  end.

(** A 100 x 100 frame in which every crop holds [n] non-zero pixels. *)
Definition frame (n : Z) : ParkingManager.Image :=
  ParkingManager.mkImage 100 100 (fun _ _ _ _ => n).

(** A 100 x 100 frame in which the crops whose left edge is at [x >= 50] hold
    600 non-zero pixels and the others 400. *)
Definition half_frame : ParkingManager.Image :=
  ParkingManager.mkImage 100 100 (fun x _ _ _ => if 50 <=? x then 600 else 400).

Definition manager_with (positions : list ParkingManager.PosEntry)
  (pd : gmap string ParkingManager.Slot) : ParkingManager.Manager :=
  ParkingManager.mkManager positions (Z.of_nat (length positions)) 0
    (Z.of_nat (length positions)) 0 [] 500 400 40 40 10 pd.

(** The record of a space seen free at time 100 s. *)
Definition free_slot : ParkingManager.Slot :=
  ParkingManager.mkSlot (10, 10, 20, 20) false None 100%Q (Some 20) "A1"
                        false None false None false.

(** One space, recorded as free since time 100 s. *)
Definition one_space : ParkingManager.Manager :=
  manager_with [ParkingManager.PosTuple [10; 10; 20; 20]]
               {[ "S1-A1"%string := free_slot ]}.

(** A group entry over the given member indices. *)
Definition group_slot (members : list nat) : ParkingManager.Slot :=
  ParkingManager.mkSlot (0, 0, 90, 30) false None 100%Q None "G"
                        false None true (Some members) false.

(** Four spaces in a row; the two on the right half of [half_frame] are
    occupied. *)
Definition four_spaces : list ParkingManager.PosEntry :=
  [ParkingManager.PosTuple [5; 10; 10; 10]; ParkingManager.PosTuple [25; 10; 10; 10];
   ParkingManager.PosTuple [55; 10; 10; 10]; ParkingManager.PosTuple [75; 10; 10; 10]].

Definition grouped : ParkingManager.Manager :=
  manager_with four_spaces
    {[ "Group_1"%string := group_slot [0; 1; 2]%nat;
       "Group_2"%string := group_slot [2; 3; 0]%nat;
       "Group_3"%string := group_slot [0; 1; 2; 3]%nat ]}.

(** Scenario A: one space drawn at the reference resolution 1280 x 720. *)
Definition calibrated : App.State :=
  App.mkState None "carParkImg.png"
    {[ "carParkImg.png"%string := (1280, 720) ]}
    (Some [App.PosTuple [100; 100; 50; 50]])
    [App.PosTuple [100; 100; 50; 50]] [].


(** A vehicle that moves back and forth over the line at 400 (offset 10):
    its centroid is at y = 380, 420, 380, 420, 380, 420 in six frames. *)
Definition box_at (y : Z) : Z * Z * Z * Z := (100, y - 10, 140, y + 10).

Definition oscillation : list ((exn + list VehicleTracker.Track) * option Z * Z) :=
  map (fun y => (inr [(7, box_at y, 3)], Some 400, 10))
      [380; 420; 380; 420; 380; 420].

(** A positions file with two valid rectangles, the first one twice (once
    with float coordinates), a rectangle of zero width and a stray string. *)
Definition stored_positions : PositionsFile.pyval :=
  PositionsFile.VList
    [PositionsFile.VTuple [PositionsFile.VNum (PositionsFile.NInt 100);
                           PositionsFile.VNum (PositionsFile.NInt 100);
                           PositionsFile.VNum (PositionsFile.NInt 50);
                           PositionsFile.VNum (PositionsFile.NInt 50)];
     PositionsFile.VTuple [PositionsFile.VNum (PositionsFile.NInt 200);
                           PositionsFile.VNum (PositionsFile.NInt 100);
                           PositionsFile.VNum (PositionsFile.NInt 0);
                           PositionsFile.VNum (PositionsFile.NInt 50)];
     PositionsFile.VOther;
     PositionsFile.VTuple [PositionsFile.VNum (PositionsFile.NFloat (201 # 2));
                           PositionsFile.VNum (PositionsFile.NInt 100);
                           PositionsFile.VNum (PositionsFile.NInt 50);
                           PositionsFile.VNum (PositionsFile.NInt 50)];
     PositionsFile.VTuple [PositionsFile.VNum (PositionsFile.NInt 300);
                           PositionsFile.VNum (PositionsFile.NInt 100);
                           PositionsFile.VNum (PositionsFile.NInt 50);
                           PositionsFile.VNum (PositionsFile.NInt 50)]].

Definition empty_store : PositionsFile.Store := PositionsFile.mkStore [] 0 0 0.

(** A lot without a free space. *)
Definition full_lot : list (string * AllocationEngine.SpaceData) :=
  [("S1-A1", space true); ("S2-B1", space true)]%string.

(** A lot whose only free entry is a group entry, which has no
    [distance_to_entrance]. *)
Definition lot_with_group : list (string * AllocationEngine.SpaceData) :=
  [("S1-A1", space true);
   ("Group_1", AllocationEngine.mkSpaceData false 0%Q None)]%string.

(** The engine a call leaves behind. *)
Definition state_after {M A} (o : AllocationEngine.Outcome M A)
  : AllocationEngine.Engine M :=
  match o with
  | AllocationEngine.Returned _ s => s
  | AllocationEngine.Raised _ s => s
  | AllocationEngine.Blocked s => s
  end.

(** Three allocations in a row: S7-B1 at 600 s, S7-B1 again at 1200 s (the
    engine does not mark the space), and S5-A1 at 1250 s on a map with that
    space only. *)
Definition engine_after_three : AllocationEngine.Engine nat :=
  state_after
    (AllocationEngine.allocate_parking [("S5-A1"%string, space false)] 1 None 1250%Q
       (state_after
          (AllocationEngine.allocate_parking lot 2 None 1200%Q engine_with_history))).

(** The result of a call that returned, [dflt] if it raised. *)
Definition result_of {A} (dflt : A) (r : exn + A) : A :=
  match r with
  | inr a => a
  | inl _ => dflt
  end.

(** [one_space] after [update_individual_slots_in_groups] on a frame whose
    crops hold 600 non-zero pixels, at time 200 s. *)
Definition one_space_updated : ParkingManager.Manager :=
  result_of one_space
    (ParkingManager.update_individual_slots_in_groups (frame 600) 200%Q one_space).

(** [one_space] after a whole detection pass on the same frame. *)
Definition one_space_pass : list ParkingManager.Drawn * ParkingManager.Manager :=
  result_of ([], one_space)
    (ParkingManager.update_allocation_status (frame 600) 200%Q one_space).

(** Four spaces, one of them recorded, and a group entry left over from an
    earlier setup. *)
Definition with_old_group : ParkingManager.Manager :=
  manager_with four_spaces
    {[ "S1-A1"%string := free_slot; "Old_group"%string := group_slot [0%nat] ]}.

(** Two groups; the second one names an index past the end of the list. *)
Definition space_groups : list (string * list nat) :=
  [("Group_1", [0; 1]); ("Group_2", [2; 3; 7])]%string%nat.

Definition synced : ParkingManager.Manager :=
  result_of with_old_group
    (ParkingManager.sync_group_data space_groups 300%Q with_old_group).

(** A visualizer with three spaces, the second one occupied. *)
Definition viz_lot : VisualizerLot.Lot nat :=
  VisualizerLot.mkLot 0%nat
    [("S1", VisualizerLot.mkSpace (5, 10, 10, 10) false None 0%Q 15 0%Q);
     ("S2", VisualizerLot.mkSpace (25, 10, 10, 10) true None 0%Q 35 0%Q);
     ("S3", VisualizerLot.mkSpace (55, 10, 10, 10) false None 0%Q 65 0%Q)]%string
    [].

Definition requests : list (string * Z * Q) :=
  [("car1", 1, 100%Q); ("car2", 2, 200%Q); ("car3", 1, 300%Q)]%string.

Definition viz_session : list (option string) * VisualizerLot.Lot nat :=
  result_of ([], viz_lot) (VisualizerLot.allocate_all requests viz_lot).

(** The visualizer initialised from [four_spaces] at time 50 s. *)
Definition viz_fresh : VisualizerLot.Lot nat :=
  result_of viz_lot (VisualizerLot.initialize_parking_spaces four_spaces 50%Q viz_lot).

(** A visualizer record: occupied by car9 since time 100 s. *)
Definition parked : ParkingVisualizer.Slot :=
  ParkingVisualizer.mkSlot true (Some "car9"%string) 100%Q [].

(** The store after loading [stored_positions]. *)
Definition loaded_store : PositionsFile.Store :=
  (PositionsFile.load_parking_positions (Some (inr stored_positions)) empty_store).2.

End Examples.

(** * Properties *)

Import Py.

(** ** Facts about the shared helpers *)

Lemma Qlt_bool_iff a b : Qlt_bool a b = true <-> (a < b)%Q.
Proof.
  unfold Qlt_bool. rewrite negb_true_iff.
  split; intros Hab.
  - apply Qnot_le_lt. intros Hle. apply Qle_bool_iff in Hle. congruence.
  - destruct (Qle_bool b a) eqn:E; [|reflexivity].
    apply Qle_bool_iff in E. exfalso. exact (Qlt_not_le _ _ Hab E).
Qed.

Lemma Qlt_bool_false_iff a b : Qlt_bool a b = false <-> (b <= a)%Q.
Proof.
  unfold Qlt_bool. rewrite negb_false_iff. apply Qle_bool_iff.
Qed.

(** ** The allocation engine: feedback and retraining *)

Section Feedback.
Import AllocationEngine.
Context {M : Type} `{Classifier M}.

(** While fewer than ten entries are buffered after the append, a call that
    finds its history entry returns, having appended exactly one feedback
    entry and left the model and its file alone. *)
Lemma add_feedback_appends (s : Engine M) space_id vehicle_size successful now a :
  lock_held s = false ->
  find_allocation space_id (allocation_history s) = Some a ->
  (length (feedback_data s) + 1 < 10)%nat ->
  add_feedback space_id vehicle_size successful now s =
    Returned tt
      (set_feedback
         (feedback_data s ++
            [mkFeedback now space_id (get_section_from_space_id space_id)
                        vehicle_size (a_features a)
                        (if successful then 1 else 0)]) s).
Proof.
  intros Hlock Hfind Hlen.
  unfold add_feedback, with_lock. rewrite Hlock.
  unfold bind, gets, modify. cbn -[Nat.leb find_allocation length].
  rewrite Hfind. cbn -[Nat.leb length]. rewrite length_app.
  simpl (length [_]).
  destruct (Nat.leb_spec 10 (length (feedback_data s) + 1)); [lia|].
  destruct s; cbn in *. subst. reflexivity.
Qed.

(** A call that finds no history entry returns without any change. *)
Lemma add_feedback_unknown (s : Engine M) space_id vehicle_size successful now :
  lock_held s = false ->
  find_allocation space_id (allocation_history s) = None ->
  add_feedback space_id vehicle_size successful now s = Returned tt s.
Proof.
  intros Hlock Hfind.
  unfold add_feedback, with_lock. rewrite Hlock.
  unfold bind, gets. cbn -[find_allocation]. rewrite Hfind. cbn.
  destruct s; cbn in *. subst. reflexivity.
Qed.

(** The call that brings the buffer to ten entries enters [_retrain_model]
    while holding [self.lock]; [_retrain_model] acquires the same lock, so the
    thread blocks: the model is not refitted, nothing is pickled and the
    buffer keeps its ten entries, with the lock still held. *)
Lemma add_feedback_retrain_blocks (s : Engine M) space_id vehicle_size successful now a :
  lock_held s = false ->
  find_allocation space_id (allocation_history s) = Some a ->
  (10 <= length (feedback_data s) + 1)%nat ->
  add_feedback space_id vehicle_size successful now s =
    Blocked
      (set_lock true
         (set_feedback
            (feedback_data s ++
               [mkFeedback now space_id (get_section_from_space_id space_id)
                           vehicle_size (a_features a)
                           (if successful then 1 else 0)]) s)).
Proof.
  intros Hlock Hfind Hlen.
  unfold add_feedback, with_lock. rewrite Hlock.
  unfold bind, gets, modify. cbn -[Nat.leb find_allocation length].
  rewrite Hfind. cbn -[Nat.leb length]. rewrite length_app.
  simpl (length [_]).
  destruct (Nat.leb_spec 10 (length (feedback_data s) + 1)); [|lia].
  unfold _retrain_model, bind, gets. cbn.
  destruct (feedback_data s ++ _) eqn:E.
  { apply (f_equal length) in E. rewrite length_app in E. cbn in E. lia. }
  unfold with_lock. cbn. rewrite <- E. reflexivity.
Qed.

(** Called with the lock free, [_retrain_model] does what it is meant to do:
    with a non-empty buffer of three-feature rows and a fit that succeeds, the
    refitted model is installed and pickled and the buffer is emptied. *)
Lemma retrain_model_unlocked (s : Engine M) m' :
  lock_held s = false ->
  feedback_data s <> [] ->
  forallb (fun row => Nat.eqb (length row) 3)
          (map (fun f => firstn 3 (f_features f)) (feedback_data s)) = true ->
  fit (model s) (map (fun f => firstn 3 (f_features f)) (feedback_data s))
      (map f_successful (feedback_data s)) = inr m' ->
  _retrain_model s =
    Returned tt (set_feedback [] (set_model_file m' (set_model m' s))).
Proof.
  intros Hlock Hne Hrows Hfit.
  unfold _retrain_model, bind, gets. cbn.
  destruct (feedback_data s) eqn:E; [congruence|].
  unfold with_lock. rewrite Hlock.
  unfold try_except, bind, gets, modify, lift, ret.
  cbn [feedback_data model set_lock].
  rewrite E, Hrows. cbn [feedback_data model set_lock]. rewrite Hfit.
  destruct s; cbn in *. subst. reflexivity.
Qed.

(** A fit that raises inside [_retrain_model] is swallowed there: the call
    returns, with the model, its file and the buffer as they were. *)
Lemma retrain_model_fit_raises (s : Engine M) e :
  lock_held s = false ->
  feedback_data s <> [] ->
  forallb (fun row => Nat.eqb (length row) 3)
          (map (fun f => firstn 3 (f_features f)) (feedback_data s)) = true ->
  fit (model s) (map (fun f => firstn 3 (f_features f)) (feedback_data s))
      (map f_successful (feedback_data s)) = inl e ->
  _retrain_model s = Returned tt s.
Proof.
  intros Hlock Hne Hrows Hfit.
  unfold _retrain_model, bind, gets. cbn.
  destruct (feedback_data s) eqn:E; [congruence|].
  unfold with_lock. rewrite Hlock.
  unfold try_except, bind, gets, modify, lift, ret, raise.
  cbn [feedback_data model set_lock].
  rewrite E, Hrows. cbn [feedback_data model set_lock]. rewrite Hfit.
  destruct s; cbn in *. subst. reflexivity.
Qed.

End Feedback.

(** C1 (code defect).  Scenario D run on the code: starting from an empty
    buffer, each of the first nine calls of [add_feedback] for an allocated
    space returns with one more buffered entry and the model untouched; the
    tenth call, which should retrain, persist the model and clear the buffer,
    never returns: it blocks in [_retrain_model] re-acquiring the lock that
    [add_feedback] holds, with the ten entries still buffered, the model not
    refitted and the model file as it was. *)
Theorem feedback_tenth_call_blocks :
  (exists sc, Examples.engine_after_allocation =
              AllocationEngine.Returned (Some "S7-B1"%string, sc)
                                        Examples.engine_with_history) /\
  AllocationEngine.feedback_data Examples.engine_with_history = [] /\
  (forall n, (n <= 9)%nat ->
     exists s, Examples.feedback_calls n Examples.engine_with_history =
               AllocationEngine.Returned tt s /\
               length (AllocationEngine.feedback_data s) = n /\
               AllocationEngine.model s = 0%nat /\
               AllocationEngine.model_file s = Some 0%nat /\
               AllocationEngine.lock_held s = false) /\
  (exists s, Examples.feedback_calls 10 Examples.engine_with_history =
             AllocationEngine.Blocked s /\
             length (AllocationEngine.feedback_data s) = 10%nat /\
             AllocationEngine.model s = 0%nat /\
             AllocationEngine.model_file s = Some 0%nat /\
             AllocationEngine.lock_held s = true).
Proof.
  split; [eexists; vm_compute; reflexivity|].
  split; [vm_compute; reflexivity|].
  split.
  - intros n Hn.
    assert (Hcases : In n (seq 0 10)) by (apply in_seq; lia).
    cbn in Hcases.
    repeat (destruct Hcases as [<- | Hcases];
            [eexists; split; [vm_compute; reflexivity | vm_compute; auto] |]).
    destruct Hcases.
  - eexists. split; [vm_compute; reflexivity | vm_compute; auto].
Qed.

(** ** [np.argmax] returns the first maximum *)

Lemma argmax_from_spec (r pre : list Q) (bi : nat) (b : Q) :
  pre !! bi = Some b ->
  (forall j x, pre !! j = Some x -> (x <= b)%Q /\ ((j < bi)%nat -> (x < b)%Q)) ->
  exists y,
    (pre ++ r) !! argmax_from bi b (length pre) r = Some y /\
    forall j x, (pre ++ r) !! j = Some x ->
      (x <= y)%Q /\ ((j < argmax_from bi b (length pre) r)%nat -> (x < y)%Q).
Proof.
  revert pre bi b.
  induction r as [|x r IH]; intros pre bi b Hb Hbest; cbn [argmax_from].
  - exists b. rewrite app_nil_r. split; [exact Hb | exact Hbest].
  - assert (Hlen : length (pre ++ [x]) = S (length pre)).
    { rewrite length_app. cbn. lia. }
    assert (Hbi : (bi < length pre)%nat) by (eapply lookup_lt_Some; eauto).
    replace (pre ++ x :: r) with ((pre ++ [x]) ++ r)
      by (rewrite <- app_assoc; reflexivity).
    rewrite <- Hlen.
    destruct (Qlt_bool b x) eqn:E.
    + apply Qlt_bool_iff in E.
      apply IH.
      * rewrite lookup_app_r by lia. rewrite Nat.sub_diag. reflexivity.
      * intros j z Hz.
        destruct (decide (j < length pre)%nat) as [Hj|Hj].
        -- rewrite lookup_app_l in Hz by lia.
           destruct (Hbest j z Hz) as [Hle _].
           assert (z < x)%Q by (eapply Qle_lt_trans; eauto).
           split; [apply Qlt_le_weak; assumption | intros _; assumption].
        -- rewrite lookup_app_r in Hz by lia.
           destruct (j - length pre)%nat as [|k] eqn:Ek; cbn in Hz; [|discriminate].
           inversion Hz; subst z.
           split; [apply Qle_refl | intros; lia].
    + apply Qlt_bool_false_iff in E.
      apply IH.
      * rewrite lookup_app_l by lia. exact Hb.
      * intros j z Hz.
        destruct (decide (j < length pre)%nat) as [Hj|Hj].
        -- rewrite lookup_app_l in Hz by lia. exact (Hbest j z Hz).
        -- rewrite lookup_app_r in Hz by lia.
           destruct (j - length pre)%nat as [|k] eqn:Ek; cbn in Hz; [|discriminate].
           inversion Hz; subst z.
           split; [exact E | intros; lia].
Qed.

Lemma argmax_spec (l : list Q) :
  l <> [] ->
  exists y,
    l !! argmax l = Some y /\
    forall j x, l !! j = Some x ->
      (x <= y)%Q /\ ((j < argmax l)%nat -> (x < y)%Q).
Proof.
  destruct l as [|x r]; [congruence|]. intros _.
  unfold argmax.
  apply (argmax_from_spec r [x] 0 x).
  - reflexivity.
  - intros [|j] z Hz; cbn in Hz; [|discriminate].
    inversion Hz; subst. split; [apply Qle_refl | intros; lia].
Qed.

(** ** The allocation engine: section statistics *)

Section SectionStatistics.
Import AllocationEngine AllocationSpec.

Lemma section_count_cons p e sd sec :
  section_count p (e :: sd) sec =
    (if String.eqb (section_of_id e.1) sec && p e.2 then 1 else 0)
    + section_count p sd sec.
Proof.
  unfold section_count. cbn [List.filter].
  destruct (String.eqb (section_of_id e.1) sec && p e.2); cbn [length]; lia.
Qed.

Lemma section_count_nonneg p sd sec : 0 <= section_count p sd sec.
Proof. unfold section_count. lia. Qed.

(** The first loop of [update_parking_stats] counts, per section, the spaces
    and the occupied spaces of the map. *)
Lemma count_sections_from (sd : list (string * SpaceData))
  (acc : gmap string (Z * Z)) (sec : string) :
  foldl count_space acc sd !! sec =
    if section_count (fun _ => true) sd sec =? 0 then acc !! sec
    else Some ((default (0, 0) (acc !! sec)).1
                 + section_count (fun _ => true) sd sec,
               (default (0, 0) (acc !! sec)).2
                 + section_count occupied sd sec).
Proof.
  revert acc. induction sd as [|e sd IH]; intros acc.
  - reflexivity.
  - cbn [foldl]. rewrite IH. rewrite !section_count_cons.
    pose proof (section_count_nonneg (fun _ => true) sd sec) as Ht.
    pose proof (section_count_nonneg occupied sd sec) as Ho.
    unfold count_space.
    destruct (default (0, 0) (acc !! get_section_from_space_id e.1)) as [t0 o0] eqn:Ed.
    unfold section_of_id.
    destruct (String.eqb_spec (get_section_from_space_id e.1) sec) as [Heq|Hne].
    + subst sec. rewrite lookup_insert_eq. rewrite Ed. cbn [andb default fst snd].
      destruct (section_count (fun _ => true) sd _ =? 0) eqn:E0.
      * apply Z.eqb_eq in E0. rewrite E0.
        destruct (1 + 0 =? 0) eqn:E1; [apply Z.eqb_eq in E1; lia|].
        assert (section_count occupied sd (get_section_from_space_id e.1) = 0) as ->.
        { unfold section_count in *.
          assert (Hnil : List.filter
                    (fun e0 : string * SpaceData =>
                       String.eqb (section_of_id e0.1) (get_section_from_space_id e.1)
                       && true) sd = []).
          { destruct (List.filter _ sd) eqn:Ef; [reflexivity|]. cbn in E0. lia. }
          clear -Hnil. induction sd as [|a sd IHsd]; [reflexivity|].
          cbn [List.filter] in *.
          destruct (String.eqb (section_of_id a.1) (get_section_from_space_id e.1));
            cbn [andb] in *; [discriminate|]. apply IHsd. exact Hnil. }
        unfold id; cbn [fst snd].
        destruct (occupied e.2); f_equal; f_equal; lia.
      * destruct (1 + section_count (fun _ => true) sd _ =? 0) eqn:E1;
          [apply Z.eqb_eq in E1; lia|].
        unfold id; cbn [fst snd].
        destruct (occupied e.2); f_equal; f_equal; lia.
    + rewrite lookup_insert_ne by exact Hne. cbn [andb]. rewrite !Z.add_0_l.
      reflexivity.
Qed.

Lemma count_sections_lookup (sd : list (string * SpaceData)) (sec : string) :
  section_count (fun _ => true) sd sec <> 0 ->
  count_sections sd !! sec =
    Some (section_count (fun _ => true) sd sec, section_count occupied sd sec).
Proof.
  intros Hne. unfold count_sections. rewrite count_sections_from.
  destruct (section_count (fun _ => true) sd sec =? 0) eqn:E;
    [apply Z.eqb_eq in E; contradiction|].
  rewrite lookup_empty. reflexivity.
Qed.

(** A space of the map makes its own section non-empty. *)
Lemma section_count_member (sd : list (string * SpaceData)) id d :
  In (id, d) sd -> 0 < section_count (fun _ => true) sd (section_of_id id).
Proof.
  induction sd as [|e sd IH]; intros Hin; [destruct Hin|].
  rewrite section_count_cons.
  pose proof (section_count_nonneg (fun _ => true) sd (section_of_id id)).
  destruct Hin as [->|Hin].
  - cbn [fst snd]. rewrite String.eqb_refl. cbn. lia.
  - specialize (IH Hin).
    destruct (String.eqb (section_of_id e.1) (section_of_id id) && true); lia.
Qed.

(** With the statistics just recomputed from the map, the score the loop
    gives a space of the map is the final score of the specification: the
    default rate 0.5 is never used. *)
Lemma balanced_score_candidate (sd : list (string * SpaceData))
  (old : gmap string SectionStats) w pref id d m :
  In (id, d) sd ->
  balanced_score ((stats_of <$> count_sections sd) ∪ old) w pref id m =
    candidate_score sd w pref id m.
Proof.
  intros Hin. pose proof (section_count_member sd id d Hin) as Hpos.
  unfold balanced_score, candidate_score, final_score, section_occupancy_rate,
    section_of_id in *.
  erewrite lookup_union_Some_l; cycle 1.
  { rewrite lookup_fmap, count_sections_lookup by (unfold section_of_id; lia).
    reflexivity. }
  unfold stats_of. cbn [occupancy_rate fst snd].
  destruct (Z.ltb_spec 0 (section_count (fun _ => true) sd
                            (get_section_from_space_id id))); [|lia].
  f_equal.
  unfold truthy, section_matches, section_preference_multiplier.
  destruct pref as [p|]; reflexivity.
Qed.

End SectionStatistics.

(** ** The allocation engine: [allocate_parking] *)

Section Allocate.
Import AllocationEngine AllocationSpec.
Context {M : Type} `{Classifier M}.


Lemma balance_spec stats w pref scores (ids : list string) i0 bs :
  balance stats w pref scores i0 ids = inr bs ->
  length bs = length ids /\
  forall j id, ids !! j = Some id ->
    exists m, scores !! (i0 + j)%nat = Some m /\
              bs !! j = Some (balanced_score stats w pref id m).
Proof.
  revert i0 bs. induction ids as [|id0 ids IH]; intros i0 bs Hb; cbn in Hb.
  - inversion Hb; subst. split; [reflexivity|]. intros j id Hj. discriminate.
  - destruct (scores !! i0) as [m0|] eqn:E0; [|discriminate].
    destruct (balance stats w pref scores (S i0) ids) as [e|bs'] eqn:E; [discriminate|].
    inversion Hb; subst. destruct (IH _ _ E) as [Hlen Hall].
    split; [cbn; f_equal; exact Hlen|].
    intros [|j] id Hj; cbn in Hj.
    + inversion Hj; subst. exists m0. rewrite Nat.add_0_r. split; [exact E0 | reflexivity].
    + destruct (Hall j id Hj) as [m [Hm Hbs]]. exists m.
      replace (i0 + S j)%nat with (S i0 + j)%nat by lia. split; [exact Hm | exact Hbs].
Qed.

(** A call made while the lock is held blocks at once. *)
Lemma allocate_parking_locked (s : Engine M) sd vs pref now :
  lock_held s = true -> allocate_parking sd vs pref now s = Blocked s.
Proof.
  intros Hlock. unfold allocate_parking, bind, update_parking_stats, with_lock.
  rewrite Hlock. reflexivity.
Qed.

(** The steps of a call made with the lock free. *)
Lemma allocate_parking_unfold (s : Engine M) sd vs pref now :
  lock_held s = false ->
  allocate_parking sd vs pref now s =
    let s1 :=
      set_parking_stats ((stats_of <$> count_sections sd) ∪ parking_stats s) s in
    match candidates sd with
    | [] => Returned (None, 0%Q) s1
    | _ =>
        match build_features now vs (candidates sd) with
        | inl e => Raised e s1
        | inr rows =>
            match predict_proba (model s) rows with
            | inl e => Raised e s1
            | inr scores =>
                match balance (parking_stats s1) (load_balancing_weight s) pref
                              scores 0 (map fst (candidates sd)) with
                | inl e => Raised e s1
                | inr bs =>
                    match bs with
                    | [] => Returned (None, 0%Q) s1
                    | _ =>
                        match map fst (candidates sd) !! argmax bs,
                              bs !! argmax bs, rows !! argmax bs with
                        | Some id, Some sc, Some f =>
                            Returned (Some id, sc)
                              (append_history (mkAllocation now id vs sc f) s1)
                        | _, _, _ => Raised IndexError s1
                        end
                    end
                end
            end
        end
    end.
Proof.
  intros Hlock.
  unfold allocate_parking, update_parking_stats, with_lock, bind, modify, gets,
    lift, ret, raise, candidates.
  rewrite Hlock.
  destruct s as [m mf ah fb ps w lk]. cbn in Hlock. subst lk.
  cbn [set_lock set_parking_stats model model_file allocation_history
       feedback_data parking_stats load_balancing_weight lock_held].
  destruct (List.filter _ sd) as [|c cs] eqn:Ec; [reflexivity|].
  destruct (build_features now vs (c :: cs)) as [e|rows]; [reflexivity|].
  cbn [set_lock set_parking_stats model model_file allocation_history
       feedback_data parking_stats load_balancing_weight lock_held].
  destruct (predict_proba m rows) as [e|scores]; [reflexivity|].
  cbn [set_lock set_parking_stats model model_file allocation_history
       feedback_data parking_stats load_balancing_weight lock_held].
  destruct (balance _ w pref scores 0 (map fst (c :: cs))) as [e|bs]; [reflexivity|].
  destruct bs as [|b bs]; [reflexivity|].
  destruct (map fst (c :: cs) !! argmax (b :: bs)); [|reflexivity].
  destruct ((b :: bs) !! argmax (b :: bs)); [|reflexivity].
  destruct (rows !! argmax (b :: bs)); reflexivity.
Qed.

Lemma candidates_In (sd : list (string * SpaceData)) j id d :
  candidates sd !! j = Some (id, d) -> In (id, d) sd.
Proof.
  intros Hj. apply list_elem_of_lookup_2 in Hj. apply list_elem_of_In in Hj.
  unfold candidates in Hj. apply filter_In in Hj. tauto.
Qed.

(** With equal model scores, weight 0.3 and no preference, the candidate of
    the section occupied at 0.2 scores strictly higher than the candidate of
    the section occupied at 0.8. *)
Lemma lower_occupancy_scores_higher sd w idj mj idk mk :
  (mj == mk)%Q -> (w == 3 # 10)%Q ->
  (section_occupancy_rate sd (section_of_id idj) == 4 # 5)%Q ->
  (section_occupancy_rate sd (section_of_id idk) == 1 # 5)%Q ->
  (candidate_score sd w None idj mj < candidate_score sd w None idk mk)%Q.
Proof.
  intros Hm Hw Hj Hk.
  unfold candidate_score, final_score, section_preference_multiplier.
  rewrite Hm, Hw, Hj, Hk. lra.
Qed.

(** What a returned allocation is: the first candidate of maximal final
    score, with that score; of two candidates with equal model scores in
    sections occupied at 0.8 and at 0.2 (weight 0.3, no preference) the one of
    the 0.8 section scores strictly lower and is not the one returned. *)
Lemma allocate_parking_returned (s : Engine M) sd vs pref now id sc s' :
  allocate_parking sd vs pref now s = Returned (Some id, sc) s' ->
  exists rows scores i d m,
    build_features now vs (candidates sd) = inr rows /\
    predict_proba (model s) rows = inr scores /\
    candidates sd !! i = Some (id, d) /\
    scores !! i = Some m /\
    sc = candidate_score sd (load_balancing_weight s) pref id m /\
    (forall j idj dj mj,
        candidates sd !! j = Some (idj, dj) -> scores !! j = Some mj ->
        (candidate_score sd (load_balancing_weight s) pref idj mj <= sc)%Q /\
        ((j < i)%nat ->
         (candidate_score sd (load_balancing_weight s) pref idj mj < sc)%Q)) /\
    (forall j k idj dj mj idk dk mk,
        candidates sd !! j = Some (idj, dj) -> scores !! j = Some mj ->
        candidates sd !! k = Some (idk, dk) -> scores !! k = Some mk ->
        (mj == mk)%Q -> (load_balancing_weight s == 3 # 10)%Q -> pref = None ->
        (section_occupancy_rate sd (section_of_id idj) == 4 # 5)%Q ->
        (section_occupancy_rate sd (section_of_id idk) == 1 # 5)%Q ->
        (candidate_score sd (load_balancing_weight s) pref idj mj
         < candidate_score sd (load_balancing_weight s) pref idk mk)%Q /\
        i <> j).
Proof.
  intros Hret.
  destruct (lock_held s) eqn:Hlock.
  { rewrite allocate_parking_locked in Hret by exact Hlock. discriminate. }
  rewrite allocate_parking_unfold in Hret by exact Hlock.
  cbv zeta in Hret.
  destruct (candidates sd) as [|c cs] eqn:Ec; [discriminate|]. rewrite <- Ec in *.
  destruct (build_features now vs (candidates sd)) as [e|rows] eqn:Erows; [discriminate|].
  destruct (predict_proba (model s) rows) as [e|scores] eqn:Escores; [discriminate|].
  destruct (balance _ _ pref scores 0 (map fst (candidates sd))) as [e|bs] eqn:Ebs;
    [discriminate|].
  destruct (balance_spec _ _ _ _ _ _ _ Ebs) as [Hlen Hbal].
  destruct bs as [|b0 bs0] eqn:Ebs0; [discriminate|]. rewrite <- Ebs0 in *.
  assert (Hne : bs <> []) by (rewrite Ebs0; discriminate).
  destruct (argmax_spec bs Hne) as [y [Hy Hmax]].
  destruct (map fst (candidates sd) !! argmax bs) as [id'|] eqn:Eid; [|discriminate].
  rewrite Hy in Hret.
  destruct (rows !! argmax bs) as [f|] eqn:Ef; [|discriminate].
  inversion Hret; subst id' y s'. clear Hret.
  rewrite list_lookup_fmap in Eid.
  destruct (candidates sd !! argmax bs) as [[id0 d]|] eqn:Ecand; [|discriminate].
  cbn in Eid. inversion Eid; subst id0. clear Eid.
  assert (Hids : map fst (candidates sd) !! argmax bs = Some id).
  { rewrite list_lookup_fmap, Ecand. reflexivity. }
  destruct (Hbal _ _ Hids) as [m [Hm Hsc]]. cbn [Nat.add] in Hm.
  rewrite Hy in Hsc.
  cbn [parking_stats set_parking_stats] in *.
  assert (Hsc' : sc = candidate_score sd (load_balancing_weight s) pref id m).
  { rewrite <- (balanced_score_candidate sd (parking_stats s) _ _ id d m
                  (candidates_In _ _ _ _ Ecand)).
    congruence. }
  clear Hsc.
  assert (Hscore : forall j idj dj mj,
             candidates sd !! j = Some (idj, dj) -> scores !! j = Some mj ->
             bs !! j = Some (candidate_score sd (load_balancing_weight s) pref idj mj)).
  { intros j idj dj mj Hj Hmj.
    assert (Hidj : map fst (candidates sd) !! j = Some idj).
    { rewrite list_lookup_fmap, Hj. reflexivity. }
    destruct (Hbal _ _ Hidj) as [m' [Hm' Hb']]. cbn [Nat.add] in Hm'.
    rewrite Hmj in Hm'. inversion Hm'; subst m'.
    rewrite Hb'. f_equal.
    apply (balanced_score_candidate sd _ _ _ idj dj mj (candidates_In _ _ _ _ Hj)). }
  exists rows, scores, (argmax bs), d, m.
  split; [reflexivity|]. split; [exact Escores|]. split; [exact Ecand|].
  split; [exact Hm|]. split; [exact Hsc'|]. split.
  - intros j idj dj mj Hj Hmj.
    destruct (Hmax j _ (Hscore j idj dj mj Hj Hmj)) as [Hle Hlt].
    split; assumption.
  - intros j k idj dj mj idk dk mk Hj Hmj Hk Hmk Heqm Hw Hpref Hrj Hrk.
    subst pref. split.
    { apply lower_occupancy_scores_higher; assumption. }
    intros Heq. subst j.
    rewrite Ecand in Hj. inversion Hj; subst idj dj.
    rewrite Hm in Hmj. inversion Hmj; subst mj.
    destruct (Hmax k _ (Hscore k idk dk mk Hk Hmk)) as [Hle _].
    rewrite Hsc' in Hle.
    pose proof (lower_occupancy_scores_higher sd _ id m idk mk Heqm Hw Hrj Hrk) as Hlt.
    exact (Qlt_not_le _ _ Hlt Hle).
Qed.



(** C4, as the code has it.  With the lock free: when some space is free and
    the model's inference raises, [allocate_parking] does not catch the
    exception: it leaves the lock released, appends nothing to the history and
    raises the same exception to its caller; it returns [(None, 0)] when no
    space is free, without consulting the model; and an exception raised by
    the fit inside [_retrain_model] is swallowed there. *)
Theorem model_exceptions_in_engine (s : Engine M) :
  lock_held s = false ->
  (forall sd vs pref now rows e,
      candidates sd <> [] ->
      build_features now vs (candidates sd) = inr rows ->
      predict_proba (model s) rows = inl e ->
      allocate_parking sd vs pref now s =
        Raised e (set_parking_stats
                    ((stats_of <$> count_sections sd) ∪ parking_stats s) s)) /\
  (forall sd vs pref now,
      candidates sd = [] ->
      allocate_parking sd vs pref now s =
        Returned (None, 0%Q)
                 (set_parking_stats
                    ((stats_of <$> count_sections sd) ∪ parking_stats s) s)) /\
  (forall e,
      feedback_data s <> [] ->
      forallb (fun row => Nat.eqb (length row) 3)
              (map (fun f => firstn 3 (f_features f)) (feedback_data s)) = true ->
      fit (model s) (map (fun f => firstn 3 (f_features f)) (feedback_data s))
          (map f_successful (feedback_data s)) = inl e ->
      _retrain_model s = Returned tt s).
Proof.
  intros Hlock. split; [|split].
  - intros sd vs pref now rows e Hne Hrows He.
    rewrite allocate_parking_unfold by exact Hlock. cbv zeta.
    destruct (candidates sd); [congruence|].
    rewrite Hrows, He. reflexivity.
  - intros sd vs pref now Hnil.
    rewrite allocate_parking_unfold by exact Hlock. cbv zeta.
    rewrite Hnil. reflexivity.
  - intros e Hne Hrows Hfit.
    exact (retrain_model_fit_raises s e Hlock Hne Hrows Hfit).
Qed.

End Allocate.


(** The engine with a model whose inference raises, on [Examples.lot]. *)
Lemma model_exceptions_in_engine_witness :
  AllocationEngine.lock_held Examples.broken_engine = false /\
  AllocationEngine.allocate_parking Examples.lot 1 None 600%Q Examples.broken_engine =
    AllocationEngine.Raised (ModelError "predict_proba")
      (AllocationEngine.set_parking_stats
         ((AllocationEngine.stats_of <$> AllocationEngine.count_sections Examples.lot)
            ∪ AllocationEngine.parking_stats Examples.broken_engine)
         Examples.broken_engine).
Proof.
  split; [reflexivity|].
  destruct (model_exceptions_in_engine Examples.broken_engine eq_refl) as [Hraise _].
  eapply Hraise.
  - vm_compute. discriminate.
  - vm_compute. reflexivity.
  - reflexivity.
Defined.

(** C4 as stated fails: on [Examples.lot], which has free spaces, the model's
    inference raises and [allocate_parking] raises the same exception instead
    of returning [(None, 0)]. *)
Lemma allocate_model_error_propagates :
  (exists rows,
      AllocationEngine.build_features 600%Q 1
        (AllocationSpec.candidates Examples.lot) = inr rows /\
      AllocationEngine.predict_proba Examples.broken rows =
        inl (ModelError "predict_proba")) /\
  (exists s',
      AllocationEngine.allocate_parking Examples.lot 1 None 600%Q
        Examples.broken_engine =
      AllocationEngine.Raised (ModelError "predict_proba") s') /\
  ~ (exists s',
      AllocationEngine.allocate_parking Examples.lot 1 None 600%Q
        Examples.broken_engine =
      AllocationEngine.Returned (None, 0%Q) s').
Proof.
  split; [eexists; split; [vm_compute; reflexivity | reflexivity]|].
  split; [eexists; vm_compute; reflexivity|].
  intros [s' Hs']. vm_compute in Hs'. discriminate.
Qed.

(** ** The occupancy classifier: [check_parking_space] *)

Section CheckParkingSpace.
Import ParkingManager OccupancySpec.


(** The loop reports exactly the classified elements, in order, and counts the
    free ones. *)
Lemma check_spaces_spec img thr (l : list PosEntry) :
  check_spaces img thr l =
    (omap (classify img thr) l,
     Z.of_nat (length (List.filter d_free (omap (classify img thr) l)))).
Proof.
  induction l as [|pos l IH]; [reflexivity|].
  cbn [check_spaces]. rewrite IH. clear IH.
  destruct pos as [[|x [|y [|w [|h [|? ?]]]]]|]; try reflexivity.
  cbn [omap list_omap classify].
  destruct (in_bounds img x y w h); [|reflexivity].
  destruct (count_crop img x y w h <? thr) eqn:E;
    cbn [List.filter d_free length]; f_equal; lia.
Qed.


End CheckParkingSpace.


(** ** The occupancy classifier: groups *)

Section Groups.
Import ParkingManager OccupancySpec.

(** [k > n / 2] with true division is [n < 2 * k] on the integers. *)
Lemma majority_ltb (k : Z) (n : nat) : majority k n = (Z.of_nat n <? 2 * k).
Proof.
  unfold majority.
  destruct (Z.ltb_spec (Z.of_nat n) (2 * k)) as [Hlt|Hge].
  - apply Qlt_bool_iff. unfold Qlt, Qdiv, Qmult, Qinv, inject_Z. cbn. lia.
  - apply Qlt_bool_false_iff. unfold Qle, Qdiv, Qmult, Qinv, inject_Z. cbn. lia.
Qed.

Lemma majority_iff (k : Z) (n : nat) :
  majority k n = true <-> (inject_Z (Z.of_nat n) / 2 < inject_Z k)%Q.
Proof. unfold majority. apply Qlt_bool_iff. Qed.

Lemma occupied_member_count_cons img thr positions i ms :
  occupied_member_count img thr positions (i :: ms) =
    (if member_occupied img thr positions i then 1 else 0)
    + occupied_member_count img thr positions ms.
Proof.
  unfold occupied_member_count. cbn [List.filter].
  destruct (member_occupied img thr positions i); cbn [length]; lia.
Qed.

Lemma occupied_member_count_bounds img thr positions ms :
  0 <= occupied_member_count img thr positions ms <= Z.of_nat (length ms).
Proof.
  unfold occupied_member_count.
  pose proof (filter_length_le (member_occupied img thr positions) ms). lia.
Qed.

(** On a well-formed position list the inner loop returns the number of
    members classified occupied. *)
Lemma count_occupied_members_spec img thr positions ms :
  well_formed positions ->
  count_occupied_members img thr positions ms =
    inr (occupied_member_count img thr positions ms).
Proof.
  intros Hwf. induction ms as [|i ms IH]; [reflexivity|].
  rewrite occupied_member_count_cons. cbn [count_occupied_members].
  unfold member_occupied.
  destruct (positions !! i) as [pos|] eqn:Ei.
  - assert (Hpos : exists x y w h, pos = PosTuple [x; y; w; h]).
    { unfold well_formed in Hwf. rewrite Forall_forall in Hwf. apply Hwf.
      eapply list_elem_of_lookup_2; eauto. }
    destruct Hpos as (x & y & w & h & ->).
    cbn [unpack4 ebind]. rewrite IH. cbn [ebind].
    destruct (in_bounds img x y w h && (thr <=? count_crop img x y w h));
      f_equal; lia.
  - rewrite IH. f_equal.
Qed.

Lemma group_status_spec img m data :
  well_formed (posList m) ->
  group_status img m data =
    inr (match is_group data, member_spaces data with
         | true, Some ms =>
             if Nat.eqb (length ms) 0 then data
             else set_occupied
                    (majority (occupied_member_count img (parking_threshold m)
                                                     (posList m) ms)
                              (length ms)) data
         | _, _ => data
         end).
Proof.
  intros Hwf. unfold group_status.
  destruct (is_group data); [|reflexivity].
  destruct (member_spaces data) as [ms|]; [|reflexivity].
  destruct (Nat.eqb (length ms) 0); [reflexivity|].
  rewrite count_occupied_members_spec by exact Hwf. reflexivity.
Qed.

Lemma first_error_none (results : gmap string (exn + Slot)) :
  (forall g r, results !! g = Some r -> exists d, r = inr d) ->
  first_error results = None.
Proof.
  intros Hall. unfold first_error.
  destruct (omap _ (map_to_list results)) as [|e l] eqn:E; [reflexivity|].
  assert (He : e ∈ omap (fun kv : string * (exn + Slot) =>
                           match kv.2 with inl e => Some e | inr _ => None end)
                        (map_to_list results)).
  { rewrite E. apply list_elem_of_here. }
  apply list_elem_of_omap in He. destruct He as [[g r] [Hin Hr]].
  apply elem_of_map_to_list in Hin. destruct (Hall g r Hin) as [d ->].
  discriminate.
Qed.

(** On a well-formed position list [process_group_status] returns, and every
    entry is updated as [group_status] says. *)
Lemma process_group_status_spec img m :
  well_formed (posList m) ->
  exists m',
    process_group_status img m = inr m' /\
    posList m' = posList m /\
    forall g, parking_data m' !! g =
              (fun data =>
                 match is_group data, member_spaces data with
                 | true, Some ms =>
                     if Nat.eqb (length ms) 0 then data
                     else set_occupied
                            (majority (occupied_member_count
                                         img (parking_threshold m) (posList m) ms)
                                      (length ms)) data
                 | _, _ => data
                 end) <$> parking_data m !! g.
Proof.
  intros Hwf. unfold process_group_status.
  rewrite first_error_none.
  - eexists. split; [reflexivity|]. split; [reflexivity|].
    intros g. cbn [parking_data set_parking_data].
    rewrite lookup_omap, lookup_fmap.
    destruct (parking_data m !! g) as [data|]; [|reflexivity].
    cbn. rewrite group_status_spec by exact Hwf. reflexivity.
  - intros g r Hr. rewrite lookup_fmap in Hr.
    destruct (parking_data m !! g) as [data|]; [|discriminate].
    cbn in Hr. rewrite group_status_spec in Hr by exact Hwf.
    inversion Hr. eexists. reflexivity.
Qed.

(** C7.  For a group with [n >= 1] members of which [k] are classified
    occupied, [process_group_status] sets the group's [occupied] flag to
    [k > n / 2]: true exactly when more than half of the members are
    occupied, so false on an exact tie. *)
Theorem group_majority_vote (img : Image) (m : Manager) (g : string)
  (data : Slot) (ms : list nat) :
  well_formed (posList m) ->
  parking_data m !! g = Some data ->
  is_group data = true ->
  member_spaces data = Some ms ->
  (1 <= length ms)%nat ->
  exists m' data',
    process_group_status img m = inr m' /\
    parking_data m' !! g = Some data' /\
    data' = set_occupied
              (Z.of_nat (length ms) <?
               2 * occupied_member_count img (parking_threshold m) (posList m) ms)
              data /\
    (occupied data' = true <->
     (inject_Z (Z.of_nat (length ms)) / 2
      < inject_Z (occupied_member_count img (parking_threshold m) (posList m) ms))%Q) /\
    0 <= occupied_member_count img (parking_threshold m) (posList m) ms
      <= Z.of_nat (length ms).
Proof.
  intros Hwf Hg Hgroup Hms Hn.
  destruct (process_group_status_spec img m Hwf) as [m' [Hm' [_ Hpd]]].
  exists m'. eexists. split; [exact Hm'|].
  rewrite Hpd, Hg. cbn. rewrite Hgroup, Hms.
  destruct (Nat.eqb_spec (length ms) 0) as [E|_]; [lia|].
  split; [reflexivity|]. split; [|split].
  - rewrite majority_ltb. reflexivity.
  - cbn [occupied set_occupied]. apply majority_iff.
  - apply occupied_member_count_bounds.
Qed.

End Groups.

(** The three cases of the specification, on [Examples.half_frame]: members
    [free, free, occupied] give a free group, [occupied, occupied, free] an
    occupied one, and a tie of two occupied out of four a free one. *)
Lemma group_majority_vote_witness :
  exists m',
    ParkingManager.process_group_status Examples.half_frame Examples.grouped = inr m' /\
    ParkingManager.occupied <$> ParkingManager.parking_data m' !! "Group_1"%string
      = Some false /\
    ParkingManager.occupied <$> ParkingManager.parking_data m' !! "Group_2"%string
      = Some true /\
    ParkingManager.occupied <$> ParkingManager.parking_data m' !! "Group_3"%string
      = Some false.
Proof.
  assert (Hwf : OccupancySpec.well_formed
                  (ParkingManager.posList Examples.grouped)).
  { repeat constructor; do 4 eexists; reflexivity. }
  destruct (group_majority_vote Examples.half_frame Examples.grouped
              "Group_1" (Examples.group_slot [0; 1; 2]%nat) [0; 1; 2]%nat Hwf
              ltac:(vm_compute; reflexivity) eq_refl eq_refl ltac:(cbn; lia))
    as (m1 & d1 & Hm1 & Hd1 & Heq1 & _).
  destruct (group_majority_vote Examples.half_frame Examples.grouped
              "Group_2" (Examples.group_slot [2; 3; 0]%nat) [2; 3; 0]%nat Hwf
              ltac:(vm_compute; reflexivity) eq_refl eq_refl ltac:(cbn; lia))
    as (m2 & d2 & Hm2 & Hd2 & Heq2 & _).
  destruct (group_majority_vote Examples.half_frame Examples.grouped
              "Group_3" (Examples.group_slot [0; 1; 2; 3]%nat) [0; 1; 2; 3]%nat Hwf
              ltac:(vm_compute; reflexivity) eq_refl eq_refl ltac:(cbn; lia))
    as (m3 & d3 & Hm3 & Hd3 & Heq3 & _).
  assert (m2 = m1) as -> by congruence.
  assert (m3 = m1) as -> by congruence.
  exists m1. split; [exact Hm1|].
  rewrite Hd1, Hd2, Hd3, Heq1, Heq2, Heq3.
  repeat split; vm_compute; reflexivity.
Defined.

(** ** The occupancy classifier: [last_state_change] *)

Section LastStateChange.
Import ParkingManager OccupancySpec.

Lemma keeps_refl pd : keeps_timestamps pd pd.
Proof. intros id d Hd. exists d. split; [exact Hd | reflexivity]. Qed.

Lemma keeps_trans pd1 pd2 pd3 :
  keeps_timestamps pd1 pd2 -> keeps_timestamps pd2 pd3 -> keeps_timestamps pd1 pd3.
Proof.
  intros H12 H23 id d Hd.
  destruct (H12 id d Hd) as [d2 [Hd2 E2]].
  destruct (H23 id d2 Hd2) as [d3 [Hd3 E3]].
  exists d3. split; [exact Hd3 | congruence].
Qed.

(** Overwriting an entry by one with the same timestamp, or adding an entry
    under a fresh key, keeps the timestamps. *)
Lemma keeps_insert pd key d0 :
  (forall d, pd !! key = Some d -> last_state_change d0 = last_state_change d) ->
  keeps_timestamps pd (<[key := d0]> pd).
Proof.
  intros Hsame id d Hd. destruct (decide (key = id)) as [->|Hne].
  - exists d0. rewrite lookup_insert_eq. split; [reflexivity | apply Hsame, Hd].
  - exists d. rewrite lookup_insert_ne by exact Hne. split; [exact Hd | reflexivity].
Qed.

Lemma update_slots_keeps img thr now (l : list PosEntry) i pd :
  keeps_timestamps pd (update_slots img thr now i l pd).
Proof.
  revert i pd. induction l as [|pos l IH]; intros i pd; [apply keeps_refl|].
  cbn [update_slots]. eapply keeps_trans; [|apply IH].
  destruct pos as [[|x [|y [|w [|h [|? ?]]]]]|]; try apply keeps_refl.
  destruct (in_bounds img x y w h); [|apply keeps_refl].
  destruct (pd !! space_id_of i (section_of img x y)) as [d0|] eqn:E.
  - destruct (manually_set d0); [apply keeps_refl|].
    apply keeps_insert. intros d Hd. rewrite E in Hd. inversion Hd. reflexivity.
  - apply keeps_insert. intros d Hd. rewrite E in Hd. discriminate.
Qed.

Lemma mark_members_keeps img positions g ms pd pd' :
  mark_members img positions g ms pd = inr pd' -> keeps_timestamps pd pd'.
Proof.
  revert pd pd'. induction ms as [|i ms IH]; intros pd pd' Hm; cbn in Hm.
  - inversion Hm. apply keeps_refl.
  - destruct (positions !! i) as [pos|]; [|exact (IH _ _ Hm)].
    destruct (unpack4 pos) as [e|[[[x y] w] h]]; [discriminate|].
    cbn [ebind] in Hm. eapply keeps_trans; [|exact (IH _ _ Hm)].
    destruct (pd !! space_id_of i (section_of img x y)) as [d0|] eqn:E;
      [|apply keeps_refl].
    apply keeps_insert. intros d Hd. rewrite E in Hd. inversion Hd. reflexivity.
Qed.

Lemma mark_groups_keeps img positions items pd pd' :
  mark_groups img positions items pd = inr pd' -> keeps_timestamps pd pd'.
Proof.
  revert pd pd'. induction items as [|[g data] items IH]; intros pd pd' Hm;
    cbn in Hm.
  - inversion Hm. apply keeps_refl.
  - destruct (is_group data); [|exact (IH _ _ Hm)].
    destruct (member_spaces data) as [ms|]; [|exact (IH _ _ Hm)].
    destruct (mark_members img positions g ms pd) as [e|pd1] eqn:E; [discriminate|].
    cbn [ebind] in Hm.
    eapply keeps_trans; [exact (mark_members_keeps _ _ _ _ _ _ E) | exact (IH _ _ Hm)].
Qed.

Lemma update_individual_slots_keeps img now m m' :
  update_individual_slots_in_groups img now m = inr m' ->
  keeps_timestamps (parking_data m) (parking_data m').
Proof.
  unfold update_individual_slots_in_groups. intros Hu.
  destruct (mark_groups _ _ _ _) as [e|pd2] eqn:E; [discriminate|].
  cbn [ebind] in Hu. inversion Hu. cbn [parking_data set_parking_data].
  eapply keeps_trans; [apply update_slots_keeps | exact (mark_groups_keeps _ _ _ _ _ E)].
Qed.

Lemma first_error_found (results : gmap string (exn + Slot)) g e :
  results !! g = Some (inl e) -> first_error results <> None.
Proof.
  intros Hg. unfold first_error.
  assert (He : e ∈ omap (fun kv : string * (exn + Slot) =>
                           match kv.2 with inl e => Some e | inr _ => None end)
                        (map_to_list results)).
  { apply list_elem_of_omap. exists (g, inl e). split; [|reflexivity].
    apply elem_of_map_to_list. exact Hg. }
  destruct (omap _ (map_to_list results)); [inversion He | discriminate].
Qed.

Lemma process_group_status_keeps img m m' :
  process_group_status img m = inr m' ->
  keeps_timestamps (parking_data m) (parking_data m').
Proof.
  unfold process_group_status. intros Hp.
  destruct (first_error _) eqn:Efe; [discriminate|].
  inversion Hp. cbn [parking_data set_parking_data].
  intros id d Hd. rewrite lookup_omap, lookup_fmap, Hd. cbn.
  destruct (group_status img m d) as [e|d'] eqn:Eg.
  - exfalso. eapply first_error_found; [|exact Efe].
    rewrite lookup_fmap, Hd. cbn. rewrite Eg. reflexivity.
  - exists d'. split; [reflexivity|].
    unfold group_status in Eg.
    destruct (is_group d); [|inversion Eg; reflexivity].
    destruct (member_spaces d) as [ms|]; [|inversion Eg; reflexivity].
    destruct (Nat.eqb (length ms) 0); [inversion Eg; reflexivity|].
    destruct (count_occupied_members _ _ _ _); [discriminate|].
    inversion Eg. reflexivity.
Qed.

(** A detection pass of the manager never writes [last_state_change] of an
    existing space or group record, whether or not its [occupied] value
    flips. *)
Lemma detection_pass_keeps_timestamps img now m drawn m' :
  update_allocation_status img now m = inr (drawn, m') ->
  keeps_timestamps (parking_data m) (parking_data m').
Proof.
  unfold update_allocation_status. intros Hu.
  destruct (check_parking_space img m) as [dr m1] eqn:E1.
  assert (Hpd1 : parking_data m1 = parking_data m).
  { unfold check_parking_space in E1.
    destruct (check_spaces _ _ _). inversion E1. reflexivity. }
  destruct (update_individual_slots_in_groups img now m1) as [e|m2] eqn:E2;
    [discriminate|].
  cbn [ebind] in Hu.
  destruct (process_group_status img m2) as [e|m3] eqn:E3; [discriminate|].
  cbn [ebind] in Hu. inversion Hu; subst.
  rewrite <- Hpd1.
  eapply keeps_trans;
    [exact (update_individual_slots_keeps _ _ _ _ E2)
    | exact (process_group_status_keeps _ _ _ E3)].
Qed.

End LastStateChange.

(** The sibling routine [ParkingVisualizer.update_parking_status] does what
    the specification asks: the record gets the new status, and its
    [last_state_change] becomes the current time exactly when the status
    flipped; the other records are untouched. *)
Lemma visualizer_update_one now (pd : gmap string ParkingVisualizer.Slot) id b d :
  pd !! id = Some d ->
  exists d',
    ParkingVisualizer.update_one now pd (id, b) !! id = Some d' /\
    ParkingVisualizer.occupied d' = b /\
    ParkingVisualizer.last_state_change d' =
      (if Bool.eqb (ParkingVisualizer.occupied d) b
       then ParkingVisualizer.last_state_change d else now) /\
    forall id', id' <> id ->
      ParkingVisualizer.update_one now pd (id, b) !! id' = pd !! id'.
Proof.
  intros Hd. unfold ParkingVisualizer.update_one. rewrite Hd.
  eexists. rewrite lookup_insert_eq. split; [reflexivity|].
  split; [destruct b, (ParkingVisualizer.occupied d); reflexivity|].
  split; [destruct b, (ParkingVisualizer.occupied d); reflexivity|].
  intros id' Hne. apply lookup_insert_ne. congruence.
Qed.

Lemma visualizer_update_one_other now (pd : gmap string ParkingVisualizer.Slot)
  id b id' :
  id' <> id -> ParkingVisualizer.update_one now pd (id, b) !! id' = pd !! id'.
Proof.
  intros Hne. unfold ParkingVisualizer.update_one.
  destruct (pd !! id); [|reflexivity]. apply lookup_insert_ne. congruence.
Qed.

Lemma visualizer_untouched now (ids : list string) statuses
  (pd : gmap string ParkingVisualizer.Slot) id :
  id ∉ ids ->
  ParkingVisualizer.update_parking_status ids statuses now pd !! id = pd !! id.
Proof.
  unfold ParkingVisualizer.update_parking_status.
  revert statuses pd. induction ids as [|a ids IH]; intros statuses pd Hnot.
  - reflexivity.
  - destruct statuses as [|b statuses]; [reflexivity|].
    cbn [zip zip_with foldl]. rewrite IH.
    + apply visualizer_update_one_other. intros ->. apply Hnot, list_elem_of_here.
    + intros Hin. apply Hnot, list_elem_of_further, Hin.
Qed.

(** A whole call of [update_parking_status] on distinct space ids: a record
    that is given a status takes it, and its [last_state_change] becomes the
    current time exactly when the status flipped; a record that is given none
    is unchanged. *)
Lemma visualizer_update_parking_status now (ids : list string) statuses
  (pd : gmap string ParkingVisualizer.Slot) id d :
  NoDup ids ->
  pd !! id = Some d ->
  exists d',
    ParkingVisualizer.update_parking_status ids statuses now pd !! id = Some d' /\
    (forall i b, ids !! i = Some id -> statuses !! i = Some b ->
       ParkingVisualizer.occupied d' = b /\
       ParkingVisualizer.last_state_change d' =
         (if Bool.eqb (ParkingVisualizer.occupied d) b
          then ParkingVisualizer.last_state_change d else now)) /\
    ((forall i, ids !! i = Some id -> statuses !! i = None) -> d' = d).
Proof.
  revert statuses pd d. induction ids as [|a ids IH]; intros statuses pd d Hnd Hd.
  - exists d. split; [exact Hd|]. split; [intros i b Hi; discriminate | reflexivity].
  - destruct statuses as [|b0 statuses].
    { exists d. split; [exact Hd|].
      split; [intros i b _ Hb; discriminate | reflexivity]. }
    apply NoDup_cons in Hnd. destruct Hnd as [Ha Hnd].
    unfold ParkingVisualizer.update_parking_status. cbn [zip zip_with foldl].
    change (foldl (ParkingVisualizer.update_one now) ?p (zip_with pair ids statuses))
      with (ParkingVisualizer.update_parking_status ids statuses now p).
    destruct (decide (a = id)) as [->|Hne].
    + destruct (visualizer_update_one now pd id b0 d Hd) as (d1 & Hd1 & Ho & Hl & _).
      exists d1. rewrite visualizer_untouched by exact Ha.
      split; [exact Hd1|]. split.
      * intros [|i] b Hi Hb.
        -- cbn in Hb. inversion Hb; subst b. split; [exact Ho | exact Hl].
        -- exfalso. apply Ha. eapply list_elem_of_lookup_2. exact Hi.
      * intros Hnone. specialize (Hnone 0%nat eq_refl). discriminate.
    + assert (Hd1 : ParkingVisualizer.update_one now pd (a, b0) !! id = Some d).
      { rewrite visualizer_update_one_other by congruence. exact Hd. }
      destruct (IH statuses _ d Hnd Hd1) as (d' & Hd' & Hset & Hkeep).
      exists d'. split; [exact Hd'|]. split.
      * intros [|i] b Hi Hb; [cbn in Hi; congruence|]. exact (Hset i b Hi Hb).
      * intros Hnone. apply Hkeep. intros i Hi. exact (Hnone (S i) Hi).
Qed.


(** ** The frame-differencing counter: [detect_vehicles] *)

Section Differencing.
Import ParkingManager.

Lemma crosses_iff line_y off y :
  crosses line_y off y = true <-> line_y - off < y < line_y + off.
Proof.
  unfold crosses. rewrite andb_true_iff, !Z.ltb_lt. tauto.
Qed.

(** The loop counts the centroids of the band and keeps the others, in order. *)
Lemma count_crossings_spec line_y off (ms : list (Z * Z)) :
  count_crossings line_y off ms =
    (Z.of_nat (length (List.filter (fun c : Z * Z => crosses line_y off c.2) ms)),
     List.filter (fun c : Z * Z => negb (crosses line_y off c.2)) ms).
Proof.
  induction ms as [|[x y] ms IH]; [reflexivity|].
  cbn [count_crossings List.filter snd]. rewrite IH.
  destruct (crosses line_y off y); cbn [negb length]; f_equal; lia.
Qed.

(** Nothing is left to count in the list the loop keeps. *)
Lemma count_crossings_kept line_y off (ms : list (Z * Z)) :
  List.filter (fun c : Z * Z => crosses line_y off c.2)
              (List.filter (fun c : Z * Z => negb (crosses line_y off c.2)) ms) = [].
Proof.
  induction ms as [|[x y] ms IH]; [reflexivity|].
  cbn [List.filter snd]. destruct (crosses line_y off y) eqn:E; cbn [negb].
  - exact IH.
  - cbn [List.filter snd]. rewrite E. exact IH.
Qed.

(** C5, as the code has it.  The band is open and lies around the line as
    drawn: a tracked centroid (carried over or new in this frame) is counted
    exactly when [line_y - offset < y < line_y + offset], where [line_y] is
    the configured line height, or the frame height minus 50 when the line
    height is not below the frame height.  Each counted centroid adds one to
    the counter and is dropped from the tracked list, the others are carried
    over in order, so a following call on a frame of the same height without
    new contours counts nothing. *)
Theorem detect_vehicles_band (frame_height : Z) (rects : list (Z * Z * Z * Z))
  (m : Manager) :
  let line_y := effective_line m frame_height in
  let tracked :=
    matches m ++ contour_centroids (min_contour_width m) (min_contour_height m) rects in
  let counted (c : Z * Z) := crosses line_y (offset m) c.2 in
  let m' := detect_vehicles frame_height rects m in
  (forall c, counted c = true <-> line_y - offset m < c.2 < line_y + offset m) /\
  vehicle_counter m' =
    vehicle_counter m + Z.of_nat (length (List.filter counted tracked)) /\
  matches m' = List.filter (fun c => negb (counted c)) tracked /\
  (forall c, In c (matches m') -> In c tracked /\ counted c = false) /\
  (forall c, In c tracked -> counted c = false -> In c (matches m')) /\
  vehicle_counter (detect_vehicles frame_height [] m') = vehicle_counter m' /\
  matches (detect_vehicles frame_height [] m') = matches m'.
Proof.
  cbv zeta. unfold detect_vehicles.
  rewrite count_crossings_spec. cbn [vehicle_counter matches set_counting].
  split; [intros c; apply crosses_iff|].
  split; [reflexivity|]. split; [reflexivity|].
  split.
  { intros c Hc. apply filter_In in Hc. destruct Hc as [Hin Hn].
    split; [exact Hin|]. apply negb_true_iff in Hn. exact Hn. }
  split.
  { intros c Hin Hn. apply filter_In. split; [exact Hin|]. rewrite Hn. reflexivity. }
  unfold effective_line.
  cbn [line_height min_contour_width min_contour_height offset set_counting
       contour_centroids vehicle_counter matches].
  rewrite app_nil_r, count_crossings_spec.
  cbn [fst snd vehicle_counter matches set_counting].
  rewrite count_crossings_kept. cbn [length]. split; [lia|].
  set (f := fun c : Z * Z => negb (crosses _ (offset m) c.2)).
  generalize (matches m ++
              contour_centroids (min_contour_width m) (min_contour_height m) rects).
  intros l. induction l as [|c l IH]; [reflexivity|].
  cbn [List.filter]. destruct (f c) eqn:E; [|exact IH].
  cbn [List.filter]. rewrite E. f_equal. exact IH.
Qed.

End Differencing.

(** C5 as stated fails at the ends of the closed interval: with the line at
    400 and the offset 10, a centroid at [y = 390 = lineHeight - offset] is
    not counted and stays in the tracked list. *)
Lemma band_end_not_counted :
  400 - 10 <= 390 <= 400 + 10 /\
  ParkingManager.vehicle_counter
    (ParkingManager.detect_vehicles 720 []
       (ParkingManager.set_counting 0 [(5, 390)] ParkingManager.init)) = 0 /\
  ParkingManager.matches
    (ParkingManager.detect_vehicles 720 []
       (ParkingManager.set_counting 0 [(5, 390)] ParkingManager.init)) = [(5, 390)].
Proof.
  split; [lia|]. split; reflexivity.
Qed.

(** ** Rescaling *)

Section Rescale.
Import App.

(** The rectangles a rescale reads: the reference copies, or the display
    rectangles when no reference copy exists yet. *)
Lemma rescale_original (w h : Z) (s : State) rw rh :
  reference_dimensions s !! current_reference_image s = Some (rw, rh) ->
  original_posList (rescale w h s) =
    Some (match original_posList s with
          | None | Some [] => posList s
          | Some l => l
          end).
Proof.
  intros Href. unfold rescale, scale_positions_to_current_dimensions.
  cbn [image_size current_reference_image reference_dimensions original_posList
       posList log].
  rewrite Href. destruct ((rw =? 0) || (rh =? 0)); reflexivity.
Qed.

(** [rescale] on the application state recomputes the display rectangles
    from the reference copies: with a known, non-zero reference resolution
    and a non-empty reference list [l], the display list is [l] scaled by
    [w / ref_width] and [h / ref_height], whatever the display list was. *)
Lemma rescale_from_reference (w h : Z) (s : State) rw rh l :
  reference_dimensions s !! current_reference_image s = Some (rw, rh) ->
  rw <> 0 -> rh <> 0 ->
  original_posList s = Some l -> l <> [] ->
  posList (rescale w h s) =
    (scale_from (inject_Z w / inject_Z rw) (inject_Z h / inject_Z rh) l).1.
Proof.
  intros Href Hrw Hrh Ho Hl. unfold rescale, scale_positions_to_current_dimensions.
  cbn [image_size current_reference_image reference_dimensions original_posList
       posList log].
  rewrite Href, Ho.
  destruct (Z.eqb_spec rw 0); [contradiction|].
  destruct (Z.eqb_spec rh 0); [contradiction|].
  destruct l; [contradiction|]. reflexivity.
Qed.

(** Idempotence of [rescale] on the application state: two rescales in a row
    leave the display rectangles that the second one alone produces. *)
Lemma rescale_twice (w1 h1 w2 h2 : Z) (s : State) :
  posList (rescale w2 h2 (rescale w1 h1 s)) = posList (rescale w2 h2 s).
Proof.
  unfold rescale, scale_positions_to_current_dimensions.
  cbn [image_size current_reference_image reference_dimensions original_posList
       posList log].
  destruct (reference_dimensions s !! current_reference_image s) as [[rw rh]|] eqn:Href.
  - destruct ((rw =? 0) || (rh =? 0)) eqn:Ez;
      cbn [image_size current_reference_image reference_dimensions
           original_posList posList log add_log];
      rewrite Href, Ez;
      cbn [image_size current_reference_image reference_dimensions
           original_posList posList log add_log].
    + reflexivity.
    + destruct (original_posList s) as [[|p l]|]; try reflexivity;
        destruct (posList s) as [|p l]; reflexivity.
  - cbn [image_size current_reference_image reference_dimensions
         original_posList posList log add_log].
    rewrite Href. reflexivity.
Qed.

End Rescale.

(** Scenario A on the application state: the rectangle (100, 100, 50, 50)
    drawn at 1280 x 720 is displayed at (50, 50, 25, 25) on a 640 x 360 video,
    also after an intermediate rescale to 1920 x 1080. *)
Lemma scenario_a_rescale :
  App.posList (App.rescale 640 360 Examples.calibrated)
    = [App.PosTuple [50; 50; 25; 25]] /\
  App.posList (App.rescale 640 360 (App.rescale 1920 1080 Examples.calibrated))
    = [App.PosTuple [50; 50; 25; 25]].
Proof. split; vm_compute; reflexivity. Qed.


(** ** The detector and association strategy: counting once per track *)

Section Tracking.
Import VehicleTracker TrackerSpec.

(** One iteration of the loop: flags are never cleared; the count and the
    highlights either stay, or the track of the iteration, not counted so far,
    is flagged, highlighted and counted once. *)
Lemma process_track_spec lh off (tv : gmap Z Vehicle) n hl (tr : Track) :
  let st' := process_track lh off (tv, n, hl) tr in
  (forall id, counted_in tv id -> counted_in st'.1.1 id) /\
  ((st'.1.2 = n /\ st'.2 = hl /\
    forall id, counted_in st'.1.1 id -> counted_in tv id) \/
   (st'.1.2 = n + 1 /\ st'.2 = hl ++ [tr.1.1] /\
    ~ counted_in tv tr.1.1 /\ counted_in st'.1.1 tr.1.1 /\
    forall id, counted_in st'.1.1 id -> counted_in tv id \/ id = tr.1.1)).
Proof.
  destruct tr as [[tid [[[x1 y1] x2] y2]] cls]. cbn [fst snd].
  unfold process_track.
  set (v := match tv !! tid with
            | None => mkVehicle [((x1 + x2) / 2, (y1 + y2) / 2)] false cls
            | Some v0 => _
            end).
  assert (Hv : counted v = true <-> counted_in tv tid).
  { unfold counted_in, v. destruct (tv !! tid) as [v0|] eqn:E; cbn [counted].
    - split; [intros Hc; exists v0; auto | intros [v1 [Hv1 Hc]]; congruence].
    - split; [discriminate | intros [v1 [Hv1 _]]; discriminate]. }
  assert (Hkeep : forall v1 : Vehicle,
             (counted v = true -> counted v1 = true) ->
             forall id, counted_in tv id -> counted_in (<[tid := v1]> tv) id).
  { intros v1 Hv1 id Hid. destruct (decide (tid = id)) as [->|Hne].
    - exists v1. rewrite lookup_insert_eq. split; [reflexivity|].
      apply Hv1, Hv, Hid.
    - destruct Hid as [v2 [Hv2 Hc]]. exists v2.
      rewrite lookup_insert_ne by exact Hne. auto. }
  assert (Hback : forall v1 : Vehicle,
             forall id, counted_in (<[tid := v1]> tv) id ->
                        counted_in tv id \/ (id = tid /\ counted v1 = true)).
  { intros v1 id [v2 [Hv2 Hc]]. destruct (decide (tid = id)) as [->|Hne].
    - rewrite lookup_insert_eq in Hv2. inversion Hv2; subst. right. auto.
    - rewrite lookup_insert_ne in Hv2 by exact Hne. left. exists v2. auto. }
  assert (Hsame : forall id, counted_in (<[tid := v]> tv) id -> counted_in tv id).
  { intros id Hid. destruct (Hback v id Hid) as [Hold|[-> Hc]]; [exact Hold|].
    apply Hv, Hc. }
  destruct (counted v) eqn:Ec.
  { cbn [fst snd]. split; [apply Hkeep; congruence|]. left. auto. }
  destruct (last_two_y (positions v)) as [[prev_y curr_y]|].
  2:{ cbn [fst snd]. split; [apply Hkeep; congruence|]. left. auto. }
  destruct ((prev_y <? lh - off) && (lh + off <? curr_y)).
  2:{ cbn [fst snd]. split; [apply Hkeep; congruence|]. left. auto. }
  cbn [fst snd]. split; [apply Hkeep; intros; reflexivity|].
  right. split; [reflexivity|]. split; [reflexivity|]. split.
  { intros Hc. apply Hv in Hc. discriminate. }
  split.
  { eexists. rewrite lookup_insert_eq. split; reflexivity. }
  intros id Hid. destruct (Hback _ id Hid) as [H|[-> _]]; auto.
Qed.

(** The loop of [_process_tracks], started with highlights that are all
    flagged and pairwise distinct. *)
Lemma process_tracks_inv lh off (tracks : list Track) (tv : gmap Z Vehicle) n hl :
  (forall id, id ∈ hl -> counted_in tv id) -> NoDup hl ->
  let st' := foldl (process_track lh off) (tv, n, hl) tracks in
  (forall id, counted_in tv id -> counted_in st'.1.1 id) /\
  exists new,
    st'.2 = hl ++ new /\ st'.1.2 = n + Z.of_nat (length new) /\
    NoDup st'.2 /\
    (forall id, id ∈ st'.2 -> counted_in st'.1.1 id) /\
    (forall id, id ∈ new -> ~ counted_in tv id) /\
    (forall id, counted_in st'.1.1 id -> counted_in tv id \/ id ∈ new).
Proof.
  revert tv n hl. induction tracks as [|tr tracks IH]; intros tv n hl Hhl Hnd.
  - cbn. split; [auto|]. exists []. rewrite app_nil_r. cbn.
    repeat split; auto; try lia. intros id Hid. inversion Hid.
  - cbn [foldl].
    pose proof (process_track_spec lh off tv n hl tr) as Hstep. cbv zeta in Hstep.
    destruct (process_track lh off (tv, n, hl) tr) as [[tv1 n1] hl1] eqn:E1.
    cbn [fst snd] in Hstep. destruct Hstep as [Hmono Hcases].
    assert (Hhl1 : forall id, id ∈ hl1 -> counted_in tv1 id).
    { destruct Hcases as [(_ & -> & _)|(_ & -> & _ & Hnew & _)].
      - intros id Hid. apply Hmono, Hhl, Hid.
      - intros id Hid. apply elem_of_app in Hid. destruct Hid as [Hid|Hid].
        + apply Hmono, Hhl, Hid.
        + apply list_elem_of_singleton in Hid. subst. exact Hnew. }
    assert (Hnd1 : NoDup hl1).
    { destruct Hcases as [(_ & -> & _)|(_ & -> & Hfresh & _)]; [exact Hnd|].
      apply NoDup_app. split; [exact Hnd|]. split; [|apply NoDup_singleton].
      intros id Hid Hin. apply list_elem_of_singleton in Hin. subst.
      apply Hfresh, Hhl, Hid. }
    specialize (IH tv1 n1 hl1 Hhl1 Hnd1). cbv zeta in IH.
    destruct (foldl (process_track lh off) (tv1, n1, hl1) tracks)
      as [[tv2 n2] hl2] eqn:E2.
    cbn [fst snd] in *.
    destruct IH as [Hmono2 (new & Ehl & En & Hnd2 & Hall & Hfresh & Hback)].
    split; [intros id Hid; apply Hmono2, Hmono, Hid|].
    destruct Hcases as [(-> & -> & Hb1)|(-> & -> & Hnot & Hnew & Hb1)].
    + exists new. repeat split; auto.
      * intros id Hid Hc. apply (Hfresh id Hid). apply Hmono, Hc.
      * intros id Hid. destruct (Hback id Hid) as [H|H]; auto.
    + exists (tr.1.1 :: new). subst hl2.
      rewrite <- app_assoc in Hnd2, Hall |- *. cbn [app length] in *.
      repeat split; auto.
      * lia.
      * intros id Hid Hc. apply elem_of_cons in Hid. destruct Hid as [->|Hid].
        -- exact (Hnot Hc).
        -- apply (Hfresh id Hid). apply Hmono, Hc.
      * intros id Hid. destruct (Hback id Hid) as [Hc1|Hin].
        -- destruct (Hb1 id Hc1) as [Hc0| ->]; [left; exact Hc0|].
           right. apply list_elem_of_here.
        -- right. apply list_elem_of_further. exact Hin.
Qed.

(** A whole session, started in any state and with any earlier highlights
    [log] that are all flagged and pairwise distinct. *)
Lemma run_inv (frames : list ((exn + list Track) * option Z * Z)) (t : Tracker) log :
  (forall id, id ∈ log -> counted_in (tracked_vehicles t) id) -> NoDup log ->
  (forall id, counted_in (tracked_vehicles t) id ->
              counted_in (tracked_vehicles (run frames t).2) id) /\
  NoDup (log ++ (run frames t).1) /\
  vehicle_count (run frames t).2 =
    vehicle_count t + Z.of_nat (length (run frames t).1) /\
  (forall id, id ∈ (run frames t).1 ->
              ~ counted_in (tracked_vehicles t) id /\
              counted_in (tracked_vehicles (run frames t).2) id) /\
  (forall id, counted_in (tracked_vehicles (run frames t).2) id ->
              counted_in (tracked_vehicles t) id \/ id ∈ (run frames t).1).
Proof.
  revert t log. induction frames as [|[[tracks lh] off] frames IH]; intros t log Hlog Hnd.
  - cbn. rewrite app_nil_r. split; [auto|]. split; [exact Hnd|]. split; [lia|].
    split; [intros id Hid; inversion Hid | auto].
  - cbn [run].
    destruct (process_frame tracks lh off t) as [h1 t1] eqn:E1.
    assert (Hframe :
      (forall id, counted_in (tracked_vehicles t) id ->
                  counted_in (tracked_vehicles t1) id) /\
      NoDup (log ++ h1) /\
      vehicle_count t1 = vehicle_count t + Z.of_nat (length h1) /\
      (forall id, id ∈ log ++ h1 -> counted_in (tracked_vehicles t1) id) /\
      (forall id, id ∈ h1 -> ~ counted_in (tracked_vehicles t) id) /\
      (forall id, counted_in (tracked_vehicles t1) id ->
                  counted_in (tracked_vehicles t) id \/ id ∈ h1)).
    { unfold process_frame in E1.
      destruct tracks as [e|trs]; [|destruct lh as [lh|]].
      1,3: inversion E1; subst; rewrite app_nil_r; cbn;
        repeat split; auto; try lia; intros id Hid; inversion Hid.
      unfold _process_tracks in E1.
      pose proof (process_tracks_inv lh off trs (tracked_vehicles t)
                    (vehicle_count t) [] ltac:(intros id Hid; inversion Hid)
                    (NoDup_nil_2)) as Hinv.
      cbv zeta in Hinv.
      destruct (foldl _ _ trs) as [[tv1 n1] hl1]. inversion E1; subst. clear E1.
      cbn [fst snd tracked_vehicles vehicle_count] in *.
      destruct Hinv as [Hmono (new & Ehl & En & Hnd1 & Hall & Hfresh & Hback)].
      cbn [app] in Ehl. subst new.
      repeat split; auto.
      - apply NoDup_app. split; [exact Hnd|]. split; [|exact Hnd1].
        intros id Hid Hin. apply (Hfresh id Hin). apply Hlog, Hid.
      - intros id Hid. apply elem_of_app in Hid. destruct Hid as [Hid|Hid].
        + apply Hmono, Hlog, Hid.
        + apply Hall, Hid. }
    destruct Hframe as (Hmono & Hnd1 & Hcount & Hall & Hfresh & Hback).
    specialize (IH t1 (log ++ h1) Hall Hnd1).
    destruct (run frames t1) as [h2 t2] eqn:E2. cbn [fst snd] in *.
    destruct IH as (Hmono2 & Hnd2 & Hcount2 & Hnew2 & Hback2).
    split; [intros id Hid; apply Hmono2, Hmono, Hid|].
    split; [rewrite app_assoc; exact Hnd2|].
    split; [rewrite length_app; lia|].
    split.
    + intros id Hid. apply elem_of_app in Hid. destruct Hid as [Hid|Hid].
      * split; [apply Hfresh, Hid|].
        apply Hmono2, Hall. apply elem_of_app. right. exact Hid.
      * destruct (Hnew2 id Hid) as [Hn Hc2]. split; [|exact Hc2].
        intros Hc. apply Hn, Hmono, Hc.
    + intros id Hid. destruct (Hback2 id Hid) as [Hc1|Hin2].
      * destruct (Hback id Hc1) as [Hc0|Hin1]; [left; exact Hc0|].
        right. apply elem_of_app. left. exact Hin1.
      * right. apply elem_of_app. right. exact Hin2.
Qed.

(** C8.  Over any session, from any state of the tracker: a [counted] flag
    that is set stays set; the tracks highlighted as counted are pairwise
    distinct, none of them was flagged before and all of them are flagged
    afterwards; the vehicle count grows by exactly the number of highlighted
    tracks, one per track at most, however the centroids move around the
    line.  Only [reset_count] clears the flags, together with all tracked
    identities and the count. *)
Theorem counted_at_most_once
  (frames : list ((exn + list Track) * option Z * Z)) (t : Tracker) :
  (forall id, counted_in (tracked_vehicles t) id ->
              counted_in (tracked_vehicles (run frames t).2) id) /\
  NoDup (run frames t).1 /\
  vehicle_count (run frames t).2 =
    vehicle_count t + Z.of_nat (length (run frames t).1) /\
  (forall id, id ∈ (run frames t).1 ->
              ~ counted_in (tracked_vehicles t) id /\
              counted_in (tracked_vehicles (run frames t).2) id) /\
  (forall id, counted_in (tracked_vehicles (run frames t).2) id ->
              counted_in (tracked_vehicles t) id \/ id ∈ (run frames t).1) /\
  tracked_vehicles (reset_count t) = ∅ /\ vehicle_count (reset_count t) = 0.
Proof.
  destruct (run_inv frames t [] ltac:(intros id Hid; inversion Hid) (NoDup_nil_2))
    as (Hmono & Hnd & Hcount & Hnew & Hback).
  cbn [app] in Hnd.
  split; [exact Hmono|]. split; [exact Hnd|]. split; [exact Hcount|].
  split; [exact Hnew|]. split; [exact Hback|]. split; reflexivity.
Qed.

End Tracking.

(** A centroid that moves back and forth over the line three times is counted
    once. *)
Lemma oscillation_counted_once :
  (VehicleTracker.run Examples.oscillation VehicleTracker.init).1 = [7] /\
  VehicleTracker.vehicle_count
    (VehicleTracker.run Examples.oscillation VehicleTracker.init).2 = 1.
Proof. split; vm_compute; reflexivity. Qed.

(** ** Loading the persisted positions *)

Section Loading.
Import PositionsFile.

Lemma key_seen_iff seen k : key_seen seen k = true <-> k ∈ seen.
Proof.
  unfold key_seen. rewrite existsb_exists. split.
  - intros [k' [Hin Hk]]. apply bool_decide_eq_true in Hk. subst.
    apply list_elem_of_In. exact Hin.
  - intros Hin. exists k. split; [apply list_elem_of_In; exact Hin|].
    apply bool_decide_eq_true. reflexivity.
Qed.

(** What the duplicate-removal loop keeps comes from its input and has a key
    not seen before; the kept keys are pairwise distinct. *)
Lemma unique_from_sound (l : list pyval) seen :
  (forall pos, pos ∈ unique_from seen l -> pos ∈ l /\ int_key pos ∉ seen) /\
  NoDup (map int_key (unique_from seen l)).
Proof.
  revert seen. induction l as [|p l IH]; intros seen.
  - cbn. split; [intros pos Hpos; inversion Hpos | constructor].
  - cbn [unique_from]. destruct (key_seen seen (int_key p)) eqn:E.
    + destruct (IH seen) as [Hsub Hnd]. split; [|exact Hnd].
      intros pos Hpos. destruct (Hsub pos Hpos). split; [|assumption].
      apply list_elem_of_further. assumption.
    + destruct (IH (int_key p :: seen)) as [Hsub Hnd]. split.
      * intros pos Hpos. apply elem_of_cons in Hpos. destruct Hpos as [->|Hpos].
        -- split; [apply list_elem_of_here|].
           intros Hin. apply key_seen_iff in Hin. congruence.
        -- destruct (Hsub pos Hpos) as [Hin Hnot]. split.
           ++ apply list_elem_of_further. exact Hin.
           ++ intros Hs. apply Hnot. apply list_elem_of_further. exact Hs.
      * cbn [map]. apply NoDup_cons. split; [|exact Hnd].
        intros Hin. apply list_elem_of_fmap in Hin.
        destruct Hin as [pos [Hk Hpos]].
        destruct (Hsub pos Hpos) as [_ Hnot]. apply Hnot. rewrite <- Hk.
        apply list_elem_of_here.
Qed.






End Loading.


(** * Further properties of the code *)

(** ** The allocation engine: what an allocation does to the engine *)

Section AllocationEffects.
Import AllocationEngine AllocationSpec.
Context {M : Type} `{Classifier M}.

Lemma build_features_lookup now vs (l : list (string * SpaceData)) rows i id d :
  build_features now vs l = inr rows ->
  l !! i = Some (id, d) ->
  exists dist,
    distance_to_entrance d = Some dist /\
    rows !! i = Some [dist; ((now - last_state_change d) / 60)%Q; inject_Z vs].
Proof.
  revert rows i. induction l as [|[id0 d0] l IH]; intros rows i Hb Hi; [discriminate|].
  cbn [build_features] in Hb.
  destruct (distance_to_entrance d0) as [dist0|] eqn:Ed; [|discriminate].
  destruct (build_features now vs l) as [e|rows'] eqn:E; [discriminate|].
  inversion Hb; subst rows. destruct i as [|i]; cbn in Hi |- *.
  - inversion Hi; subst. exists dist0. split; [exact Ed | reflexivity].
  - exact (IH rows' i eq_refl Hi).
Qed.

(** The only way a row cannot be built is a missing [distance_to_entrance]. *)
Lemma build_features_missing now vs (l : list (string * SpaceData)) id d :
  In (id, d) l -> distance_to_entrance d = None ->
  build_features now vs l = inl (KeyError "distance_to_entrance").
Proof.
  induction l as [|[id0 d0] l IH]; intros Hin Hd; [destruct Hin|].
  cbn [build_features]. destruct (distance_to_entrance d0) eqn:E0; [|reflexivity].
  destruct Hin as [Heq|Hin]; [inversion Heq; subst; congruence|].
  rewrite (IH Hin Hd). reflexivity.
Qed.

(** The state after a returned allocation. *)
Lemma allocate_parking_returned_state (s : Engine M) sd vs pref now id sc s' :
  allocate_parking sd vs pref now s = Returned (Some id, sc) s' ->
  lock_held s = false /\
  exists i d dist,
    candidates sd !! i = Some (id, d) /\
    distance_to_entrance d = Some dist /\
    s' = append_history
           (mkAllocation now id vs sc
              [dist; ((now - last_state_change d) / 60)%Q; inject_Z vs])
           (set_parking_stats
              ((stats_of <$> count_sections sd) ∪ parking_stats s) s).
Proof.
  intros Hret.
  destruct (lock_held s) eqn:Hlock.
  { rewrite allocate_parking_locked in Hret by exact Hlock. discriminate. }
  split; [reflexivity|].
  rewrite allocate_parking_unfold in Hret by exact Hlock. cbv zeta in Hret.
  destruct (candidates sd) as [|c cs] eqn:Ec; [discriminate|]. rewrite <- Ec in *.
  destruct (build_features now vs (candidates sd)) as [e|rows] eqn:Erows; [discriminate|].
  destruct (predict_proba (model s) rows) as [e|scores]; [discriminate|].
  destruct (balance _ _ pref scores 0 (map fst (candidates sd))) as [e|bs];
    [discriminate|].
  destruct bs as [|b0 bs0] eqn:Ebs; [discriminate|]. rewrite <- Ebs in *.
  destruct (map fst (candidates sd) !! argmax bs) as [id'|] eqn:Eid; [|discriminate].
  destruct (bs !! argmax bs) as [sc'|]; [|discriminate].
  destruct (rows !! argmax bs) as [f|] eqn:Ef; [|discriminate].
  inversion Hret; subst id' sc' s'. clear Hret.
  rewrite list_lookup_fmap in Eid.
  destruct (candidates sd !! argmax bs) as [[id0 d]|] eqn:Ecand; [|discriminate].
  cbn in Eid. inversion Eid; subst id0.
  destruct (build_features_lookup _ _ _ _ _ _ _ Erows Ecand) as [dist [Hd Hrow]].
  rewrite Ef in Hrow. inversion Hrow; subst f.
  exists (argmax bs), d, dist. split; [exact Ecand|]. split; [exact Hd | reflexivity].
Qed.

(** X1.  [allocate_parking] never hands out an occupied or unknown space: a
    returned id is a key of the occupancy map whose entry is marked free. *)
Theorem allocate_parking_returns_free_space (s : Engine M) sd vs pref now id sc s' :
  allocate_parking sd vs pref now s = Returned (Some id, sc) s' ->
  exists d, In (id, d) sd /\ occupied d = false.
Proof.
  intros Hret.
  destruct (allocate_parking_returned_state _ _ _ _ _ _ _ _ Hret)
    as [_ (i & d & dist & Hc & _ & _)].
  exists d. apply list_elem_of_lookup_2, list_elem_of_In in Hc.
  unfold candidates in Hc. apply filter_In in Hc. destruct Hc as [Hin Hfree].
  split; [exact Hin|]. apply negb_true_iff in Hfree. exact Hfree.
Qed.

(** X2.  What a returned allocation changes in the engine: exactly one entry
    is appended to the allocation history, recording the time, the returned
    space and score, the vehicle size and the feature row of that space; the
    model, the model file, the feedback buffer and the weight are untouched
    and the lock is free again. *)
Theorem allocate_parking_logs_allocation (s : Engine M) sd vs pref now id sc s' :
  allocate_parking sd vs pref now s = Returned (Some id, sc) s' ->
  (exists d dist,
      In (id, d) sd /\ distance_to_entrance d = Some dist /\
      allocation_history s' =
        allocation_history s ++
          [mkAllocation now id vs sc
             [dist; ((now - last_state_change d) / 60)%Q; inject_Z vs]]) /\
  model s' = model s /\
  model_file s' = model_file s /\
  feedback_data s' = feedback_data s /\
  load_balancing_weight s' = load_balancing_weight s /\
  lock_held s' = false.
Proof.
  intros Hret.
  destruct (allocate_parking_returned_state _ _ _ _ _ _ _ _ Hret)
    as [Hlock (i & d & dist & Hc & Hd & ->)].
  cbn [append_history set_parking_stats allocation_history model model_file
       feedback_data load_balancing_weight lock_held].
  split; [|repeat split; exact Hlock].
  exists d, dist. split; [exact (candidates_In _ _ _ _ Hc)|].
  split; [exact Hd | reflexivity].
Qed.

(** X3.  [allocate_parking] answers [(None, score)] only when no space of the
    map is free; the score is then 0 and nothing is logged. *)
Theorem allocate_parking_none_means_full (s : Engine M) sd vs pref now sc s' :
  allocate_parking sd vs pref now s = Returned (None, sc) s' ->
  candidates sd = [] /\ sc = 0%Q /\
  allocation_history s' = allocation_history s /\
  feedback_data s' = feedback_data s /\ model s' = model s.
Proof.
  intros Hret.
  destruct (lock_held s) eqn:Hlock.
  { rewrite allocate_parking_locked in Hret by exact Hlock. discriminate. }
  rewrite allocate_parking_unfold in Hret by exact Hlock. cbv zeta in Hret.
  destruct (candidates sd) as [|c cs] eqn:Ec.
  { inversion Hret; subst. repeat split. }
  exfalso. rewrite <- Ec in *.
  destruct (build_features now vs (candidates sd)) as [e|rows]; [discriminate|].
  destruct (predict_proba (model s) rows) as [e|scores]; [discriminate|].
  destruct (balance _ _ pref scores 0 (map fst (candidates sd))) as [e|bs] eqn:Ebs;
    [discriminate|].
  destruct (balance_spec _ _ _ _ _ _ _ Ebs) as [Hlen _].
  rewrite length_map, Ec in Hlen.
  destruct bs as [|b0 bs0] eqn:Eb; [discriminate|]. rewrite <- Eb in *.
  destruct (map fst (candidates sd) !! argmax bs); [|discriminate].
  destruct (bs !! argmax bs); [|discriminate].
  destruct (rows !! argmax bs); discriminate.
Qed.

(** X4.  A free entry without the key [distance_to_entrance] (a group entry
    written by [sync_group_data] has none) makes [allocate_parking] raise
    [KeyError]: the exception reaches the caller, nothing is logged and the
    lock is free. *)
Theorem allocate_parking_missing_distance (s : Engine M) sd vs pref now id d :
  lock_held s = false ->
  In (id, d) sd -> occupied d = false -> distance_to_entrance d = None ->
  allocate_parking sd vs pref now s =
    Raised (KeyError "distance_to_entrance")
           (set_parking_stats
              ((stats_of <$> count_sections sd) ∪ parking_stats s) s).
Proof.
  intros Hlock Hin Hfree Hd.
  assert (Hc : In (id, d) (candidates sd)).
  { unfold candidates. apply filter_In. split; [exact Hin|].
    cbn. rewrite Hfree. reflexivity. }
  rewrite allocate_parking_unfold by exact Hlock. cbv zeta.
  rewrite (build_features_missing now vs _ id d Hc Hd).
  destruct (candidates sd); [destruct Hc | reflexivity].
Qed.

End AllocationEffects.

(** On [Examples.lot] the allocation returns S7-B1, which the map marks
    free. *)
Lemma allocate_parking_returns_free_space_witness :
  exists d, In ("S7-B1"%string, d) Examples.lot /\ AllocationEngine.occupied d = false.
Proof.
  exact (@allocate_parking_returns_free_space nat Examples.toy_classifier
           (AllocationEngine.init 0%nat)
           Examples.lot 1 None 600%Q "S7-B1"%string Examples.allocated_score
           Examples.engine_with_history ltac:(vm_compute; reflexivity)).
Defined.

(** On [Examples.lot] the allocation logs one entry for S7-B1 and leaves the
    feedback buffer empty. *)
Lemma allocate_parking_logs_allocation_witness :
  length (AllocationEngine.allocation_history Examples.engine_with_history) = 1%nat /\
  AllocationEngine.feedback_data Examples.engine_with_history = [] /\
  AllocationEngine.lock_held Examples.engine_with_history = false.
Proof.
  destruct (@allocate_parking_logs_allocation nat Examples.toy_classifier
              (AllocationEngine.init 0%nat)
              Examples.lot 1 None 600%Q "S7-B1"%string Examples.allocated_score
              Examples.engine_with_history ltac:(vm_compute; reflexivity))
    as ((d & dist & _ & _ & Hh) & _ & _ & Hf & _ & Hl).
  split; [rewrite Hh; reflexivity|]. split; [exact Hf | exact Hl].
Defined.

(** On [Examples.full_lot] the engine answers [(None, 0)]. *)
Lemma allocate_parking_none_means_full_witness :
  AllocationEngine.allocate_parking Examples.full_lot 1 None 600%Q
      (AllocationEngine.init 0%nat) =
    AllocationEngine.Returned (None, 0%Q)
      (Examples.state_after
         (AllocationEngine.allocate_parking Examples.full_lot 1 None 600%Q
            (AllocationEngine.init 0%nat))) /\
  AllocationSpec.candidates Examples.full_lot = [].
Proof.
  assert (Hrun :
    AllocationEngine.allocate_parking Examples.full_lot 1 None 600%Q
        (AllocationEngine.init 0%nat) =
      AllocationEngine.Returned (None, 0%Q)
        (Examples.state_after
           (AllocationEngine.allocate_parking Examples.full_lot 1 None 600%Q
              (AllocationEngine.init 0%nat))))
    by (vm_compute; reflexivity).
  split; [exact Hrun|].
  exact (proj1 (allocate_parking_none_means_full _ _ _ _ _ _ _ Hrun)).
Defined.

(** On [Examples.lot_with_group] the free group entry makes the call raise. *)
Lemma allocate_parking_missing_distance_witness :
  exists s',
    AllocationEngine.allocate_parking Examples.lot_with_group 1 None 600%Q
        (AllocationEngine.init 0%nat) =
      AllocationEngine.Raised (KeyError "distance_to_entrance") s' /\
    AllocationEngine.allocation_history s' = [] /\
    AllocationEngine.lock_held s' = false.
Proof.
  eexists. split.
  - apply (@allocate_parking_missing_distance nat Examples.toy_classifier
             (AllocationEngine.init 0%nat)
             Examples.lot_with_group 1 None 600%Q "Group_1"%string
             (AllocationEngine.mkSpaceData false 0%Q None)).
    + reflexivity.
    + right. left. reflexivity.
    + reflexivity.
    + reflexivity.
  - split; reflexivity.
Defined.

(** ** The allocation engine: statistics and scores *)

Section AllocationScores.
Import AllocationEngine AllocationSpec.
Context {M : Type} `{Classifier M}.

Lemma section_count_occupied_le (sd : list (string * SpaceData)) sec :
  section_count occupied sd sec <= section_count (fun _ => true) sd sec.
Proof.
  induction sd as [|e sd IH].
  - unfold section_count. cbn. lia.
  - rewrite !section_count_cons.
    destruct (String.eqb (section_of_id e.1) sec); cbn [andb];
      destruct (occupied e.2); lia.
Qed.

Lemma section_rate_bounds (sd : list (string * SpaceData)) sec :
  0 < section_count (fun _ => true) sd sec ->
  (0 <= section_occupancy_rate sd sec <= 1)%Q.
Proof.
  intros Hpos. unfold section_occupancy_rate.
  pose proof (section_count_nonneg occupied sd sec) as Ho.
  pose proof (section_count_occupied_le sd sec) as Hle.
  assert (Ht : (0 < inject_Z (section_count (fun _ => true) sd sec))%Q).
  { change 0%Q with (inject_Z 0). rewrite <- Zlt_Qlt. exact Hpos. }
  split.
  - apply Qle_shift_div_l; [exact Ht|]. rewrite Qmult_0_l.
    change 0%Q with (inject_Z 0). rewrite <- Zle_Qle. exact Ho.
  - apply Qle_shift_div_r; [exact Ht|]. rewrite Qmult_1_l.
    rewrite <- Zle_Qle. exact Hle.
Qed.

Lemma multiplier_cases pref sec :
  section_preference_multiplier pref sec = 1%Q \/
  section_preference_multiplier pref sec = (12 # 10)%Q.
Proof.
  unfold section_preference_multiplier. destruct pref as [p|]; [|left; reflexivity].
  destruct (negb (String.eqb p "") && String.eqb sec p); [right | left]; reflexivity.
Qed.

(** X5.  When the model yields probabilities and the weight lies between 0
    and 1, the score [allocate_parking] returns lies between 0 and 1.2. *)
Theorem allocate_parking_score_bounds (s : Engine M) sd vs pref now id sc s' :
  allocate_parking sd vs pref now s = Returned (Some id, sc) s' ->
  (forall X scores, predict_proba (model s) X = inr scores ->
     forall m, In m scores -> (0 <= m <= 1)%Q) ->
  (0 <= load_balancing_weight s <= 1)%Q ->
  (0 <= sc <= 6 # 5)%Q.
Proof.
  intros Hret Hprob Hw.
  destruct (allocate_parking_returned _ _ _ _ _ _ _ _ Hret)
    as (rows & scores & i & d & m & _ & Hscores & Hc & Hm & -> & _).
  assert (Hm01 : (0 <= m <= 1)%Q).
  { apply (Hprob rows scores Hscores). apply list_elem_of_In.
    eapply list_elem_of_lookup_2. exact Hm. }
  pose proof (section_rate_bounds sd (section_of_id id)
                (section_count_member sd id d (candidates_In _ _ _ _ Hc))) as Hr.
  unfold candidate_score, final_score.
  destruct (multiplier_cases pref (section_of_id id)) as [-> | ->]; split; nra.
Qed.

(** X6.  Load balancing: for two spaces of the map with the same model score
    and the same preference multiplier, and a weight that is not negative,
    the space of the section with the lower occupancy rate never gets the
    lower score in the loop of [allocate_parking]. *)
Theorem balanced_score_monotone (sd : list (string * SpaceData))
  (old : gmap string SectionStats) w pref ida da idb db m :
  In (ida, da) sd -> In (idb, db) sd ->
  (0 <= w)%Q ->
  section_preference_multiplier pref (section_of_id ida) =
    section_preference_multiplier pref (section_of_id idb) ->
  (section_occupancy_rate sd (section_of_id ida)
   <= section_occupancy_rate sd (section_of_id idb))%Q ->
  (balanced_score ((stats_of <$> count_sections sd) ∪ old) w pref idb m
   <= balanced_score ((stats_of <$> count_sections sd) ∪ old) w pref ida m)%Q.
Proof.
  intros Ha Hb Hw Hmult Hrate.
  rewrite (balanced_score_candidate sd old w pref ida da m Ha).
  rewrite (balanced_score_candidate sd old w pref idb db m Hb).
  unfold candidate_score, final_score. rewrite Hmult.
  set (ra := section_occupancy_rate sd (section_of_id ida)) in *.
  set (rb := section_occupancy_rate sd (section_of_id idb)) in *.
  set (k := section_preference_multiplier pref (section_of_id idb)).
  assert (Hk : (0 < k)%Q).
  { unfold k. destruct (multiplier_cases pref (section_of_id idb)) as [-> | ->];
      reflexivity. }
  assert (H2 : (0 <= w * (rb - ra) * k)%Q).
  { apply Qmult_le_0_compat; [apply Qmult_le_0_compat|]; lra. }
  apply Qle_minus_iff.
  assert (E : (((1 - w) * m + w * (1 - ra)) * k
               + - (((1 - w) * m + w * (1 - rb)) * k) == w * (rb - ra) * k)%Q)
    by ring.
  rewrite E. exact H2.
Qed.

(** X7.  [update_parking_stats], called with the lock free, returns with the
    lock free and with, for the section of every space of the map, the number
    of its spaces, the number of its occupied spaces and their ratio, which
    lies between 0 and 1; the entry of a section that has no space in the map
    is left as it was (old sections are never dropped); nothing else
    changes. *)
Theorem update_parking_stats_sections (s : Engine M)
  (sd : list (string * SpaceData)) :
  lock_held s = false ->
  exists s',
    update_parking_stats sd s = Returned tt s' /\
    (forall id d, In (id, d) sd ->
       exists st,
         parking_stats s' !! get_section_from_space_id id = Some st /\
         total st = section_count (fun _ => true) sd (get_section_from_space_id id) /\
         occupied_count st = section_count occupied sd (get_section_from_space_id id) /\
         0 <= occupied_count st <= total st /\ 0 < total st /\
         occupancy_rate st = (inject_Z (occupied_count st) / inject_Z (total st))%Q /\
         (0 <= occupancy_rate st <= 1)%Q) /\
    (forall sec, section_count (fun _ => true) sd sec = 0 ->
       parking_stats s' !! sec = parking_stats s !! sec) /\
    model s' = model s /\ model_file s' = model_file s /\
    allocation_history s' = allocation_history s /\
    feedback_data s' = feedback_data s /\
    load_balancing_weight s' = load_balancing_weight s /\
    lock_held s' = false.
Proof.
  intros Hlock. unfold update_parking_stats, with_lock, modify. rewrite Hlock.
  eexists. split; [reflexivity|].
  cbn [set_lock set_parking_stats parking_stats model model_file
       allocation_history feedback_data load_balancing_weight lock_held].
  split; [|split; [|repeat split]].
  - intros id d Hin.
    pose proof (section_count_member sd id d Hin) as Hpos.
    unfold section_of_id in Hpos.
    exists (stats_of (section_count (fun _ => true) sd (get_section_from_space_id id),
                      section_count occupied sd (get_section_from_space_id id))).
    split.
    { apply lookup_union_Some_l. rewrite lookup_fmap.
      rewrite count_sections_lookup by lia. reflexivity. }
    unfold stats_of. cbn [total occupied_count occupancy_rate fst snd].
    destruct (Z.ltb_spec 0 (section_count (fun _ => true) sd
                              (get_section_from_space_id id))); [|lia].
    split; [reflexivity|]. split; [reflexivity|].
    split.
    { split; [apply section_count_nonneg | apply section_count_occupied_le]. }
    split; [exact Hpos|]. split; [reflexivity|].
    apply (section_rate_bounds sd (get_section_from_space_id id) Hpos).
  - intros sec Hzero. apply lookup_union_r. rewrite lookup_fmap.
    unfold count_sections. rewrite count_sections_from, Hzero. reflexivity.
Qed.

(** X8.  [initialize_parking_spaces] never returns: it calls
    [update_parking_stats] while holding the engine's lock, which
    [update_parking_stats] acquires itself, so the calling thread blocks with
    the lock held and the statistics as they were. *)
Theorem initialize_parking_spaces_blocks (s : Engine M)
  (sd : list (string * SpaceData)) :
  initialize_parking_spaces sd s = Blocked (set_lock true s) /\
  parking_stats (set_lock true s) = parking_stats s /\
  lock_held (set_lock true s) = true.
Proof.
  split; [|split; reflexivity].
  unfold initialize_parking_spaces, with_lock.
  destruct (lock_held s) eqn:Hlock.
  - destruct s; cbn in *; subst; reflexivity.
  - unfold update_parking_stats, with_lock. reflexivity.
Qed.

(** [find_allocation] returns the newest history entry of the space. *)
Lemma find_allocation_newest id (h1 h2 : list Allocation) a :
  a_space_id a = id ->
  (forall b, In b h2 -> a_space_id b <> id) ->
  find_allocation id (h1 ++ a :: h2) = Some a.
Proof.
  intros Ha Hnone. unfold find_allocation.
  rewrite rev_app_distr. cbn [rev]. rewrite <- app_assoc. cbn [app].
  induction (rev h2) as [|b l IH] eqn:E in Hnone, h2 |- *.
  - cbn. rewrite Ha, String.eqb_refl. reflexivity.
  - assert (Hb : In b h2) by (apply in_rev; rewrite E; left; reflexivity).
    cbn [app find]. destruct (String.eqb_spec (a_space_id b) id) as [Heq|_].
    + exfalso. exact (Hnone b Hb Heq).
    + apply (IH (rev l)).
      * intros c Hc. apply Hnone. apply in_rev. rewrite E. right.
        apply in_rev in Hc. exact Hc.
      * apply rev_involutive.
Qed.

(** X9.  [add_feedback] attaches the feature row of the newest history entry
    of the space: entries for other spaces logged after it, and older entries
    of the same space, play no part. *)
Theorem add_feedback_newest_entry (s : Engine M) id vs ok now h1 a h2 :
  lock_held s = false ->
  allocation_history s = h1 ++ a :: h2 ->
  a_space_id a = id ->
  (forall b, In b h2 -> a_space_id b <> id) ->
  (length (feedback_data s) + 1 < 10)%nat ->
  add_feedback id vs ok now s =
    Returned tt
      (set_feedback
         (feedback_data s ++
            [mkFeedback now id (get_section_from_space_id id) vs (a_features a)
                        (if ok then 1 else 0)]) s).
Proof.
  intros Hlock Hh Ha Hnone Hlen.
  apply add_feedback_appends; [exact Hlock| |exact Hlen].
  rewrite Hh. apply find_allocation_newest; assumption.
Qed.

(** X10.  Feedback given right after an allocation refers to that
    allocation: [add_feedback] for the returned space returns and buffers the
    feature row the allocation was made on, with the label 1 or 0. *)
Theorem feedback_after_allocation (s s1 : Engine M) sd vs pref now id sc vs' ok t :
  allocate_parking sd vs pref now s = Returned (Some id, sc) s1 ->
  (length (feedback_data s) + 1 < 10)%nat ->
  exists d dist,
    In (id, d) sd /\ distance_to_entrance d = Some dist /\
    add_feedback id vs' ok t s1 =
      Returned tt
        (set_feedback
           (feedback_data s ++
              [mkFeedback t id (get_section_from_space_id id) vs'
                          [dist; ((now - last_state_change d) / 60)%Q; inject_Z vs]
                          (if ok then 1 else 0)]) s1).
Proof.
  intros Hret Hlen.
  destruct (allocate_parking_returned_state _ _ _ _ _ _ _ _ Hret)
    as [Hlock (i & d & dist & Hc & Hd & Hs1)].
  exists d, dist. split; [exact (candidates_In _ _ _ _ Hc)|]. split; [exact Hd|].
  assert (Hfb : feedback_data s1 = feedback_data s) by (rewrite Hs1; reflexivity).
  rewrite <- Hfb.
  apply (add_feedback_appends s1 id vs' ok t
           (mkAllocation now id vs sc
              [dist; ((now - last_state_change d) / 60)%Q; inject_Z vs])).
  - rewrite Hs1. exact Hlock.
  - rewrite Hs1. cbn [allocation_history append_history set_parking_stats].
    apply find_allocation_newest; [reflexivity | intros b []].
  - rewrite Hfb. exact Hlen.
Qed.

End AllocationScores.

(** The score of the allocation on [Examples.lot], made with the stand-in
    classifier and the weight 0.3. *)
Lemma allocate_parking_score_bounds_witness :
  (0 <= Examples.allocated_score <= 6 # 5)%Q.
Proof.
  apply (@allocate_parking_score_bounds nat Examples.toy_classifier
           (AllocationEngine.init 0%nat)
           Examples.lot 1 None 600%Q "S7-B1"%string Examples.allocated_score
           Examples.engine_with_history).
  - vm_compute. reflexivity.
  - intros X scores Hs m Hm. cbn in Hs. inversion Hs; subst scores.
    apply in_map_iff in Hm. destruct Hm as [r [<- _]]. split; lra.
  - cbn. split; lra.
Defined.

(** In [Examples.lot] section B1 is less occupied than section A1: with the
    same model score the space S7-B1 does not score below S5-A1. *)
Lemma balanced_score_monotone_witness :
  (AllocationEngine.balanced_score
     ((AllocationEngine.stats_of <$> AllocationEngine.count_sections Examples.lot) ∪ ∅)
     (3 # 10) None "S5-A1" (1 # 2)
   <= AllocationEngine.balanced_score
        ((AllocationEngine.stats_of <$> AllocationEngine.count_sections Examples.lot) ∪ ∅)
        (3 # 10) None "S7-B1" (1 # 2))%Q.
Proof.
  apply (balanced_score_monotone Examples.lot ∅ (3 # 10) None
           "S7-B1"%string (Examples.space false)
           "S5-A1"%string (Examples.space false) (1 # 2)).
  - vm_compute. tauto.
  - vm_compute. tauto.
  - lra.
  - reflexivity.
  - vm_compute. discriminate.
Defined.

(** The statistics of [Examples.lot]: section B1 has five spaces, one of them
    occupied. *)
Lemma update_parking_stats_sections_witness :
  exists s' st,
    AllocationEngine.update_parking_stats Examples.lot (AllocationEngine.init 0%nat) =
      AllocationEngine.Returned tt s' /\
    AllocationEngine.parking_stats s' !! "B1"%string = Some st /\
    AllocationEngine.total st = 5 /\ AllocationEngine.occupied_count st = 1 /\
    AllocationEngine.lock_held s' = false.
Proof.
  destruct (@update_parking_stats_sections nat
              (AllocationEngine.init 0%nat)
              Examples.lot eq_refl)
    as (s' & Hrun & Hsec & _ & _ & _ & _ & _ & _ & Hlock).
  destruct (Hsec "S7-B1"%string (Examples.space false)
              ltac:(vm_compute; tauto))
    as (st & Hst & Ht & Ho & _).
  exists s', st. split; [exact Hrun|]. split; [exact Hst|].
  split; [rewrite Ht; reflexivity|]. split; [rewrite Ho; reflexivity | exact Hlock].
Defined.

(** Feedback for S7-B1 after the three allocations of
    [Examples.engine_after_three] carries the features of the second one,
    made at 1200 s for a vehicle of size 2. *)
Lemma add_feedback_newest_entry_witness :
  AllocationEngine.add_feedback "S7-B1" 1 true 1300%Q Examples.engine_after_three =
    AllocationEngine.Returned tt
      (AllocationEngine.set_feedback
         (AllocationEngine.feedback_data Examples.engine_after_three ++
            [AllocationEngine.mkFeedback 1300%Q "S7-B1"
               (AllocationEngine.get_section_from_space_id "S7-B1") 1
               (AllocationEngine.a_features
                  (AllocationEngine.mkAllocation 1200%Q "S7-B1" 2
                     Examples.allocated_score [10; 1200 # 60; 2]%Q))
               (if true then 1 else 0)])
         Examples.engine_after_three).
Proof.
  exact (@add_feedback_newest_entry nat Examples.toy_classifier
           Examples.engine_after_three "S7-B1"%string 1 true 1300%Q
           (AllocationEngine.allocation_history Examples.engine_with_history)
           (AllocationEngine.mkAllocation 1200%Q "S7-B1" 2
              Examples.allocated_score [10; 1200 # 60; 2]%Q)
           [AllocationEngine.mkAllocation 1250%Q "S5-A1" 1 (130 # 200)
              [10; 1250 # 60; 1]%Q]
           ltac:(vm_compute; reflexivity)
           ltac:(vm_compute; reflexivity)
           eq_refl
           ltac:(intros b [<-|[]]; discriminate)
           ltac:(vm_compute; lia)).
Defined.

(** Feedback for S7-B1 right after the allocation on [Examples.lot]. *)
Lemma feedback_after_allocation_witness :
  exists s2,
    AllocationEngine.add_feedback "S7-B1" 1 false 700%Q Examples.engine_with_history =
      AllocationEngine.Returned tt s2 /\
    length (AllocationEngine.feedback_data s2) = 1%nat.
Proof.
  destruct (@feedback_after_allocation nat Examples.toy_classifier
              (AllocationEngine.init 0%nat)
              Examples.engine_with_history Examples.lot 1 None 600%Q
              "S7-B1"%string Examples.allocated_score 1 false 700%Q
              ltac:(vm_compute; reflexivity) ltac:(vm_compute; lia))
    as (d & dist & _ & _ & Hrun).
  eexists. split; [exact Hrun | reflexivity].
Defined.

(** ** The parking manager: counters and the simultaneous mode *)

Section ManagerCounters.
Import ParkingManager OccupancySpec.

Lemma omap_length_le {A B} (f : A -> option B) (l : list A) :
  (length (omap f l) <= length l)%nat.
Proof.
  induction l as [|a l IH]; [reflexivity|].
  cbn. destruct (f a); cbn; lia.
Qed.

(** X11.  The counters after [check_parking_space]: free plus occupied is the
    stored total, which the call does not touch; the free counter never
    exceeds the number of positions, and when the stored total is the number
    of positions both counters lie between 0 and the total. *)
Theorem check_parking_space_counters (img : Image) (m : Manager) :
  total_spaces m = Z.of_nat (length (posList m)) ->
  total_spaces (check_parking_space img m).2 = total_spaces m /\
  free_spaces (check_parking_space img m).2
    + occupied_spaces (check_parking_space img m).2 = total_spaces m /\
  0 <= free_spaces (check_parking_space img m).2 <= total_spaces m /\
  0 <= occupied_spaces (check_parking_space img m).2 <= total_spaces m /\
  parking_data (check_parking_space img m).2 = parking_data m /\
  vehicle_counter (check_parking_space img m).2 = vehicle_counter m.
Proof.
  intros Htotal. unfold check_parking_space. rewrite check_spaces_spec.
  cbn [fst snd total_spaces free_spaces occupied_spaces parking_data
       vehicle_counter set_free_occupied].
  pose proof (filter_length_le d_free
                (omap (classify img (parking_threshold m)) (posList m))) as H1.
  pose proof (omap_length_le (classify img (parking_threshold m)) (posList m)) as H2.
  repeat split; lia.
Qed.




Lemma filter_partition_length {A} (p : A -> bool) (l : list A) :
  (length (List.filter p l) + length (List.filter (fun a => negb (p a)) l)
   = length l)%nat.
Proof.
  induction l as [|a l IH]; [reflexivity|].
  cbn [List.filter]. destruct (p a); cbn [negb length]; lia.
Qed.

Lemma contour_centroids_length min_w min_h (rects : list (Z * Z * Z * Z)) :
  length (contour_centroids min_w min_h rects)
  = length (valid_contours min_w min_h rects) /\
  (length (valid_contours min_w min_h rects) <= length rects)%nat.
Proof.
  induction rects as [|[[[x y] w] h] rects [IH1 IH2]]; [split; reflexivity|].
  cbn [contour_centroids valid_contours].
  destruct ((min_w <=? w) && (min_h <=? h)); cbn [length]; split; lia.
Qed.

(** X13.  [detect_vehicles] loses no centroid and never lowers the count:
    every tracked centroid, carried over or new, is either counted or carried
    over, so the increase of the counter plus the length of the new tracked
    list is the length of the old list plus the number of contours that are
    large enough; the parking attributes are untouched. *)
Theorem detect_vehicles_conservation (frame_height : Z)
  (rects : list (Z * Z * Z * Z)) (m : Manager) :
  vehicle_counter m <= vehicle_counter (detect_vehicles frame_height rects m) /\
  (vehicle_counter (detect_vehicles frame_height rects m) - vehicle_counter m)
    + Z.of_nat (length (matches (detect_vehicles frame_height rects m)))
  = Z.of_nat (length (matches m))
    + Z.of_nat (length (valid_contours (min_contour_width m)
                                       (min_contour_height m) rects)) /\
  (length (valid_contours (min_contour_width m) (min_contour_height m) rects)
   <= length rects)%nat /\
  posList (detect_vehicles frame_height rects m) = posList m /\
  parking_data (detect_vehicles frame_height rects m) = parking_data m /\
  free_spaces (detect_vehicles frame_height rects m) = free_spaces m /\
  occupied_spaces (detect_vehicles frame_height rects m) = occupied_spaces m.
Proof.
  unfold detect_vehicles. rewrite count_crossings_spec.
  cbn [vehicle_counter matches posList parking_data free_spaces occupied_spaces
       set_counting].
  destruct (contour_centroids_length (min_contour_width m) (min_contour_height m)
              rects) as [Hc Hv].
  pose proof (filter_partition_length
                (fun c : Z * Z => crosses (effective_line m frame_height) (offset m) c.2)
                (matches m ++ contour_centroids (min_contour_width m)
                                                (min_contour_height m) rects)) as Hp.
  rewrite length_app in Hp.
  repeat split; lia.
Qed.

(** X14.  The vehicle worker of the simultaneous mode against
    [detect_vehicles]: when the configured line lies inside the frame both
    leave the manager in the same state, and the worker reports the contours
    that are large enough. *)
Theorem process_vehicle_detection_agrees (frame_height : Z)
  (rects : list (Z * Z * Z * Z)) (m : Manager) :
  line_height m < frame_height ->
  (_process_vehicle_detection rects m).2 = detect_vehicles frame_height rects m /\
  (_process_vehicle_detection rects m).1 =
    valid_contours (min_contour_width m) (min_contour_height m) rects.
Proof.
  intros Hline. unfold _process_vehicle_detection, detect_vehicles, effective_line.
  destruct (Z.geb_spec (line_height m) frame_height) as [Hge|_]; [lia|].
  destruct (count_crossings _ _ _) as [n new_matches]. split; reflexivity.
Qed.

End ManagerCounters.

(** [Examples.grouped] seen through [Examples.half_frame]: two of the four
    spaces are free. *)
Lemma check_parking_space_counters_witness :
  ParkingManager.free_spaces
    (ParkingManager.check_parking_space Examples.half_frame Examples.grouped).2 = 2 /\
  ParkingManager.occupied_spaces
    (ParkingManager.check_parking_space Examples.half_frame Examples.grouped).2 = 2 /\
  ParkingManager.free_spaces
    (ParkingManager.check_parking_space Examples.half_frame Examples.grouped).2
  + ParkingManager.occupied_spaces
      (ParkingManager.check_parking_space Examples.half_frame Examples.grouped).2
  = ParkingManager.total_spaces Examples.grouped.
Proof.
  split; [vm_compute; reflexivity|]. split; [vm_compute; reflexivity|].
  exact (proj1 (proj2 (check_parking_space_counters Examples.half_frame
                         Examples.grouped eq_refl))).
Defined.

(** A 720-line frame and the default line at 400: the worker and
    [detect_vehicles] agree on one contour in the band and one outside. *)
Lemma process_vehicle_detection_agrees_witness :
  (ParkingManager._process_vehicle_detection
     [(100, 375, 50, 50); (300, 100, 60, 60)] Examples.grouped).2
  = ParkingManager.detect_vehicles 720 [(100, 375, 50, 50); (300, 100, 60, 60)]
      Examples.grouped /\
  ParkingManager.vehicle_counter
    (ParkingManager.detect_vehicles 720 [(100, 375, 50, 50); (300, 100, 60, 60)]
       Examples.grouped) = 1.
Proof.
  split; [|vm_compute; reflexivity].
  exact (proj1 (process_vehicle_detection_agrees 720
                  [(100, 375, 50, 50); (300, 100, 60, 60)] Examples.grouped
                  ltac:(vm_compute; reflexivity))).
Defined.

(** ** Space ids, sections and the records of a detection pass *)

Section SpaceIds.
Import ParkingManager OccupancySpec.

Lemma split_on_prefix (p rest : string) :
  ~ In "-"%char (list_ascii_of_string p) ->
  split_on "-" (p +:+ String "-" rest) = p :: split_on "-" rest.
Proof.
  induction p as [|c p IH]; intros Hno.
  - reflexivity.
  - change (String c p +:+ String "-" rest)%string
      with (String c (p +:+ String "-" rest)).
    cbn [split_on].
    destruct (Ascii.eqb_spec c "-"%char) as [->|Hc].
    + exfalso. apply Hno. left. reflexivity.
    + rewrite IH; [reflexivity|]. intros Hin. apply Hno. right. exact Hin.
Qed.

Lemma pretty_N_go_no_dash (x : N) (s : string) :
  ~ In "-"%char (list_ascii_of_string s) ->
  ~ In "-"%char (list_ascii_of_string (pretty_N_go x s)).
Proof.
  revert s. induction (N.lt_wf_0 x) as [x _ IH]; intros s Hs.
  assert (x = 0 \/ 0 < x)%N as [->|Hx] by lia.
  - rewrite pretty_N_go_0. exact Hs.
  - rewrite pretty_N_go_step by exact Hx. apply IH.
    { apply N.div_lt; [exact Hx | reflexivity]. }
    cbn [list_ascii_of_string]. intros [Hc|Hin]; [|exact (Hs Hin)].
    revert Hc. unfold pretty_N_char. repeat case_match; discriminate.
Qed.

Lemma str_of_nat_no_dash (n : nat) :
  ~ In "-"%char (list_ascii_of_string (str_of_nat n)).
Proof.
  unfold str_of_nat, pretty, pretty_nat, pretty, pretty_N.
  case_decide.
  - cbn. intros [Hc|[]]. discriminate.
  - apply pretty_N_go_no_dash. cbn. tauto.
Qed.

Lemma split_on_space_id (i : nat) (sec : string) :
  split_on "-" (space_id_of i sec)
  = ("S" +:+ str_of_nat (i + 1))%string :: split_on "-" sec.
Proof.
  unfold space_id_of.
  change ("S" +:+ str_of_nat (i + 1) +:+ "-" +:+ sec)%string
    with (("S" +:+ str_of_nat (i + 1)) +:+ String "-" sec)%string.
  apply split_on_prefix. cbn [String.append list_ascii_of_string].
  intros [Hc|Hin]; [discriminate|]. exact (str_of_nat_no_dash _ Hin).
Qed.

Lemma space_id_of_inj (i j : nat) (s s' : string) :
  space_id_of i s = space_id_of j s' -> i = j.
Proof.
  intros Heq. pose proof (f_equal (split_on "-") Heq) as Hs.
  rewrite !split_on_space_id in Hs. inversion Hs as [[Hp Hrest]].
  change (str_of_nat (i + 1) = str_of_nat (j + 1)) in Hp.
  unfold str_of_nat in Hp. apply (inj pretty) in Hp. lia.
Qed.

Lemma section_of_cases (img : Image) (x y : Z) :
  In (section_of img x y) ["A1"; "A2"; "B1"; "B2"]%string.
Proof.
  unfold section_of. destruct (lt_half x (width img)), (lt_half y (height img));
    cbn; tauto.
Qed.


Lemma section_of_space_id (img : Image) (i : nat) (x y : Z) :
  AllocationEngine.get_section_from_space_id (space_id_of i (section_of img x y))
    = section_of img x y.
Proof.
  unfold AllocationEngine.get_section_from_space_id. rewrite split_on_space_id.
  destruct (section_of_cases img x y) as [<-|[<-|[<-|[<-|[]]]]]; reflexivity.
Qed.

(** X15.  The ids the manager gives its spaces, [S<i+1>-<section>], and the
    section the allocation engine reads off an id: the engine finds the
    section the manager computed, which is one of A1, A2, B1 and B2, and two
    positions of the list never share an id. *)
Theorem space_id_section (img : Image) (i j : nat) (x y x' y' : Z) :
  AllocationEngine.get_section_from_space_id (space_id_of i (section_of img x y))
    = section_of img x y /\
  In (section_of img x y) ["A1"; "A2"; "B1"; "B2"]%string /\
  (space_id_of i (section_of img x y) = space_id_of j (section_of img x' y') ->
   i = j).
Proof.
  split; [apply section_of_space_id|].
  split; [apply section_of_cases | apply space_id_of_inj].
Qed.

Lemma update_slots_other img thr now (l : list PosEntry) i0 pd id :
  (forall j s, (i0 <= j)%nat -> space_id_of j s <> id) ->
  update_slots img thr now i0 l pd !! id = pd !! id.
Proof.
  revert i0 pd. induction l as [|pos l IH]; intros i0 pd Hid; [reflexivity|].
  cbn [update_slots]. rewrite IH by (intros j s Hj; apply Hid; lia).
  specialize (Hid i0).
  destruct pos as [[|x [|y [|w [|h [|c cs]]]]]|]; try reflexivity.
  destruct (in_bounds img x y w h); [|reflexivity].
  destruct (pd !! space_id_of i0 (section_of img x y)) as [d|].
  - destruct (manually_set d); [reflexivity|].
    apply lookup_insert_ne. apply Hid. lia.
  - apply lookup_insert_ne. apply Hid. lia.
Qed.

(** The first pass files the detection result of every position inside the
    bounds guard under the id of the position. *)
Lemma update_slots_at img thr now (l : list PosEntry) i0 pd k x y w h :
  l !! k = Some (PosTuple [x; y; w; h]) -> in_bounds img x y w h = true ->
  update_slots img thr now i0 l pd !! space_id_of (i0 + k) (section_of img x y) =
    Some (match pd !! space_id_of (i0 + k) (section_of img x y) with
          | None =>
              mkSlot (x, y, w, h) (thr <=? count_crop img x y w h) None now
                     (Some (x + y)) (section_of img x y) false None false None false
          | Some d =>
              if manually_set d then d
              else set_occupied (thr <=? count_crop img x y w h) d
          end).
Proof.
  revert i0 pd k. induction l as [|pos l IH]; intros i0 pd k Hk Hin; [discriminate|].
  destruct k as [|k]; cbn in Hk; cbn [update_slots].
  - inversion Hk; subst pos. rewrite Nat.add_0_r.
    rewrite update_slots_other.
    2:{ intros j s Hj Heq. apply space_id_of_inj in Heq. lia. }
    rewrite Hin.
    destruct (pd !! space_id_of i0 (section_of img x y)) as [d|] eqn:E.
    + destruct (manually_set d); [exact E | apply lookup_insert_eq].
    + apply lookup_insert_eq.
  - replace (i0 + S k)%nat with (S i0 + k)%nat by lia.
    rewrite (IH (S i0) _ k Hk Hin).
    assert (Hne : forall s, space_id_of i0 s
                            <> space_id_of (S i0 + k) (section_of img x y)).
    { intros s Heq. apply space_id_of_inj in Heq. lia. }
    destruct pos as [[|x0 [|y0 [|w0 [|h0 [|c cs]]]]]|]; try reflexivity.
    destruct (in_bounds img x0 y0 w0 h0); [|reflexivity].
    destruct (pd !! space_id_of i0 (section_of img x0 y0)) as [d|].
    + destruct (manually_set d); [reflexivity|].
      rewrite lookup_insert_ne by apply Hne. reflexivity.
    + rewrite lookup_insert_ne by apply Hne. reflexivity.
Qed.

Lemma same_spaces_refl pd : same_spaces pd pd.
Proof.
  intros id. destruct (pd !! id) as [d|]; [|reflexivity].
  exists d. split; reflexivity.
Qed.

Lemma same_spaces_trans pd1 pd2 pd3 :
  same_spaces pd1 pd2 -> same_spaces pd2 pd3 -> same_spaces pd1 pd3.
Proof.
  intros H12 H23 id. specialize (H12 id). specialize (H23 id).
  destruct (pd1 !! id) as [d1|].
  - destruct H12 as (d2 & E2 & S12). rewrite E2 in H23.
    destruct H23 as (d3 & E3 & S23). exists d3. split; [exact E3|].
    unfold same_space in *. congruence.
  - rewrite H12 in H23. exact H23.
Qed.

Lemma same_spaces_set_group pd key g d :
  pd !! key = Some d -> same_spaces pd (<[key := set_group g d]> pd).
Proof.
  intros Hd id. destruct (decide (key = id)) as [<-|Hne].
  - rewrite Hd. exists (set_group g d). rewrite lookup_insert_eq.
    split; reflexivity.
  - rewrite lookup_insert_ne by exact Hne.
    destruct (pd !! id) as [d0|]; [|reflexivity]. exists d0. split; reflexivity.
Qed.

Lemma mark_members_same img positions g ms pd pd' :
  mark_members img positions g ms pd = inr pd' -> same_spaces pd pd'.
Proof.
  revert pd. induction ms as [|i ms IH]; intros pd Hm; cbn [mark_members] in Hm.
  - inversion Hm. apply same_spaces_refl.
  - destruct (positions !! i) as [pos|]; [|exact (IH _ Hm)].
    destruct (unpack4 pos) as [e|[[[x y] w] h]]; [discriminate|].
    cbn [ebind] in Hm. eapply same_spaces_trans; [|exact (IH _ Hm)].
    destruct (pd !! space_id_of i (section_of img x y)) as [d0|] eqn:E;
      [|apply same_spaces_refl].
    apply same_spaces_set_group. exact E.
Qed.

Lemma mark_groups_same img positions items pd pd' :
  mark_groups img positions items pd = inr pd' -> same_spaces pd pd'.
Proof.
  revert pd. induction items as [|[g data] items IH]; intros pd Hm;
    cbn [mark_groups] in Hm.
  - inversion Hm. apply same_spaces_refl.
  - destruct (is_group data); [|exact (IH _ Hm)].
    destruct (member_spaces data) as [ms|]; [|exact (IH _ Hm)].
    destruct (mark_members img positions g ms pd) as [e|pd1] eqn:E; [discriminate|].
    cbn [ebind] in Hm.
    eapply same_spaces_trans; [exact (mark_members_same _ _ _ _ _ _ E) | exact (IH _ Hm)].
Qed.

(** The record [update_individual_slots_in_groups] leaves under the id of a
    position that passes the bounds guard, up to the group flags set by the
    second pass. *)
Lemma update_individual_slots_at (img : Image) (now : Q) (m m' : Manager)
  (i : nat) (x y w h : Z) :
  update_individual_slots_in_groups img now m = inr m' ->
  posList m !! i = Some (PosTuple [x; y; w; h]) ->
  in_bounds img x y w h = true ->
  posList m' = posList m /\ parking_threshold m' = parking_threshold m /\
  exists d',
    parking_data m' !! space_id_of i (section_of img x y) = Some d' /\
    same_space
      (match parking_data m !! space_id_of i (section_of img x y) with
       | None =>
           mkSlot (x, y, w, h) (parking_threshold m <=? count_crop img x y w h)
                  None now (Some (x + y)) (section_of img x y)
                  false None false None false
       | Some d =>
           if manually_set d then d
           else set_occupied (parking_threshold m <=? count_crop img x y w h) d
       end) d'.
Proof.
  intros Hu Hi Hin. unfold update_individual_slots_in_groups in Hu.
  destruct (mark_groups img (posList m) _ _) as [e|pd2] eqn:E2; [discriminate|].
  cbn [ebind] in Hu. inversion Hu; subst m'. clear Hu.
  cbn [parking_data posList parking_threshold set_parking_data].
  split; [reflexivity|]. split; [reflexivity|].
  pose proof (mark_groups_same _ _ _ _ _ E2
                (space_id_of i (section_of img x y))) as Hsame.
  rewrite (update_slots_at img (parking_threshold m) now (posList m) 0 _ i x y w h
             Hi Hin) in Hsame.
  exact Hsame.
Qed.

(** X16.  What [update_individual_slots_in_groups] files for a position of
    the list that passes the bounds guard: afterwards the id of the position
    has a record.  A record created by the pass holds the rectangle, the
    detection result (occupied iff the crop holds at least [parking_threshold]
    non-zero pixels), the current time, the distance proxy x + y and the
    section, which is the section the engine reads off the id.  An existing
    record keeps everything but its group flags and its [occupied] value,
    which becomes the detection result unless the record is flagged
    [manually_set]. *)
Theorem update_individual_slots_records (img : Image) (now : Q) (m m' : Manager)
  (i : nat) (x y w h : Z) :
  update_individual_slots_in_groups img now m = inr m' ->
  posList m !! i = Some (PosTuple [x; y; w; h]) ->
  in_bounds img x y w h = true ->
  exists d',
    parking_data m' !! space_id_of i (section_of img x y) = Some d' /\
    match parking_data m !! space_id_of i (section_of img x y) with
    | None =>
        position d' = (x, y, w, h) /\
        occupied d' = (parking_threshold m <=? count_crop img x y w h) /\
        last_state_change d' = now /\
        distance_to_entrance d' = Some (x + y) /\
        section d' = section_of img x y /\
        AllocationEngine.get_section_from_space_id
          (space_id_of i (section_of img x y)) = section d' /\
        vehicle_id d' = None /\ is_group d' = false /\ manually_set d' = false
    | Some d =>
        occupied d' = (if manually_set d then occupied d
                       else parking_threshold m <=? count_crop img x y w h) /\
        position d' = position d /\
        last_state_change d' = last_state_change d /\
        distance_to_entrance d' = distance_to_entrance d /\
        section d' = section d /\ vehicle_id d' = vehicle_id d /\
        is_group d' = is_group d /\ member_spaces d' = member_spaces d /\
        manually_set d' = manually_set d
    end.
Proof.
  intros Hu Hi Hin.
  destruct (update_individual_slots_at img now m m' i x y w h Hu Hi Hin)
    as (_ & _ & d' & Hd' & Hs).
  exists d'. split; [exact Hd'|].
  unfold same_space in Hs.
  assert (Hf : forall {A} (f : Slot -> A),
             (forall g d, f (set_group g d) = f d) ->
             forall d0, set_group "" d' = set_group "" d0 -> f d' = f d0).
  { intros A f Hfg d0 Heq. rewrite <- (Hfg ""%string d'), Heq. apply Hfg. }
  destruct (parking_data m !! space_id_of i (section_of img x y)) as [d|].
  - assert (Hd0 : forall {A} (f : Slot -> A),
               (forall g d, f (set_group g d) = f d) ->
               (forall b d, f (set_occupied b d) = f d) ->
               f d' = f d).
    { intros A f Hfg Hfo. rewrite (Hf A f Hfg _ Hs).
      destruct (manually_set d); [reflexivity | apply Hfo]. }
    split.
    { rewrite (Hf _ occupied ltac:(reflexivity) _ Hs).
      destruct (manually_set d); reflexivity. }
    repeat split; apply Hd0; reflexivity.
  - split; [exact (Hf _ position ltac:(reflexivity) _ Hs)|].
    split; [exact (Hf _ occupied ltac:(reflexivity) _ Hs)|].
    split; [exact (Hf _ last_state_change ltac:(reflexivity) _ Hs)|].
    split; [exact (Hf _ distance_to_entrance ltac:(reflexivity) _ Hs)|].
    split; [exact (Hf _ section ltac:(reflexivity) _ Hs)|].
    split.
    { rewrite section_of_space_id. symmetry.
      exact (Hf _ section ltac:(reflexivity) _ Hs). }
    split; [exact (Hf _ vehicle_id ltac:(reflexivity) _ Hs)|].
    split; [exact (Hf _ is_group ltac:(reflexivity) _ Hs)|].
    exact (Hf _ manually_set ltac:(reflexivity) _ Hs).
Qed.

(** [process_group_status] leaves the records that are not groups alone. *)
Lemma process_group_status_spaces img m m' id d :
  process_group_status img m = inr m' ->
  parking_data m !! id = Some d -> is_group d = false ->
  parking_data m' !! id = Some d.
Proof.
  unfold process_group_status. intros Hp Hd Hg.
  destruct (first_error _) eqn:Efe; [discriminate|].
  inversion Hp. cbn [parking_data set_parking_data].
  rewrite lookup_omap, lookup_fmap, Hd. cbn.
  unfold group_status. rewrite Hg. reflexivity.
Qed.

(** X17.  One detection pass ([update_allocation_status]) keeps the drawing
    and the records in step.  For a position of the list that passes the
    bounds guard and whose record, if there is one, is a space record not
    flagged [manually_set]: after the pass the record under the id of the
    position is occupied iff the crop holds at least [parking_threshold]
    non-zero pixels, and the rectangle is drawn free exactly when the record
    is not occupied, with that pixel count; the counters add up to the
    total. *)
Theorem detection_pass_records (img : Image) (now : Q) (m m' : Manager)
  (drawn : list Drawn) (i : nat) (x y w h : Z) :
  update_allocation_status img now m = inr (drawn, m') ->
  posList m !! i = Some (PosTuple [x; y; w; h]) ->
  in_bounds img x y w h = true ->
  (forall d, parking_data m !! space_id_of i (section_of img x y) = Some d ->
             manually_set d = false /\ is_group d = false) ->
  exists d',
    parking_data m' !! space_id_of i (section_of img x y) = Some d' /\
    occupied d' = (parking_threshold m <=? count_crop img x y w h) /\
    mkDrawn (x, y, w, h) (negb (occupied d')) (count_crop img x y w h) ∈ drawn /\
    free_spaces m' + occupied_spaces m' = total_spaces m /\
    posList m' = posList m.
Proof.
  intros Hu Hi Hin Hrec. unfold update_allocation_status in Hu.
  destruct (check_parking_space img m) as [dr m1] eqn:E1.
  assert (Hm1 : dr = omap (classify img (parking_threshold m)) (posList m) /\
                posList m1 = posList m /\ parking_data m1 = parking_data m /\
                parking_threshold m1 = parking_threshold m /\
                total_spaces m1 = total_spaces m /\
                free_spaces m1 + occupied_spaces m1 = total_spaces m).
  { unfold check_parking_space in E1. rewrite check_spaces_spec in E1.
    inversion E1; subst dr m1.
    cbn [posList parking_data parking_threshold total_spaces free_spaces
         occupied_spaces set_free_occupied].
    repeat split; lia. }
  destruct Hm1 as (Hdr & Hpos1 & Hpd1 & Hthr1 & Htot1 & Hsum1).
  destruct (update_individual_slots_in_groups img now m1) as [e|m2] eqn:E2;
    [discriminate|]. cbn [ebind] in Hu.
  destruct (process_group_status img m2) as [e|m3] eqn:E3; [discriminate|].
  cbn [ebind] in Hu. inversion Hu; subst drawn m'. clear Hu.
  rewrite <- Hpos1 in Hi.
  destruct (update_individual_slots_at img now m1 m2 i x y w h E2 Hi Hin)
    as (Hpos2 & Hthr2 & d' & Hd' & Hs).
  rewrite Hpd1, Hthr1 in Hs.
  assert (Hd : occupied d' = (parking_threshold m <=? count_crop img x y w h) /\
               is_group d' = false).
  { unfold same_space in Hs.
    assert (Hf : forall {A} (f : Slot -> A),
               (forall g d, f (set_group g d) = f d) ->
               forall d0, set_group "" d' = set_group "" d0 -> f d' = f d0).
    { intros A f Hfg d0 Heq. rewrite <- (Hfg ""%string d'), Heq. apply Hfg. }
    rewrite (Hf _ occupied ltac:(reflexivity) _ Hs).
    rewrite (Hf _ is_group ltac:(reflexivity) _ Hs).
    destruct (parking_data m !! space_id_of i (section_of img x y)) as [d|];
      [|split; reflexivity].
    destruct (Hrec d eq_refl) as [Hman Hgrp]. rewrite Hman.
    split; [reflexivity | exact Hgrp]. }
  destruct Hd as [Hocc Hgrp].
  exists d'. split; [exact (process_group_status_spaces _ _ _ _ _ E3 Hd' Hgrp)|].
  split; [exact Hocc|].
  assert (Hm3 : posList m3 = posList m2 /\ free_spaces m3 = free_spaces m2 /\
                occupied_spaces m3 = occupied_spaces m2).
  { unfold process_group_status in E3. destruct (first_error _); [discriminate|].
    inversion E3. repeat split. }
  assert (Hm2 : free_spaces m2 = free_spaces m1 /\
                occupied_spaces m2 = occupied_spaces m1).
  { unfold update_individual_slots_in_groups in E2.
    destruct (mark_groups _ _ _ _); [discriminate|]. inversion E2. split; reflexivity. }
  destruct Hm3 as (Hp3 & Hf3 & Ho3). destruct Hm2 as (Hf2 & Ho2).
  split; [|split; [lia | congruence]].
  rewrite Hdr. apply list_elem_of_omap.
  exists (PosTuple [x; y; w; h]). rewrite Hpos1 in Hi.
  split; [eapply list_elem_of_lookup_2; exact Hi|].
  cbn [classify]. rewrite Hin, Hocc. do 2 f_equal.
  rewrite Z.leb_antisym, negb_involutive. reflexivity.
Qed.

End SpaceIds.

(** ** Groups: [sync_group_data] *)

Section SyncGroups.
Import ParkingManager OccupancySpec.

Lemma list_min_le (v : Z) (vs : list Z) :
  list_min v vs <= v /\ forall u, In u vs -> list_min v vs <= u.
Proof.
  unfold list_min. revert v. induction vs as [|a vs IH]; intros v; cbn [foldl].
  - split; [lia | intros u []].
  - destruct (IH (Z.min v a)) as [H1 H2]. split; [lia|].
    intros u [<-|Hu]; [lia | exact (H2 u Hu)].
Qed.

Lemma list_max_ge (v : Z) (vs : list Z) :
  v <= list_max v vs /\ forall u, In u vs -> u <= list_max v vs.
Proof.
  unfold list_max. revert v. induction vs as [|a vs IH]; intros v; cbn [foldl].
  - split; [lia | intros u []].
  - destruct (IH (Z.max v a)) as [H1 H2]. split; [lia|].
    intros u [<-|Hu]; [lia | exact (H2 u Hu)].
Qed.

Lemma map_valid_In positions f (vi : list nat) vs i pos :
  map_valid positions f vi = inr vs ->
  In i vi -> positions !! i = Some pos ->
  exists v, f pos = inr v /\ In v vs.
Proof.
  revert vs. induction vi as [|j vi IH]; intros vs Hm Hi Hpos; [destruct Hi|].
  cbn [map_valid] in Hm.
  destruct (positions !! j) as [pj|] eqn:Ej; [|discriminate].
  destruct (f pj) as [e|v] eqn:Ef; [discriminate|]. cbn [ebind] in Hm.
  destruct (map_valid positions f vi) as [e|vs'] eqn:E; [discriminate|].
  cbn [ebind] in Hm. inversion Hm; subst vs.
  destruct Hi as [->|Hi].
  - rewrite Hpos in Ej. inversion Ej; subst pj. exists v. split; [exact Ef|].
    left. reflexivity.
  - destruct (IH vs' eq_refl Hi Hpos) as (u & Hu & Hin). exists u.
    split; [exact Hu | right; exact Hin].
Qed.

Lemma map_valid_nil positions f (vi : list nat) :
  map_valid positions f vi = inr [] -> vi = [].
Proof.
  destruct vi as [|j vi]; [reflexivity|]. cbn [map_valid].
  destruct (positions !! j) as [pj|]; [|discriminate].
  destruct (f pj); [discriminate|]. cbn [ebind].
  destruct (map_valid positions f vi); discriminate.
Qed.

(** The rectangle of a group covers each of its valid members. *)
Lemma group_bounds_covers positions (vi : list nat) bounds :
  group_bounds positions vi = inr bounds ->
  (vi <> [] -> exists box, bounds = Some box) /\
  forall bx by_ bw bh i x y w h,
    bounds = Some (bx, by_, bw, bh) ->
    In i vi -> positions !! i = Some (PosTuple [x; y; w; h]) ->
    bx <= x /\ by_ <= y /\ x + w <= bx + bw /\ y + h <= by_ + bh.
Proof.
  unfold group_bounds. intros Hg.
  destruct (map_valid positions (fun pos => coord pos 0) vi) as [e|xs] eqn:Exs;
    [discriminate|]. cbn [ebind] in Hg.
  destruct (map_valid positions (fun pos => coord pos 1) vi) as [e|ys] eqn:Eys;
    [discriminate|]. cbn [ebind] in Hg.
  destruct (map_valid positions _ vi) as [e|rs] eqn:Ers in Hg; [discriminate|].
  cbn [ebind] in Hg.
  destruct (map_valid positions _ vi) as [e|bs] eqn:Ebs in Hg; [discriminate|].
  cbn [ebind] in Hg.
  split.
  - intros Hne.
    destruct xs as [|x0 xs]; [exfalso; exact (Hne (map_valid_nil _ _ _ Exs))|].
    destruct ys as [|y0 ys]; [exfalso; exact (Hne (map_valid_nil _ _ _ Eys))|].
    destruct rs as [|r0 rs]; [exfalso; exact (Hne (map_valid_nil _ _ _ Ers))|].
    destruct bs as [|b0 bs]; [exfalso; exact (Hne (map_valid_nil _ _ _ Ebs))|].
    inversion Hg. eexists. reflexivity.
  - intros bx by_ bw bh i x y w h -> Hi Hpos.
    destruct (map_valid_In _ _ _ _ _ _ Exs Hi Hpos) as (vx & Hvx & Hinx).
    destruct (map_valid_In _ _ _ _ _ _ Eys Hi Hpos) as (vy & Hvy & Hiny).
    destruct (map_valid_In _ _ _ _ _ _ Ers Hi Hpos) as (vr & Hvr & Hinr).
    destruct (map_valid_In _ _ _ _ _ _ Ebs Hi Hpos) as (vb & Hvb & Hinb).
    cbn in Hvx, Hvy, Hvr, Hvb.
    inversion Hvx; subst vx. inversion Hvy; subst vy.
    inversion Hvr; subst vr. inversion Hvb; subst vb.
    destruct xs as [|x0 xs]; [destruct Hinx|].
    destruct ys as [|y0 ys]; [destruct Hiny|].
    destruct rs as [|r0 rs]; [destruct Hinr|].
    destruct bs as [|b0 bs]; [destruct Hinb|].
    inversion Hg; subst bx by_ bw bh.
    destruct (list_min_le x0 xs) as [Hx1 Hx2].
    destruct (list_min_le y0 ys) as [Hy1 Hy2].
    destruct (list_max_ge r0 rs) as [Hr1 Hr2].
    destruct (list_max_ge b0 bs) as [Hb1 Hb2].
    assert (list_min x0 xs <= x)
      by (destruct Hinx as [<-|Hin]; [exact Hx1 | exact (Hx2 _ Hin)]).
    assert (list_min y0 ys <= y)
      by (destruct Hiny as [<-|Hin]; [exact Hy1 | exact (Hy2 _ Hin)]).
    assert (x + w <= list_max r0 rs)
      by (destruct Hinr as [<-|Hin]; [exact Hr1 | exact (Hr2 _ Hin)]).
    assert (y + h <= list_max b0 bs)
      by (destruct Hinb as [<-|Hin]; [exact Hb1 | exact (Hb2 _ Hin)]).
    lia.
Qed.

Lemma sync_members_same positions g ms pd pd' :
  sync_members positions g ms pd = inr pd' -> same_spaces pd pd'.
Proof.
  revert pd. induction ms as [|i ms IH]; intros pd Hm; cbn [sync_members] in Hm.
  - inversion Hm. apply same_spaces_refl.
  - destruct (positions !! i) as [pos|]; [|exact (IH _ Hm)].
    destruct (unpack4 pos) as [e|[[[x y] w] h]]; [discriminate|].
    cbn [ebind] in Hm.
    destruct (sync_section positions x y) as [e|sec]; [discriminate|].
    cbn [ebind] in Hm. eapply same_spaces_trans; [|exact (IH _ Hm)].
    destruct (pd !! space_id_of i sec) as [d0|] eqn:E; [|apply same_spaces_refl].
    apply same_spaces_set_group. exact E.
Qed.

(** A key that names no group of [space_groups] keeps its record, up to the
    group flags, or stays absent. *)
Lemma sync_groups_other positions now groups pd pd' key :
  sync_groups positions now groups pd = inr pd' ->
  ~ In key (map fst groups) ->
  match pd !! key with
  | Some d => exists d', pd' !! key = Some d' /\ same_space d d'
  | None => pd' !! key = None
  end.
Proof.
  revert pd. induction groups as [|[g idxs] groups IH]; intros pd Hs Hkey;
    cbn [sync_groups] in Hs.
  - inversion Hs. apply same_spaces_refl.
  - assert (Hne : g <> key) by (intros ->; apply Hkey; left; reflexivity).
    assert (Hrest : ~ In key (map fst groups))
      by (intros Hin; apply Hkey; right; exact Hin).
    destruct (List.filter _ idxs) as [|v vi] eqn:Ev; [exact (IH _ Hs Hrest)|].
    destruct (group_bounds positions (v :: vi)) as [e|bounds]; [discriminate|].
    cbn [ebind] in Hs. destruct bounds as [box|]; [|exact (IH _ Hs Hrest)].
    destruct (sync_members positions g idxs _) as [e|pd1] eqn:E1; [discriminate|].
    cbn [ebind] in Hs.
    pose proof (sync_members_same _ _ _ _ _ E1 key) as H1.
    rewrite lookup_insert_ne in H1 by exact Hne.
    pose proof (IH _ Hs Hrest) as H2.
    destruct (pd !! key) as [d|].
    + destruct H1 as (d1 & E & S1). rewrite E in H2.
      destruct H2 as (d2 & E' & S2). exists d2. split; [exact E'|].
      unfold same_space in *. congruence.
    + rewrite H1 in H2. exact H2.
Qed.

(** The entry of a group of [space_groups] that has a valid member. *)
Lemma sync_groups_entry positions now groups pd pd' g idxs :
  sync_groups positions now groups pd = inr pd' ->
  NoDup (map fst groups) ->
  In (g, idxs) groups ->
  List.filter (fun i => (i <? length positions)%nat) idxs <> [] ->
  exists box e,
    group_bounds positions
      (List.filter (fun i => (i <? length positions)%nat) idxs) = inr (Some box) /\
    pd' !! g = Some e /\
    same_space (mkSlot box false None now None "G" false None true (Some idxs) false) e.
Proof.
  revert pd. induction groups as [|[g0 idxs0] groups IH]; intros pd Hs Hnd Hin Hv;
    [destruct Hin|].
  cbn [map fst] in Hnd. apply NoDup_cons in Hnd. destruct Hnd as [Hfresh Hnd].
  cbn [sync_groups] in Hs.
  destruct Hin as [Heq|Hin].
  - inversion Heq; subst g0 idxs0. clear Heq.
    destruct (List.filter _ idxs) as [|v vi] eqn:Ev; [contradiction|].
    destruct (group_bounds positions (v :: vi)) as [e|bounds] eqn:Eb; [discriminate|].
    cbn [ebind] in Hs.
    destruct (proj1 (group_bounds_covers _ _ _ Eb) ltac:(discriminate)) as [box ->].
    destruct (sync_members positions g idxs _) as [e|pd1] eqn:E1; [discriminate|].
    cbn [ebind] in Hs.
    pose proof (sync_members_same _ _ _ _ _ E1 g) as H1.
    rewrite lookup_insert_eq in H1. destruct H1 as (e1 & He1 & S1).
    pose proof (sync_groups_other _ _ _ _ _ g Hs
                  ltac:(rewrite <- list_elem_of_In; exact Hfresh)) as H2.
    rewrite He1 in H2. destruct H2 as (e2 & He2 & S2).
    exists box, e2. split; [reflexivity|]. split; [exact He2|].
    unfold same_space in *. congruence.
  - destruct (List.filter _ idxs0) as [|v vi] eqn:Ev; [exact (IH _ Hs Hnd Hin Hv)|].
    destruct (group_bounds positions (v :: vi)) as [e|bounds]; [discriminate|].
    cbn [ebind] in Hs. destruct bounds as [box|]; [|exact (IH _ Hs Hnd Hin Hv)].
    destruct (sync_members positions g0 idxs0 _) as [e|pd1]; [discriminate|].
    cbn [ebind] in Hs. exact (IH _ Hs Hnd Hin Hv).
Qed.

(** X18.  [sync_group_data] on a dict of groups (distinct group ids), when it
    returns: every group with at least one member index inside [posList] has
    an entry under its id, flagged [is_group], holding the member indices as
    given, not occupied, in section G, stamped with the current time and
    without [distance_to_entrance]; its rectangle covers every member that is
    a 4-tuple of [posList]. *)
Theorem sync_group_data_entry (space_groups : list (string * list nat)) (now : Q)
  (m m' : Manager) (g : string) (idxs : list nat) (i0 : nat) :
  sync_group_data space_groups now m = inr m' ->
  NoDup (map fst space_groups) ->
  In (g, idxs) space_groups ->
  In i0 idxs -> (i0 < length (posList m))%nat ->
  exists e bx by_ bw bh,
    parking_data m' !! g = Some e /\
    is_group e = true /\ member_spaces e = Some idxs /\ occupied e = false /\
    section e = "G"%string /\ last_state_change e = now /\
    distance_to_entrance e = None /\ vehicle_id e = None /\
    position e = (bx, by_, bw, bh) /\
    forall i x y w h,
      In i idxs -> posList m !! i = Some (PosTuple [x; y; w; h]) ->
      bx <= x /\ by_ <= y /\ x + w <= bx + bw /\ y + h <= by_ + bh.
Proof.
  intros Hs Hnd Hin Hi0 Hlt. unfold sync_group_data in Hs.
  destruct (sync_groups (posList m) now space_groups _) as [e|pd] eqn:E; [discriminate|].
  cbn [ebind] in Hs. inversion Hs; subst m'. clear Hs.
  cbn [parking_data set_parking_data].
  assert (Hv : List.filter (fun i => (i <? length (posList m))%nat) idxs <> []).
  { intros Hnil.
    assert (Hin0 : In i0 (List.filter (fun i => (i <? length (posList m))%nat) idxs)).
    { apply filter_In. split; [exact Hi0|]. apply Nat.ltb_lt. exact Hlt. }
    rewrite Hnil in Hin0. destruct Hin0. }
  destruct (sync_groups_entry _ _ _ _ _ g idxs E Hnd Hin Hv)
    as ([[[bx by_] bw] bh] & e & Hb & He & Hsame).
  exists e, bx, by_, bw, bh. split; [exact He|].
  unfold same_space in Hsame.
  assert (Hf : forall {A} (f : Slot -> A),
             (forall g d, f (set_group g d) = f d) ->
             f e = f (mkSlot (bx, by_, bw, bh) false None now None "G" false None
                             true (Some idxs) false)).
  { intros A f Hfg. rewrite <- (Hfg ""%string e), Hsame. apply Hfg. }
  split; [exact (Hf _ is_group ltac:(reflexivity))|].
  split; [exact (Hf _ member_spaces ltac:(reflexivity))|].
  split; [exact (Hf _ occupied ltac:(reflexivity))|].
  split; [exact (Hf _ section ltac:(reflexivity))|].
  split; [exact (Hf _ last_state_change ltac:(reflexivity))|].
  split; [exact (Hf _ distance_to_entrance ltac:(reflexivity))|].
  split; [exact (Hf _ vehicle_id ltac:(reflexivity))|].
  split; [exact (Hf _ position ltac:(reflexivity))|].
  intros i x y w h Hi Hpos.
  apply (proj2 (group_bounds_covers _ _ _ Hb) bx by_ bw bh i x y w h eq_refl);
    [|exact Hpos].
  apply filter_In. split; [exact Hi|]. apply Nat.ltb_lt.
  apply lookup_lt_Some in Hpos. exact Hpos.
Qed.

(** X19.  [sync_group_data] and the records that are not groups of
    [space_groups]: a space record is never removed and keeps everything but
    its group flags (occupancy and timestamp included); a group entry of the
    old data whose id is not in [space_groups] is removed. *)
Theorem sync_group_data_spaces (space_groups : list (string * list nat)) (now : Q)
  (m m' : Manager) (key : string) (d : Slot) :
  sync_group_data space_groups now m = inr m' ->
  parking_data m !! key = Some d ->
  ~ In key (map fst space_groups) ->
  posList m' = posList m /\
  if is_group d then parking_data m' !! key = None
  else exists d',
         parking_data m' !! key = Some d' /\
         position d' = position d /\ occupied d' = occupied d /\
         last_state_change d' = last_state_change d /\
         distance_to_entrance d' = distance_to_entrance d /\
         section d' = section d /\ vehicle_id d' = vehicle_id d /\
         manually_set d' = manually_set d /\ is_group d' = false.
Proof.
  intros Hs Hd Hkey. unfold sync_group_data in Hs.
  destruct (sync_groups (posList m) now space_groups _) as [e|pd] eqn:E; [discriminate|].
  cbn [ebind] in Hs. inversion Hs; subst m'. clear Hs.
  cbn [parking_data posList set_parking_data]. split; [reflexivity|].
  pose proof (sync_groups_other _ _ _ _ _ key E Hkey) as Ho.
  destruct (is_group d) eqn:Eg.
  - assert (Hnone : filter (fun kv : string * Slot => is_group kv.2 = false)
                      (clear_group <$> parking_data m) !! key = None).
    { apply map_lookup_filter_None. right. intros d0 Hd0.
      rewrite lookup_fmap, Hd in Hd0. cbn in Hd0. inversion Hd0; subst d0.
      cbn [snd]. unfold clear_group. rewrite Eg, Eg. discriminate. }
    rewrite Hnone in Ho. exact Ho.
  - assert (Hsome : filter (fun kv : string * Slot => is_group kv.2 = false)
                      (clear_group <$> parking_data m) !! key = Some (clear_group d)).
    { apply map_lookup_filter_Some. split.
      - rewrite lookup_fmap, Hd. reflexivity.
      - cbn [snd]. unfold clear_group. rewrite Eg. reflexivity. }
    rewrite Hsome in Ho. destruct Ho as (d' & Hd' & Hsame).
    exists d'. split; [exact Hd'|].
    unfold same_space in Hsame.
    assert (Hf : forall {A} (f : Slot -> A),
               (forall g d, f (set_group g d) = f d) ->
               f (clear_group d) = f d -> f d' = f d).
    { intros A f Hfg Hc. rewrite <- (Hfg ""%string d'), Hsame, Hfg. exact Hc. }
    assert (Hc : clear_group d = mkSlot (position d) (occupied d) (vehicle_id d)
                                  (last_state_change d) (distance_to_entrance d)
                                  (section d) false None (is_group d)
                                  (member_spaces d) (manually_set d)).
    { unfold clear_group. rewrite Eg. reflexivity. }
    split; [apply (Hf _ position); [reflexivity | rewrite Hc; reflexivity]|].
    split; [apply (Hf _ occupied); [reflexivity | rewrite Hc; reflexivity]|].
    split; [apply (Hf _ last_state_change); [reflexivity | rewrite Hc; reflexivity]|].
    split; [apply (Hf _ distance_to_entrance); [reflexivity | rewrite Hc; reflexivity]|].
    split; [apply (Hf _ section); [reflexivity | rewrite Hc; reflexivity]|].
    split; [apply (Hf _ vehicle_id); [reflexivity | rewrite Hc; reflexivity]|].
    split; [apply (Hf _ manually_set); [reflexivity | rewrite Hc; reflexivity]|].
    rewrite <- Eg. apply (Hf _ is_group); [reflexivity | rewrite Hc; reflexivity].
Qed.

End SyncGroups.

(** ** The visualizer's own allocation *)

Section Visualizer.
Import VisualizerLot.
Context {M : Type} `{AllocationEngine.Classifier M}.

Lemma dict_get_In key v (d : list (string * Space)) :
  NoDup (map fst d) -> In (key, v) d -> dict_get key d = Some v.
Proof.
  induction d as [|[k v0] d IH]; intros Hnd Hin; [destruct Hin|].
  cbn [map fst] in Hnd. apply NoDup_cons in Hnd. destruct Hnd as [Hk Hnd].
  cbn [dict_get]. destruct (String.eqb_spec k key) as [->|Hne].
  - destruct Hin as [Heq|Hin]; [congruence|].
    exfalso. apply Hk. apply list_elem_of_In.
    apply in_map_iff. exists (key, v). split; [reflexivity | exact Hin].
  - destruct Hin as [Heq|Hin]; [congruence|]. exact (IH Hnd Hin).
Qed.

Lemma dict_get_update_eq key f (d : list (string * Space)) :
  dict_get key (dict_update key f d) = f <$> dict_get key d.
Proof.
  induction d as [|[k v0] d IH]; [reflexivity|].
  cbn [dict_update dict_get]. destruct (String.eqb_spec k key) as [->|Hne].
  - cbn [dict_get]. rewrite String.eqb_refl. reflexivity.
  - cbn [dict_get]. destruct (String.eqb_spec k key); [contradiction | exact IH].
Qed.

Lemma dict_get_update_ne key key' f (d : list (string * Space)) :
  key' <> key -> dict_get key' (dict_update key f d) = dict_get key' d.
Proof.
  intros Hne. induction d as [|[k v0] d IH]; [reflexivity|].
  cbn [dict_update dict_get]. destruct (String.eqb_spec k key) as [->|Hk].
  - cbn [dict_get]. destruct (String.eqb_spec key key'); [congruence | reflexivity].
  - cbn [dict_get]. destruct (String.eqb_spec k key'); [reflexivity | exact IH].
Qed.

Lemma dict_update_keys key f (d : list (string * Space)) :
  map fst (dict_update key f d) = map fst d.
Proof.
  induction d as [|[k v0] d IH]; [reflexivity|].
  cbn [dict_update]. destruct (String.eqb k key); cbn [map fst]; [reflexivity|].
  f_equal. exact IH.
Qed.

(** One returned allocation of the visualizer. *)
Lemma visualizer_allocate_returned vehicle vs now (lot lot' : Lot M) id :
  allocate_parking vehicle vs now lot = inr (Some id, lot') ->
  NoDup (map fst (parking_data lot)) ->
  exists d score,
    dict_get id (parking_data lot) = Some d /\ occupied d = false /\
    parking_data lot' =
      dict_update id
        (fun d0 => mkSpace (position d0) true (Some vehicle) now
                           (distance_to_entrance d0) score)
        (parking_data lot) /\
    allocation_history lot' =
      allocation_history lot ++ [mkAllocated now vehicle id score vs] /\
    model lot' = model lot.
Proof.
  intros Ha Hnd. unfold allocate_parking in Ha.
  set (free := List.filter (fun e : string * Space => negb (occupied e.2))
                           (parking_data lot)) in *.
  destruct free as [|f0 fr] eqn:Efree; [discriminate|]. rewrite <- Efree in Ha.
  destruct (AllocationEngine.predict_proba (model lot) _) as [e|scores];
    [discriminate|]. cbn [ebind] in Ha.
  destruct scores as [|s0 sc] eqn:Esc; [discriminate|]. rewrite <- Esc in Ha.
  destruct (map fst free !! argmax scores) as [bid|] eqn:Eid; [|discriminate].
  destruct (scores !! argmax scores) as [bs|]; [|discriminate].
  inversion Ha; subst bid lot'. clear Ha.
  rewrite list_lookup_fmap in Eid.
  destruct (free !! argmax scores) as [[id0 d]|] eqn:Ef; [|discriminate].
  cbn in Eid. inversion Eid; subst id0.
  apply list_elem_of_lookup_2, list_elem_of_In in Ef.
  unfold free in Ef. apply filter_In in Ef. destruct Ef as [Hin Hfree].
  exists d, bs. split; [exact (dict_get_In _ _ _ Hnd Hin)|].
  split; [apply negb_true_iff in Hfree; exact Hfree|].
  cbn [parking_data allocation_history model]. repeat split.
Qed.

(** X20.  The visualizer never allocates a space twice.  Over any session of
    allocation requests served by [allocate_parking] one after the other, on
    a dict of spaces: the returned space ids are pairwise distinct; each of
    them was free before the session and is occupied after it; a space that
    was occupied before is never returned and keeps its record; the dict
    keeps its keys, every request gets an answer, and the history grows by
    one entry per returned space. *)
Theorem visualizer_no_double_allocation (requests : list (string * Z * Q)) (lot lot' : Lot M) answers :
  allocate_all requests lot = inr (answers, lot') ->
  NoDup (map fst (parking_data lot)) ->
  map fst (parking_data lot') = map fst (parking_data lot) /\
  length answers = length requests /\
  length (allocation_history lot') =
    (length (allocation_history lot) + length (omap id answers))%nat /\
  NoDup (omap id answers) /\
  (forall key d, dict_get key (parking_data lot) = Some d -> occupied d = true ->
     ~ In key (omap id answers) /\ dict_get key (parking_data lot') = Some d) /\
  (forall key, In key (omap id answers) ->
     (exists d, dict_get key (parking_data lot) = Some d /\ occupied d = false) /\
     (exists d', dict_get key (parking_data lot') = Some d' /\ occupied d' = true)).
Proof.
  revert lot answers.
  induction requests as [|[[vehicle vs] now] requests IH]; intros lot answers Ha Hnd.
  - inversion Ha; subst. cbn. repeat split; auto using NoDup_nil_2; try tauto.
  - cbn [allocate_all] in Ha.
    destruct (allocate_parking vehicle vs now lot) as [e|[answer lot1]] eqn:E1;
      [discriminate|]. cbn [ebind] in Ha.
    destruct (allocate_all requests lot1) as [e|[answers1 lot2]] eqn:E2;
      [discriminate|]. cbn [ebind] in Ha. inversion Ha; subst answers lot'. clear Ha.
    destruct answer as [aid|].
    + destruct (visualizer_allocate_returned _ _ _ _ _ _ E1 Hnd)
        as (d & score & Hd & Hfree & Hpd & Hh & _).
      assert (Hkeys : map fst (parking_data lot1) = map fst (parking_data lot))
        by (rewrite Hpd; apply dict_update_keys).
      assert (Hnd1 : NoDup (map fst (parking_data lot1))) by (rewrite Hkeys; exact Hnd).
      destruct (IH lot1 answers1 E2 Hnd1) as (Hk & Hlen & Hhist & Hnd2 & Hocc & Hans).
      assert (Haid : dict_get aid (parking_data lot1) =
                     Some (mkSpace (position d) true (Some vehicle) now
                                   (distance_to_entrance d) score)).
      { rewrite Hpd, dict_get_update_eq, Hd. reflexivity. }
      destruct (Hocc aid _ Haid eq_refl) as [Hnotin Hkeep].
      change (omap id (Some aid :: answers1)) with (aid :: omap id answers1).
      cbn [length].
      split; [congruence|]. split; [cbn; congruence|].
      split; [rewrite Hhist, Hh, length_app; cbn; lia|].
      split.
      { apply NoDup_cons. split; [|exact Hnd2].
        intros Hin. apply Hnotin. apply list_elem_of_In. exact Hin. }
      split.
      * intros key d0 Hd0 Ho.
        assert (Hne : key <> aid) by (intros ->; congruence).
        assert (Hd1 : dict_get key (parking_data lot1) = Some d0)
          by (rewrite Hpd, dict_get_update_ne by exact Hne; exact Hd0).
        destruct (Hocc key d0 Hd1 Ho) as [Hn Hk2].
        split; [|exact Hk2]. intros [Heq|Hin]; [congruence | exact (Hn Hin)].
      * intros key [<-|Hin].
        -- split; [exists d; auto|]. eexists. split; [exact Hkeep | reflexivity].
        -- destruct (Hans key Hin) as [(d1 & Hd1 & Hf1) Hafter].
           split; [|exact Hafter].
           assert (Hne : key <> aid).
           { intros ->. rewrite Haid in Hd1. inversion Hd1; subst d1. discriminate. }
           exists d1. split; [|exact Hf1].
           rewrite Hpd, dict_get_update_ne in Hd1 by exact Hne. exact Hd1.
    + assert (Hlot1 : lot1 = lot).
      { unfold allocate_parking in E1.
        destruct (List.filter _ (parking_data lot)) as [|f0 fr] eqn:Efree;
          [inversion E1; reflexivity|].
        destruct (AllocationEngine.predict_proba (model lot) _) as [e|scores];
          [discriminate|]. cbn [ebind] in E1.
        destruct scores as [|s0 sc] eqn:Esc; [discriminate|]. rewrite <- Esc in E1.
        destruct (_ !! argmax scores); [|discriminate].
        destruct (scores !! argmax scores); discriminate. }
      subst lot1.
      destruct (IH lot answers1 E2 Hnd) as (Hk & Hlen & Hhist & Hnd2 & Hocc & Hans).
      change (omap id (None :: answers1)) with (omap id answers1).
      cbn [length].
      split; [exact Hk|]. split; [cbn; congruence|].
      split; [exact Hhist|]. split; [exact Hnd2|]. split; [exact Hocc | exact Hans].
Qed.

Lemma slot_id_inj i j : slot_id i = slot_id j -> i = j.
Proof.
  unfold slot_id. intros Heq.
  change (String "S" (str_of_nat (i + 1)) = String "S" (str_of_nat (j + 1))) in Heq.
  inversion Heq as [Hp]. unfold str_of_nat in Hp. apply (inj pretty) in Hp. lia.
Qed.

Lemma dict_set_fresh key v (d : list (string * Space)) :
  ~ In key (map fst d) -> dict_set key v d = d ++ [(key, v)].
Proof.
  induction d as [|[k v0] d IH]; intros Hk; [reflexivity|].
  cbn [dict_set]. destruct (String.eqb_spec k key) as [->|Hne].
  - exfalso. apply Hk. left. reflexivity.
  - cbn [app]. f_equal. apply IH. intros Hin. apply Hk. right. exact Hin.
Qed.

Lemma initialize_from_spec now (positions : list ParkingManager.PosEntry) i d d' :
  initialize_from now i positions d = inr d' ->
  (forall key, In key (map fst d) -> exists j, (j < i)%nat /\ key = slot_id j) ->
  exists new,
    d' = d ++ new /\
    map fst new = map slot_id (seq i (length positions)) /\
    Forall (fun e : string * Space => occupied e.2 = true) new /\
    forall k x y w h,
      positions !! k = Some (ParkingManager.PosTuple [x; y; w; h]) ->
      In (slot_id (i + k), mkSpace (x, y, w, h) true None now (x + y) 0%Q) new.
Proof.
  revert i d. induction positions as [|pos positions IH]; intros i d Hinit Hkeys.
  - inversion Hinit; subst d'. exists []. rewrite app_nil_r.
    repeat split; [constructor | intros k x y w h Hk; discriminate].
  - cbn [initialize_from] in Hinit.
    destruct (ParkingManager.unpack4 pos) as [e|[[[x y] w] h]] eqn:Ep; [discriminate|].
    cbn [ebind] in Hinit.
    assert (Hpos : pos = ParkingManager.PosTuple [x; y; w; h]).
    { destruct pos as [[|a [|b [|c [|e [|f cs]]]]]|]; try discriminate.
      inversion Ep. reflexivity. }
    change ("S" +:+ str_of_nat (i + 1))%string with (slot_id i) in Hinit.
    rewrite dict_set_fresh in Hinit.
    2:{ intros Hin. destruct (Hkeys _ Hin) as (j & Hj & Heq).
        apply slot_id_inj in Heq. lia. }
    destruct (IH (S i) _ Hinit) as (new & Hd' & Hk & Hocc & Hall).
    { intros key Hin. rewrite map_app, in_app_iff in Hin. destruct Hin as [Hin|Hin].
      - destruct (Hkeys _ Hin) as (j & Hj & Heq). exists j. split; [lia | exact Heq].
      - cbn in Hin. destruct Hin as [<-|[]]. exists i. split; [lia | reflexivity]. }
    exists ((slot_id i, mkSpace (x, y, w, h) true None now (x + y) 0%Q) :: new).
    split; [rewrite Hd', <- app_assoc; reflexivity|].
    split; [cbn [map fst length seq]; f_equal; exact Hk|].
    split; [constructor; [reflexivity | exact Hocc]|].
    intros k x0 y0 w0 h0 Hlk. destruct k as [|k]; cbn in Hlk.
    + rewrite Hpos in Hlk. inversion Hlk; subst. rewrite Nat.add_0_r.
      left. reflexivity.
    + right. replace (i + S k)%nat with (S i + k)%nat by lia.
      exact (Hall k x0 y0 w0 h0 Hlk).
Qed.

(** X21.  A visualizer just initialised from a list of positions: the dict
    holds one record per position, under the distinct ids S1, S2, ... in the
    order of the list, each with the rectangle, the distance proxy x + y, the
    current time and no vehicle; every space is presumed occupied, so
    [allocate_parking] answers [None] for every request and changes nothing
    (the model is not consulted) until [update_parking_status] reports a
    space free. *)
Theorem visualizer_fresh_lot (positions : list ParkingManager.PosEntry) (now : Q)
  (lot lot1 : Lot M) :
  initialize_parking_spaces positions now lot = inr lot1 ->
  map fst (parking_data lot1) = map slot_id (seq 0 (length positions)) /\
  NoDup (map fst (parking_data lot1)) /\
  (forall i x y w h,
     positions !! i = Some (ParkingManager.PosTuple [x; y; w; h]) ->
     dict_get (slot_id i) (parking_data lot1)
       = Some (mkSpace (x, y, w, h) true None now (x + y) 0%Q)) /\
  (forall vehicle vs t, allocate_parking vehicle vs t lot1 = inr (None, lot1)) /\
  model lot1 = model lot /\ allocation_history lot1 = allocation_history lot.
Proof.
  intros Hinit. unfold initialize_parking_spaces in Hinit.
  destruct (initialize_from now 0 positions []) as [e|d] eqn:E; [discriminate|].
  cbn [ebind] in Hinit. inversion Hinit; subst lot1. clear Hinit.
  cbn [parking_data model allocation_history].
  destruct (initialize_from_spec _ _ _ _ _ E) as (new & Hd & Hk & Hocc & Hall).
  { intros key []. }
  cbn [app] in Hd. subst new.
  assert (Hnd : NoDup (map fst d)).
  { rewrite Hk. apply NoDup_fmap_2; [|apply NoDup_seq].
    intros i j. apply slot_id_inj. }
  split; [exact Hk|]. split; [exact Hnd|].
  split.
  { intros i x y w h Hi. apply dict_get_In; [exact Hnd|].
    exact (Hall i x y w h Hi). }
  split; [|split; reflexivity].
  intros vehicle vs t. unfold allocate_parking. cbn [parking_data].
  assert (Hnil : List.filter (fun e : string * Space => negb (occupied e.2)) d = []).
  { clear -Hocc. induction Hocc as [|e l He _ IH]; [reflexivity|].
    cbn [List.filter]. rewrite He. exact IH. }
  rewrite Hnil. reflexivity.
Qed.

End Visualizer.

(** ** The visualizer's occupation history *)

Section VisualizerHistory.
Import ParkingVisualizer.

Lemma visualizer_update_one_record now (pd : gmap string Slot) id b d :
  pd !! id = Some d ->
  update_one now pd (id, b) !! id =
    Some (mkSlot b (if b then vehicle_id d else None)
                 (if Bool.eqb (occupied d) b then last_state_change d else now)
                 (occupation_history d ++
                    if Bool.eqb (occupied d) b then []
                    else [mkHistoryEntry now b (now - now)%Q])).
Proof.
  intros Hd. unfold update_one. rewrite Hd, lookup_insert_eq.
  destruct d as [o v l h]. cbn [occupied vehicle_id last_state_change occupation_history].
  destruct o, b; cbn; rewrite ?app_nil_r; reflexivity.
Qed.

(** X22.  [ParkingVisualizer.update_parking_status] on distinct space ids,
    for a known space that is given the status [b]: the record takes the
    status; its vehicle is cleared when the space is reported free and kept
    otherwise; when the status flipped, exactly one entry is appended to
    [occupation_history], stamped with the current time and the new state,
    and its [duration] is 0 (the code overwrites [last_state_change] before
    it computes the duration, so the time spent in the previous state is
    never recorded); when the status did not flip, the history is
    unchanged. *)
Theorem visualizer_status_history (now : Q) (ids : list string)
  (statuses : list bool) (pd : gmap string Slot) (id : string) (d : Slot)
  (i : nat) (b : bool) :
  NoDup ids -> pd !! id = Some d ->
  ids !! i = Some id -> statuses !! i = Some b ->
  exists d',
    update_parking_status ids statuses now pd !! id = Some d' /\
    occupied d' = b /\
    vehicle_id d' = (if b then vehicle_id d else None) /\
    occupation_history d' =
      occupation_history d ++
        (if Bool.eqb (occupied d) b then []
         else [mkHistoryEntry now b (now - now)%Q]) /\
    (now - now == 0)%Q.
Proof.
  intros Hnd Hd Hi Hb.
  assert (Hgoal :
    update_parking_status ids statuses now pd !! id =
      Some (mkSlot b (if b then vehicle_id d else None)
                   (if Bool.eqb (occupied d) b then last_state_change d else now)
                   (occupation_history d ++
                      if Bool.eqb (occupied d) b then []
                      else [mkHistoryEntry now b (now - now)%Q]))).
  { revert statuses pd i Hd Hi Hb Hnd.
    induction ids as [|a ids IH]; intros statuses pd i Hd Hi Hb Hnd; [discriminate|].
    destruct statuses as [|b0 statuses]; [discriminate|].
    apply NoDup_cons in Hnd. destruct Hnd as [Ha Hnd].
    unfold update_parking_status. cbn [zip zip_with foldl].
    change (foldl (update_one now) ?p (zip_with pair ids statuses))
      with (update_parking_status ids statuses now p).
    destruct i as [|i]; cbn in Hi, Hb.
    - inversion Hi; subst a. inversion Hb; subst b0.
      rewrite visualizer_untouched by exact Ha.
      apply visualizer_update_one_record. exact Hd.
    - assert (Hne : a <> id).
      { intros ->. apply Ha. eapply list_elem_of_lookup_2. exact Hi. }
      apply (IH statuses _ i); [|exact Hi | exact Hb | exact Hnd].
      rewrite visualizer_update_one_other by congruence. exact Hd. }
  eexists. split; [exact Hgoal|]. cbn [occupied vehicle_id occupation_history].
  repeat split. ring.
Qed.

End VisualizerHistory.

(** ** The tracker: when a track is counted *)

Section TrackStep.
Import VehicleTracker TrackerSpec.

Lemma last_two_y_snoc (l : list (Z * Z)) (c : Z * Z) :
  last_two_y (l ++ [c]) =
    match last l with
    | Some p => Some (p.2, c.2)
    | None => None
    end.
Proof.
  unfold last_two_y. rewrite rev_app_distr. cbn [rev app].
  destruct l as [|a l] using rev_ind.
  - destruct c. reflexivity.
  - rewrite rev_app_distr, last_snoc. cbn [rev app]. destruct c, a. reflexivity.
Qed.

Lemma last_two_y_last_n (l : list (Z * Z)) :
  last_two_y (last_n 30 l) = last_two_y l.
Proof.
  unfold last_two_y, last_n.
  rewrite <- (firstn_rev 30 l).
  destruct (rev l) as [|a [|b r]]; reflexivity.
Qed.

Lemma last_last_n (l : list (Z * Z)) : last (last_n 30 l) = last l.
Proof.
  unfold last_n. destruct l as [|a l] using rev_ind; [reflexivity|].
  rewrite last_snoc, length_app. cbn [length].
  rewrite drop_app_le by lia. apply last_snoc.
Qed.

Lemma length_last_n (l : list (Z * Z)) :
  (30 < length l)%nat -> length (last_n 30 l) = 30%nat.
Proof. intros Hl. unfold last_n. rewrite length_drop. lia. Qed.

(** X23.  One iteration of the loop of [_process_tracks], for the track
    [(track_id, (x1, y1, x2, y2), class_id)].  The vehicle is counted in this
    iteration exactly when the track is already known and not yet counted,
    its last recorded centroid lies above the band ([y < line_height -
    offset]) and the new centroid lies below it ([y > line_height + offset]):
    a track seen for the first time, a track moving upwards and a centroid
    that stops inside the band are never counted.  Whatever happens, the
    record of the track ends with the new centroid, holds at most 30
    positions, keeps the class id of the first sighting, and the records of
    the other tracks are untouched. *)
Theorem process_track_counts_iff (lh off : Z) (tv : gmap Z Vehicle) (n : Z)
  (hl : list Z) (tid x1 y1 x2 y2 cls : Z) :
  let st' := process_track lh off (tv, n, hl) (tid, (x1, y1, x2, y2), cls) in
  ((st'.1.2 = n + 1 /\ st'.2 = hl ++ [tid]) \/ (st'.1.2 = n /\ st'.2 = hl)) /\
  (st'.1.2 = n + 1 <->
   exists v0 p,
     tv !! tid = Some v0 /\ counted v0 = false /\ last (positions v0) = Some p /\
     p.2 < lh - off /\ lh + off < (y1 + y2) / 2) /\
  (exists v',
     st'.1.1 !! tid = Some v' /\
     last (positions v') = Some ((x1 + x2) / 2, (y1 + y2) / 2) /\
     (length (positions v') <= 30)%nat /\
     class_id v' = match tv !! tid with Some v0 => class_id v0 | None => cls end /\
     (counted v' = true <-> counted_in tv tid \/ st'.1.2 = n + 1)) /\
  (forall tid', tid' <> tid -> st'.1.1 !! tid' = tv !! tid').
Proof.
  cbv zeta. unfold process_track.
  set (c := ((x1 + x2) / 2, (y1 + y2) / 2)).
  set (v := match tv !! tid with
            | None => mkVehicle [c] false cls
            | Some v0 => _
            end).
  assert (Hlast : last (positions v) = Some c).
  { unfold v. destruct (tv !! tid) as [v0|]; cbn [positions]; [|reflexivity].
    destruct (30 <? length (positions v0 ++ [c]))%nat;
      [rewrite last_last_n|]; apply last_snoc. }
  assert (Hlen : (length (positions v) <= 30)%nat).
  { unfold v. destruct (tv !! tid) as [v0|]; cbn [positions]; [|cbn; lia].
    destruct (Nat.ltb_spec 30 (length (positions v0 ++ [c]))) as [Hl|Hl];
      [rewrite length_last_n by exact Hl|]; lia. }
  assert (Hcls : class_id v
                 = match tv !! tid with Some v0 => class_id v0 | None => cls end).
  { unfold v. destruct (tv !! tid); reflexivity. }
  assert (Hcnt : counted v = true <-> counted_in tv tid).
  { unfold counted_in, v. destruct (tv !! tid) as [v0|]; cbn [counted].
    - split; [intros Hc; exists v0; auto | intros [v1 [Hv1 Hc]]; congruence].
    - split; [discriminate | intros [v1 [Hv1 _]]; discriminate]. }
  assert (Htwo : last_two_y (positions v) =
                 match tv !! tid with
                 | Some v0 => match last (positions v0) with
                              | Some p => Some (p.2, c.2)
                              | None => None
                              end
                 | None => None
                 end).
  { unfold v. destruct (tv !! tid) as [v0|]; cbn [positions]; [|reflexivity].
    destruct (30 <? length (positions v0 ++ [c]))%nat;
      [rewrite last_two_y_last_n|]; apply last_two_y_snoc. }
  assert (Hcv : counted v = match tv !! tid with
                            | Some v0 => counted v0 | None => false end).
  { unfold v. destruct (tv !! tid); reflexivity. }
  assert (Hno : ~ (exists v0 p,
                     tv !! tid = Some v0 /\ counted v0 = false /\
                     last (positions v0) = Some p /\
                     p.2 < lh - off /\ lh + off < c.2) ->
                forall tv1 : gmap Z Vehicle,
                  tv1 !! tid = Some v ->
                  (forall tid', tid' <> tid -> tv1 !! tid' = tv !! tid') ->
                  (((tv1, n, hl).1.2 = n + 1 /\ (tv1, n, hl).2 = hl ++ [tid]) \/
                   ((tv1, n, hl).1.2 = n /\ (tv1, n, hl).2 = hl)) /\
                  ((tv1, n, hl).1.2 = n + 1 <->
                   exists v0 p,
                     tv !! tid = Some v0 /\ counted v0 = false /\
                     last (positions v0) = Some p /\
                     p.2 < lh - off /\ lh + off < c.2) /\
                  (exists v',
                     (tv1, n, hl).1.1 !! tid = Some v' /\
                     last (positions v') = Some c /\
                     (length (positions v') <= 30)%nat /\
                     class_id v'
                     = match tv !! tid with Some v0 => class_id v0 | None => cls end /\
                     (counted v' = true <-> counted_in tv tid \/ (tv1, n, hl).1.2 = n + 1)) /\
                  (forall tid', tid' <> tid -> (tv1, n, hl).1.1 !! tid' = tv !! tid')).
  { intros Hnot tv1 Hv1 Hother. cbn [fst snd].
    split; [right; split; reflexivity|].
    split; [split; [lia | intros Hex; exfalso; exact (Hnot Hex)]|].
    split; [|exact Hother].
    exists v. split; [exact Hv1|]. split; [exact Hlast|]. split; [exact Hlen|].
    split; [exact Hcls|]. rewrite Hcnt. split; [auto | intros [Hc|Hn]; [exact Hc | lia]]. }
  assert (Hins : forall v1 : Vehicle,
             (<[tid := v1]> tv) !! tid = Some v1 /\
             forall tid', tid' <> tid -> (<[tid := v1]> tv) !! tid' = tv !! tid').
  { intros v1. split; [apply lookup_insert_eq|].
    intros tid' Hne. apply lookup_insert_ne. congruence. }
  destruct (counted v) eqn:Ec.
  { apply Hno; [|apply Hins..].
    intros (v0 & p & Hv0 & Hc0 & _). rewrite Hv0 in Hcv. congruence. }
  destruct (last_two_y (positions v)) as [[prev_y curr_y]|] eqn:El.
  2:{ apply Hno; [|apply Hins..].
      intros (v0 & p & Hv0 & _ & Hp & _). rewrite Hv0, Hp in Htwo. discriminate. }
  destruct ((prev_y <? lh - off) && (lh + off <? curr_y)) eqn:Eb.
  2:{ apply Hno; [|apply Hins..].
      intros (v0 & p & Hv0 & _ & Hp & Hlo & Hhi). rewrite Hv0, Hp in Htwo.
      inversion Htwo; subst prev_y curr_y.
      apply andb_false_iff in Eb. destruct Eb as [Eb|Eb];
        apply Z.ltb_ge in Eb; unfold c in *; cbn [snd] in *; lia. }
  apply andb_true_iff in Eb. destruct Eb as [Elo Ehi].
  apply Z.ltb_lt in Elo, Ehi. cbn [fst snd].
  assert (Hex : exists v0 p,
             tv !! tid = Some v0 /\ counted v0 = false /\
             last (positions v0) = Some p /\ p.2 < lh - off /\ lh + off < c.2).
  { destruct (tv !! tid) as [v0|] eqn:Etv; [|discriminate].
    destruct (last (positions v0)) as [p|] eqn:Ep; [|discriminate].
    inversion Htwo; subst prev_y curr_y. exists v0, p.
    split; [reflexivity|]. split; [symmetry; exact Hcv|]. split; [exact Ep|].
    split; [exact Elo | exact Ehi]. }
  split; [left; split; reflexivity|].
  split; [split; [intros _; exact Hex | reflexivity]|].
  split; [|apply Hins].
  eexists. split; [apply lookup_insert_eq|]. cbn [positions class_id counted].
  split; [exact Hlast|]. split; [exact Hlen|]. split; [exact Hcls|].
  split; [intros _; right; reflexivity | reflexivity].
Qed.

End TrackStep.

(** ** The associator: overlap of boxes and class ids *)

Section IoU.
Import DeepSORTTracker.

Lemma Qmax_spec a b :
  (a <= Qmax a b)%Q /\ (b <= Qmax a b)%Q /\ (Qmax a b = a \/ Qmax a b = b).
Proof.
  unfold Qmax. destruct (Qlt_bool a b) eqn:E.
  - apply Qlt_bool_iff in E. repeat split; [lra | lra | right; reflexivity].
  - apply Qlt_bool_false_iff in E. repeat split; [lra | lra | left; reflexivity].
Qed.

Lemma Qmin_spec a b :
  (Qmin a b <= a)%Q /\ (Qmin a b <= b)%Q /\ (Qmin a b = a \/ Qmin a b = b).
Proof.
  unfold Qmin. destruct (Qlt_bool b a) eqn:E.
  - apply Qlt_bool_iff in E. repeat split; [lra | lra | right; reflexivity].
  - apply Qlt_bool_false_iff in E. repeat split; [lra | lra | left; reflexivity].
Qed.

(** The intersection of two rectangles is no larger than their union. *)
Lemma intersection_le_union (wi hi w1 h1 w2 h2 : Q) :
  (0 < wi)%Q -> (0 < hi)%Q ->
  (wi <= w1)%Q -> (wi <= w2)%Q -> (hi <= h1)%Q -> (hi <= h2)%Q ->
  (0 < wi * hi)%Q /\ (wi * hi <= w1 * h1 + w2 * h2 - wi * hi)%Q.
Proof.
  intros Hw Hh Hw1 Hw2 Hh1 Hh2.
  assert (H0 : (0 < wi * hi)%Q) by nra.
  assert (H1 : (wi * hi <= w1 * h1)%Q) by nra.
  assert (H2 : (wi * hi <= w2 * h2)%Q) by nra.
  split; [exact H0 | lra].
Qed.

(** X24.  [_calculate_iou] on two boxes given corner to corner
    ([x1 <= x2] and [y1 <= y2]): the result lies between 0 and 1; it is
    positive exactly when the boxes overlap in a region of positive width and
    height (boxes that only touch score 0), and then it is the area of the
    intersection over the area of the union. *)
Theorem calculate_iou_bounds (x1_1 y1_1 x2_1 y2_1 x1_2 y1_2 x2_2 y2_2 : Q) :
  (x1_1 <= x2_1)%Q -> (y1_1 <= y2_1)%Q -> (x1_2 <= x2_2)%Q -> (y1_2 <= y2_2)%Q ->
  let iou := _calculate_iou (x1_1, y1_1, x2_1, y2_1) (x1_2, y1_2, x2_2, y2_2) in
  let wi := (Qmin x2_1 x2_2 - Qmax x1_1 x1_2)%Q in
  let hi := (Qmin y2_1 y2_2 - Qmax y1_1 y1_2)%Q in
  (0 <= iou <= 1)%Q /\
  ((0 < iou)%Q <-> (0 < wi)%Q /\ (0 < hi)%Q) /\
  ((0 < wi)%Q -> (0 < hi)%Q ->
   (iou == wi * hi / ((x2_1 - x1_1) * (y2_1 - y1_1)
                      + (x2_2 - x1_2) * (y2_2 - y1_2) - wi * hi))%Q).
Proof.
  intros Hx1 Hy1 Hx2 Hy2. cbv zeta. unfold _calculate_iou.
  destruct (Qmax_spec x1_1 x1_2) as (Ha1 & Ha2 & _).
  destruct (Qmax_spec y1_1 y1_2) as (Hb1 & Hb2 & _).
  destruct (Qmin_spec x2_1 x2_2) as (Hc1 & Hc2 & _).
  destruct (Qmin_spec y2_1 y2_2) as (Hd1 & Hd2 & _).
  set (xa := Qmax x1_1 x1_2) in *. set (ya := Qmax y1_1 y1_2) in *.
  set (xb := Qmin x2_1 x2_2) in *. set (yb := Qmin y2_1 y2_2) in *.
  destruct (Qle_bool xb xa) eqn:Ex.
  { apply Qle_bool_iff in Ex. cbn [orb].
    split; [split; lra|]. split; [split; [lra | intros [Hw _]; lra]|].
    intros Hw _. lra. }
  destruct (Qle_bool yb ya) eqn:Ey.
  { apply Qle_bool_iff in Ey. cbn [orb].
    split; [split; lra|]. split; [split; [lra | intros [_ Hh]; lra]|].
    intros _ Hh. lra. }
  cbn [orb].
  assert (Hw : (0 < xb - xa)%Q).
  { destruct (Qlt_le_dec xa xb) as [Hlt|Hle]; [lra|].
    apply Qle_bool_iff in Hle. congruence. }
  assert (Hh : (0 < yb - ya)%Q).
  { destruct (Qlt_le_dec ya yb) as [Hlt|Hle]; [lra|].
    apply Qle_bool_iff in Hle. congruence. }
  destruct (intersection_le_union (xb - xa) (yb - ya)
              (x2_1 - x1_1) (y2_1 - y1_1) (x2_2 - x1_2) (y2_2 - y1_2)
              Hw Hh ltac:(lra) ltac:(lra) ltac:(lra) ltac:(lra)) as [Hi Hu].
  set (i := ((xb - xa) * (yb - ya))%Q) in *.
  set (u := ((x2_1 - x1_1) * (y2_1 - y1_1)
             + (x2_2 - x1_2) * (y2_2 - y1_2) - i)%Q) in *.
  assert (Hupos : (0 < u)%Q) by lra.
  destruct (Qlt_bool 0 u) eqn:Eu.
  2:{ apply Qlt_bool_false_iff in Eu. lra. }
  assert (Hq0 : (0 < i / u)%Q).
  { apply Qlt_shift_div_l; [exact Hupos | lra]. }
  assert (Hq1 : (i / u <= 1)%Q).
  { apply Qle_shift_div_r; [exact Hupos | lra]. }
  split; [split; lra|]. split; [split; [intros _; split; lra | intros _; exact Hq0]|].
  intros _ _. reflexivity.
Qed.

(** The loop of [_get_best_class_id] keeps the first detection of maximal
    overlap among those that beat the initial best. *)
Lemma best_match_spec bbox (boxes : list Box) b0 i0 i :
  let r := best_match bbox b0 i0 i boxes in
  (b0 <= r.1)%Q /\
  (forall k det, boxes !! k = Some det -> (_calculate_iou bbox det <= r.1)%Q) /\
  ((r = (b0, i0) /\
    forall k det, boxes !! k = Some det -> (_calculate_iou bbox det <= b0)%Q) \/
   (exists k det,
      boxes !! k = Some det /\ r = (_calculate_iou bbox det, (i + k)%nat) /\
      (b0 < _calculate_iou bbox det)%Q /\
      forall j det', (j < k)%nat -> boxes !! j = Some det' ->
                     (_calculate_iou bbox det' < _calculate_iou bbox det)%Q)).
Proof.
  cbv zeta. revert b0 i0 i. induction boxes as [|d boxes IH]; intros b0 i0 i.
  - cbn [best_match fst]. split; [lra|]. split; [intros k det Hk; discriminate|].
    left. split; [reflexivity | intros k det Hk; discriminate].
  - cbn [best_match]. destruct (Qlt_bool b0 (_calculate_iou bbox d)) eqn:E.
    + apply Qlt_bool_iff in E.
      destruct (IH (_calculate_iou bbox d) i (S i)) as (H1 & H2 & H3).
      split; [lra|]. split.
      { intros [|k] det Hk; cbn in Hk; [inversion Hk; subst; exact H1|].
        exact (H2 k det Hk). }
      right. destruct H3 as [[Hr Hall]|(k & det & Hk & Hr & Hlt & Hfirst)].
      * exists 0%nat, d. split; [reflexivity|]. rewrite Nat.add_0_r.
        split; [exact Hr|]. split; [exact E|]. intros j det' Hj. lia.
      * exists (S k), det. split; [exact Hk|].
        replace (i + S k)%nat with (S i + k)%nat by lia.
        split; [exact Hr|]. split; [lra|].
        intros [|j] det' Hj Hdet; cbn in Hdet.
        -- inversion Hdet; subst det'. exact Hlt.
        -- apply (Hfirst j det'); [lia | exact Hdet].
    + apply Qlt_bool_false_iff in E.
      destruct (IH b0 i0 (S i)) as (H1 & H2 & H3).
      split; [exact H1|]. split.
      { intros [|k] det Hk; cbn in Hk; [inversion Hk; subst; lra|].
        exact (H2 k det Hk). }
      destruct H3 as [[Hr Hall]|(k & det & Hk & Hr & Hlt & Hfirst)].
      * left. split; [exact Hr|].
        intros [|k] det Hk; cbn in Hk; [inversion Hk; subst; exact E|].
        exact (Hall k det Hk).
      * right. exists (S k), det. split; [exact Hk|].
        replace (i + S k)%nat with (S i + k)%nat by lia.
        split; [exact Hr|]. split; [exact Hlt|].
        intros [|j] det' Hj Hdet; cbn in Hdet.
        -- inversion Hdet; subst det'. lra.
        -- apply (Hfirst j det'); [lia | exact Hdet].
Qed.

(** X25.  [_get_best_class_id] gives a track the class of the detection that
    overlaps it most, and only on a clear match: a result other than the
    default 0 is the class id stored at the index of the first detection of
    maximal IoU with the track's box, and that IoU exceeds 0.5; when no
    detection overlaps the box by more than 0.5 the result is the default
    0. *)
Theorem get_best_class_id_spec (bbox : Box) (all_bboxes : list Box)
  (all_class_ids : list Z) :
  (_get_best_class_id bbox all_bboxes all_class_ids <> 0 ->
   exists k det,
     all_bboxes !! k = Some det /\
     all_class_ids !! k = Some (_get_best_class_id bbox all_bboxes all_class_ids) /\
     (1 # 2 < _calculate_iou bbox det)%Q /\
     (forall j det', all_bboxes !! j = Some det' ->
                     (_calculate_iou bbox det' <= _calculate_iou bbox det)%Q) /\
     (forall j det', (j < k)%nat -> all_bboxes !! j = Some det' ->
                     (_calculate_iou bbox det' < _calculate_iou bbox det)%Q)) /\
  ((forall k det, all_bboxes !! k = Some det ->
                  (_calculate_iou bbox det <= 1 # 2)%Q) ->
   _get_best_class_id bbox all_bboxes all_class_ids = 0).
Proof.
  unfold _get_best_class_id.
  destruct all_bboxes as [|b0 bs] eqn:Eb.
  { split; [intros Hne; contradiction | reflexivity]. }
  rewrite <- Eb. clear Eb b0 bs.
  pose proof (best_match_spec bbox all_bboxes 0%Q 0%nat 0%nat) as Hspec.
  cbv zeta in Hspec.
  destruct (best_match bbox 0%Q 0%nat 0%nat all_bboxes) as [best_iou best_idx].
  cbn [fst] in Hspec. destruct Hspec as (H0 & Hmax & Hcases).
  destruct (Qlt_bool (1 # 2) best_iou) eqn:E.
  - apply Qlt_bool_iff in E. split.
    + intros Hne.
      destruct Hcases as [[Hr _]|(k & det & Hk & Hr & Hlt & Hfirst)].
      { inversion Hr; subst best_iou. lra. }
      inversion Hr; subst best_iou best_idx. cbn [Nat.add] in *.
      exists k, det. split; [exact Hk|].
      split; [destruct (all_class_ids !! k); [reflexivity | contradiction]|].
      split; [exact E|]. split; [exact Hmax | exact Hfirst].
    + intros Hall. exfalso.
      destruct Hcases as [[Hr _]|(k & det & Hk & Hr & _)].
      * inversion Hr; subst best_iou. lra.
      * inversion Hr; subst best_iou. specialize (Hall k det Hk). lra.
  - split; [intros Hne; contradiction | reflexivity].
Qed.

End IoU.

(** ** Saving and loading the positions *)

Section SaveLoad.
Import PositionsFile.

Lemma filter_all_valid (l : list pyval) :
  (forall pos, pos ∈ l -> valid_position pos = true) ->
  List.filter valid_position l = l.
Proof.
  induction l as [|p l IH]; intros Hall; [reflexivity|].
  cbn [List.filter]. rewrite (Hall p) by apply list_elem_of_here.
  f_equal. apply IH. intros pos Hpos. apply Hall, list_elem_of_further, Hpos.
Qed.

Lemma unique_from_distinct (l : list pyval) seen :
  NoDup (map int_key l) ->
  (forall pos, pos ∈ l -> int_key pos ∉ seen) ->
  unique_from seen l = l.
Proof.
  revert seen. induction l as [|p l IH]; intros seen Hnd Hseen; [reflexivity|].
  cbn [map] in Hnd. apply NoDup_cons in Hnd. destruct Hnd as [Hp Hnd].
  cbn [unique_from].
  destruct (key_seen seen (int_key p)) eqn:E.
  { apply key_seen_iff in E. exfalso. exact (Hseen p (list_elem_of_here _ _) E). }
  f_equal. apply IH; [exact Hnd|].
  intros pos Hpos Hin. apply elem_of_cons in Hin. destruct Hin as [Heq|Hin].
  - apply Hp. rewrite <- Heq. apply list_elem_of_fmap. exists pos. auto.
  - exact (Hseen pos (list_elem_of_further _ _ _ Hpos) Hin).
Qed.

(** X26.  Saving and loading the positions is a round trip.  A store that a
    successful load produced is read back unchanged, positions and counters,
    after [save_parking_positions] returned [True], whatever was in the file
    before; and for any store whose positions are valid rectangles with
    pairwise distinct integer coordinates, the positions read back are the
    positions saved, in their order.  [save_parking_positions] returns [True]
    only when the file holds the saved list. *)
Theorem save_then_load (remove_ok : bool) (write : Write)
  (file file1 : option (exn + pyval)) (s s2 : Store) :
  save_parking_positions remove_ok write file s = (true, file1) ->
  file1 = Some (inr (VList (posList s))) /\
  ((forall pos, pos ∈ posList s -> valid_position pos = true) ->
   NoDup (map int_key (posList s)) ->
   load_parking_positions file1 s2 =
     (true, mkStore (posList s) (Z.of_nat (length (posList s))) 0
                    (Z.of_nat (length (posList s))))) /\
  (forall file0 s0,
     load_parking_positions file0 s0 = (true, s) ->
     load_parking_positions file1 s2 = (true, s)).
Proof.
  intros Hsave.
  assert (Hfile : file1 = Some (inr (VList (posList s)))).
  { unfold save_parking_positions in Hsave.
    destruct file as [f|]; [destruct remove_ok; [|discriminate]|];
      destruct write; inversion Hsave; reflexivity. }
  split; [exact Hfile|]. subst file1.
  assert (Hload : (forall pos, pos ∈ posList s -> valid_position pos = true) ->
                  NoDup (map int_key (posList s)) ->
                  load_parking_positions (Some (inr (VList (posList s)))) s2 =
                    (true, mkStore (posList s) (Z.of_nat (length (posList s))) 0
                                   (Z.of_nat (length (posList s))))).
  { intros Hvalid Hnd. unfold load_parking_positions.
    rewrite (filter_all_valid _ Hvalid).
    rewrite (unique_from_distinct _ [] Hnd) by (intros pos _ Hin; inversion Hin).
    reflexivity. }
  split; [exact Hload|].
  intros file0 s0 Hl0.
  assert (Hs : (forall pos, pos ∈ posList s -> valid_position pos = true) /\
               NoDup (map int_key (posList s)) /\
               s = mkStore (posList s) (Z.of_nat (length (posList s))) 0
                           (Z.of_nat (length (posList s)))).
  { unfold load_parking_positions in Hl0.
    destruct file0 as [[e|v]|]; try (inversion Hl0; fail).
    destruct v as [n|items|items|]; try (inversion Hl0; fail).
    inversion Hl0; subst s. cbn [posList].
    destruct (unique_from_sound (List.filter valid_position items) []) as [Hsub Hnd].
    split; [|split; [exact Hnd | reflexivity]].
    intros pos Hpos. destruct (Hsub pos Hpos) as [Hin _].
    apply list_elem_of_In, filter_In in Hin. exact (proj2 Hin). }
  destruct Hs as (Hvalid & Hnd & Hs). rewrite (Hload Hvalid Hnd).
  rewrite <- Hs. reflexivity.
Qed.

End SaveLoad.

(** ** The records, groups, visualizer, overlap and round trip on concrete data *)


(** [Examples.one_space] on a frame whose crops hold 600 non-zero pixels: the
    record of S1-A1 becomes occupied and keeps its timestamp. *)
Lemma update_individual_slots_records_witness :
  exists d',
    ParkingManager.parking_data Examples.one_space_updated
      !! ParkingManager.space_id_of 0
           (ParkingManager.section_of (Examples.frame 600) 10 10) = Some d' /\
    ParkingManager.occupied d' = true /\
    ParkingManager.last_state_change d' = 100%Q.
Proof.
  destruct (update_individual_slots_records (Examples.frame 600) 200%Q
              Examples.one_space Examples.one_space_updated 0 10 10 20 20
              ltac:(vm_compute; reflexivity) eq_refl eq_refl)
    as (d' & Hd' & Hm).
  assert (E : ParkingManager.parking_data Examples.one_space
                !! ParkingManager.space_id_of 0
                     (ParkingManager.section_of (Examples.frame 600) 10 10)
              = Some Examples.free_slot) by (vm_compute; reflexivity).
  rewrite E in Hm. destruct Hm as (Ho & _ & Hl & _).
  exists d'. split; [exact Hd'|]. split; [rewrite Ho | rewrite Hl]; reflexivity.
Defined.

(** A whole detection pass over [Examples.one_space]: the space is recorded
    occupied and drawn occupied, with 600 pixels. *)
Lemma detection_pass_records_witness :
  exists d',
    ParkingManager.parking_data Examples.one_space_pass.2
      !! ParkingManager.space_id_of 0
           (ParkingManager.section_of (Examples.frame 600) 10 10) = Some d' /\
    ParkingManager.occupied d' = true /\
    ParkingManager.mkDrawn (10, 10, 20, 20) (negb (ParkingManager.occupied d')) 600
      ∈ Examples.one_space_pass.1.
Proof.
  destruct (detection_pass_records (Examples.frame 600) 200%Q
              Examples.one_space Examples.one_space_pass.2 Examples.one_space_pass.1
              0 10 10 20 20
              ltac:(vm_compute; reflexivity) eq_refl eq_refl)
    as (d' & Hd' & Ho & Hdr & _).
  { intros d Hd.
    assert (E : ParkingManager.parking_data Examples.one_space
                  !! ParkingManager.space_id_of 0
                       (ParkingManager.section_of (Examples.frame 600) 10 10)
                = Some Examples.free_slot) by (vm_compute; reflexivity).
    rewrite E in Hd. inversion Hd; subst d. split; reflexivity. }
  exists d'. split; [exact Hd'|]. split; [rewrite Ho; reflexivity | exact Hdr].
Defined.

(** [Examples.space_groups] synchronised into [Examples.with_old_group]: the
    entry of Group_2 covers the spaces 2 and 3. *)
Lemma sync_group_data_entry_witness :
  exists e bx by_ bw bh,
    ParkingManager.parking_data Examples.synced !! "Group_2"%string = Some e /\
    ParkingManager.is_group e = true /\
    ParkingManager.member_spaces e = Some [2; 3; 7]%nat /\
    ParkingManager.position e = (bx, by_, bw, bh) /\
    bx <= 55 /\ 75 + 10 <= bx + bw.
Proof.
  destruct (sync_group_data_entry Examples.space_groups 300%Q
              Examples.with_old_group Examples.synced "Group_2"%string
              [2; 3; 7]%nat 2%nat
              ltac:(vm_compute; reflexivity)
              ltac:(apply (bool_decide_unpack _); vm_compute; exact I)
              ltac:(right; left; reflexivity)
              ltac:(left; reflexivity)
              ltac:(vm_compute; lia))
    as (e & bx & by_ & bw & bh & He & Hg & Hm & _ & _ & _ & _ & _ & Hp & Hcov).
  exists e, bx, by_, bw, bh. split; [exact He|]. split; [exact Hg|].
  split; [exact Hm|]. split; [exact Hp|].
  pose proof (Hcov 2%nat 55 10 10 10 ltac:(left; reflexivity) eq_refl) as H2.
  pose proof (Hcov 3%nat 75 10 10 10 ltac:(right; left; reflexivity) eq_refl) as H3.
  lia.
Defined.

(** The group entry left over in [Examples.with_old_group] is removed. *)
Lemma sync_group_data_spaces_witness :
  ParkingManager.parking_data Examples.synced !! "Old_group"%string = None.
Proof.
  exact (proj2 (sync_group_data_spaces Examples.space_groups 300%Q
                  Examples.with_old_group Examples.synced "Old_group"%string
                  (Examples.group_slot [0%nat])
                  ltac:(vm_compute; reflexivity)
                  ltac:(vm_compute; reflexivity)
                  ltac:(intros [H|[H|[]]]; discriminate))).
Defined.

(** Three requests on [Examples.viz_lot], which has two free spaces: the
    answers are S1, S3 and [None]. *)
Lemma visualizer_no_double_allocation_witness :
  Examples.viz_session.1 = [Some "S1"; Some "S3"; None]%string /\
  NoDup (omap id Examples.viz_session.1) /\
  length (VisualizerLot.allocation_history Examples.viz_session.2) = 2%nat.
Proof.
  split; [vm_compute; reflexivity|].
  destruct (@visualizer_no_double_allocation nat Examples.toy_classifier
              Examples.requests Examples.viz_lot Examples.viz_session.2
              Examples.viz_session.1
              ltac:(vm_compute; reflexivity)
              ltac:(apply (bool_decide_unpack _); vm_compute; exact I))
    as (_ & _ & Hh & Hnd & _).
  split; [exact Hnd|]. rewrite Hh. vm_compute. reflexivity.
Defined.

(** The visualizer initialised from [Examples.four_spaces] has no space to
    offer. *)
Lemma visualizer_fresh_lot_witness :
  VisualizerLot.allocate_parking "car1" 1 100%Q Examples.viz_fresh
    = inr (None, Examples.viz_fresh) /\
  length (VisualizerLot.parking_data Examples.viz_fresh) = 4%nat.
Proof.
  split; [|vm_compute; reflexivity].
  destruct (@visualizer_fresh_lot nat Examples.toy_classifier
              Examples.four_spaces 50%Q Examples.viz_lot Examples.viz_fresh
              ltac:(vm_compute; reflexivity))
    as (_ & _ & _ & Hnone & _).
  exact (Hnone "car1"%string 1 100%Q).
Defined.

(** The space S1, occupied by car9, is reported free at time 250 s. *)
Lemma visualizer_status_history_witness :
  exists d',
    ParkingVisualizer.update_parking_status ["S1"; "S2"]%string [false; true] 250%Q
      {[ "S1"%string := Examples.parked ]} !! "S1"%string = Some d' /\
    ParkingVisualizer.occupied d' = false /\
    ParkingVisualizer.vehicle_id d' = None /\
    length (ParkingVisualizer.occupation_history d') = 1%nat.
Proof.
  destruct (visualizer_status_history 250%Q ["S1"; "S2"]%string [false; true]
              {[ "S1"%string := Examples.parked ]} "S1"%string Examples.parked
              0%nat false
              ltac:(apply (bool_decide_unpack _); vm_compute; exact I)
              ltac:(vm_compute; reflexivity) eq_refl eq_refl)
    as (d' & Hd' & Ho & Hv & Hh & _).
  exists d'. split; [exact Hd'|]. split; [exact Ho|]. split; [exact Hv|].
  rewrite Hh. reflexivity.
Defined.

(** The boxes (0, 0, 2, 2) and (1, 1, 3, 3) overlap in a unit square: their
    IoU is 1/7. *)
Lemma calculate_iou_bounds_witness :
  (0 < DeepSORTTracker._calculate_iou (0, 0, 2, 2) (1, 1, 3, 3) <= 1)%Q /\
  (DeepSORTTracker._calculate_iou (0, 0, 2, 2) (1, 1, 3, 3) == 1 # 7)%Q.
Proof.
  destruct (calculate_iou_bounds 0 0 2 2 1 1 3 3
              ltac:(lra) ltac:(lra) ltac:(lra) ltac:(lra))
    as ((_ & Hle) & Hpos & _).
  split; [split; [|exact Hle]|vm_compute; reflexivity].
  apply Hpos. split; vm_compute; reflexivity.
Defined.

(** The store loaded from [Examples.stored_positions], saved to a new file
    and loaded again. *)
Lemma save_then_load_witness :
  PositionsFile.load_parking_positions
    (Some (inr (PositionsFile.VList (PositionsFile.posList Examples.loaded_store))))
    Examples.empty_store
  = (true, Examples.loaded_store) /\
  length (PositionsFile.posList Examples.loaded_store) = 2%nat.
Proof.
  split; [|vm_compute; reflexivity].
  exact (proj2 (proj2 (save_then_load true PositionsFile.Written None
                         (Some (inr (PositionsFile.VList
                                       (PositionsFile.posList Examples.loaded_store))))
                         Examples.loaded_store Examples.empty_store eq_refl))
           (Some (inr Examples.stored_positions)) Examples.empty_store
           ltac:(vm_compute; reflexivity)).
Defined.
